(** * bagel-backend: the OpenTofu injector

    A shallow embedding of [src/controllers/terrafrom/tofuInjector.ts]:
    the output summarizer [parseTofuSummary], the command runner
    [runCommands], and the five request handlers [tofuInit], [tofuPlan],
    [tofuApply], [tofuDestroy] and [tofuPlanDeny] together with the
    MongoDB updates they issue on the deployment collection.

    Conventions.
    - A JavaScript string is the list of its UTF-16 code units ([jsstring]);
      [lit] turns an ASCII literal of the source into that form.
    - What the handlers read from the outside (the request, the project
      collection, the environment variable, the container list, the
      behaviour of the spawned processes, the clock) is an explicit input.
    - The deployment collection is threaded through the handlers as a
      list of documents, in collection order. *)

From Stdlib Require Import Strings.String Strings.Ascii.
From stdpp Require Import base option numbers list strings.

Open Scope N_scope.
Open Scope list_scope.

(** ** JavaScript strings *)

Module JS.

(** A string value: its UTF-16 code units, in order. *)
Abbreviation jsstring := (list N).

(** The code units of an ASCII literal. *)
Definition lit (s : string) : jsstring :=
  map N_of_ascii (list_ascii_of_string s).
Arguments lit : simpl never.

(** Truthiness of a string: only the empty string is falsy. *)
Definition truthy (s : jsstring) : bool :=
  match s with [] => false | _ :: _ => true end.

(** [a || b] on strings. *)
Definition or_else (a b : jsstring) : jsstring :=
  if truthy a then a else b.

(** [\d] : the ten ASCII digits. *)
Definition is_digit (c : N) : bool := (48 <=? c) && (c <=? 57).

(** [\s] : ECMAScript WhiteSpace and LineTerminator code points
    (TAB, LF, VT, FF, CR, SP, NBSP, U+1680, U+2000..U+200A, U+2028,
    U+2029, U+202F, U+205F, U+3000, U+FEFF). *)
Definition is_space (c : N) : bool :=
  ((9 <=? c) && (c <=? 13)) || (c =? 32) || (c =? 160) || (c =? 5760)
  || ((8192 <=? c) && (c <=? 8202)) || (c =? 8232) || (c =? 8233)
  || (c =? 8239) || (c =? 8287) || (c =? 12288) || (c =? 65279).

(** [s.split("\n")] and, in general, splitting on one code unit.  The
    result always has at least one element. *)
Fixpoint split_on (sep : N) (s : jsstring) : list jsstring :=
  match s with
  | [] => [[]]
  | c :: s' =>
      if c =? sep then [] :: split_on sep s'
      else match split_on sep s' with
           | l :: ls => (c :: l) :: ls
           | [] => [[c]]
           end
  end.

(** [xs.join(sep)]. *)
Fixpoint join (sep : jsstring) (xs : list jsstring) : jsstring :=
  match xs with
  | [] => []
  | [x] => x
  | x :: rest => x ++ sep ++ join sep rest
  end.

(** A number value that is a non-negative integer or positive infinity:
    what [parseInt] returns on decimal digits. *)
Inductive JSNumber : Type :=
| Finite (n : N)
| Infinity.
Coercion Finite : N >-> JSNumber.

(** The integer that a string of decimal digits denotes (the [mathInt]
    of [parseInt]). *)
Definition mathInt (d : jsstring) : N :=
  fold_left (fun acc c => 10 * acc + (c - 48)) d 0.

(** The Number value for a non-negative integer, as V8 computes it for
    decimal digits: the integer itself below 2^53; from there on the
    nearest integer with a 53-bit significand ([round53]), a tie going
    to the even significand, and positive infinity when that integer
    would be 2^1024 or more. *)
Definition round53 (n : N) : N :=
  if n <? 2 ^ 53 then n
  else
    let e := N.log2 n - 52 in
    let q := n / 2 ^ e in
    let r := n mod 2 ^ e in
    let half := 2 ^ (e - 1) in
    let q' := if (half <? r) || ((r =? half) && N.odd q) then q + 1 else q in
    q' * 2 ^ e.

Definition to_double (n : N) : JSNumber :=
  if 2 ^ 1024 <=? round53 n then Infinity else Finite (round53 n).

(** [parseInt(d, 10)] on a non-empty string of decimal digits, the only
    strings the capture groups produce. *)
Definition parseInt10 (d : jsstring) : JSNumber := to_double (mathInt d).

(** [s.includes(c)] for a single code unit [c]. *)
Definition includes_unit (c : N) (s : jsstring) : bool :=
  existsb (N.eqb c) s.

End JS.

Import JS.

(** ** Regular expressions

    The expressions of the source are sequences of literals, [\s+] and
    captured [(\d+)].  [match_here] is the backtracking matcher of a
    JavaScript engine restricted to that fragment: a [+] is greedy and
    gives characters back one at a time when the rest fails; [search]
    tries the start positions from left to right, as [String.match] does
    for an expression without the [g] flag. *)

Module Regex.

Inductive atom : Type :=
| Lit (l : jsstring)   (* literal text *)
| Spaces               (* \s+ *)
| Digits.              (* (\d+) : a capture group *)

Abbreviation regex := (list atom).

#[global] Instance atom_eq_dec : EqDecision atom.
Proof. solve_decision. Defined.

(** Remove the literal [l] from the front of [s]. *)
Fixpoint match_lit (l s : jsstring) : option jsstring :=
  match l, s with
  | [], _ => Some s
  | _ :: _, [] => None
  | a :: l', c :: s' => if a =? c then match_lit l' s' else None
  end.

(** One or more characters of the class [cls], longest first; [k] is the
    rest of the match, given the consumed text and the remaining text. *)
Fixpoint match_plus {R} (cls : N -> bool)
    (k : jsstring -> jsstring -> option R) (acc s : jsstring) : option R :=
  match s with
  | [] => None
  | c :: s' =>
      if cls c then
        match match_plus cls k (acc ++ [c]) s' with
        | Some r => Some r
        | None => k (acc ++ [c]) s'
        end
      else None
  end.

(** Match [r] at the front of [s]; [caps] are the groups captured so far. *)
Fixpoint match_here (r : regex) (s : jsstring) (caps : list jsstring)
  : option (list jsstring) :=
  match r with
  | [] => Some caps
  | Lit l :: r' =>
      match match_lit l s with
      | Some s' => match_here r' s' caps
      | None => None
      end
  | Spaces :: r' => match_plus is_space (fun _ rest => match_here r' rest caps) [] s
  | Digits :: r' =>
      match_plus is_digit (fun d rest => match_here r' rest (caps ++ [d])) [] s
  end.

(** [s.match(r)] : the capture groups 1, 2, ... of the leftmost match, or
    [None] for [null]. *)
Fixpoint search (r : regex) (s : jsstring) : option (list jsstring) :=
  match match_here r s [] with
  | Some caps => Some caps
  | None =>
      match s with
      | [] => None
      | _ :: s' => search r s'
      end
  end.

(** What it means for [r] to match the whole of [m], capturing [caps]:
    the textbook reading of the expression. *)
Inductive Matches : regex -> jsstring -> list jsstring -> Prop :=
| M_end : Matches [] [] []
| M_lit l r m caps :
    Matches r m caps -> Matches (Lit l :: r) (l ++ m) caps
| M_spaces w r m caps :
    w <> [] -> Forall (fun c => is_space c = true) w ->
    Matches r m caps -> Matches (Spaces :: r) (w ++ m) caps
| M_digits d r m caps :
    d <> [] -> Forall (fun c => is_digit c = true) d ->
    Matches r m caps -> Matches (Digits :: r) (d ++ m) (d :: caps).

(** [r] matches inside [line], after the prefix [pre]. *)
Definition OccursAt (r : regex) (line pre : jsstring) (caps : list jsstring) : Prop :=
  exists m suf, line = pre ++ m ++ suf /\ Matches r m caps.

Definition Occurs (r : regex) (line : jsstring) : Prop :=
  exists pre caps, OccursAt r line pre caps.

(** The leftmost occurrence: no occurrence starts earlier. *)
Definition Leftmost (r : regex) (line : jsstring) (caps : list jsstring) : Prop :=
  exists pre, OccursAt r line pre caps /\
    forall pre' caps', OccursAt r line pre' caps' -> (length pre <= length pre')%nat.

(** The first character an expression can start with is outside [cls]. *)
Definition starts_outside (cls : N -> bool) (other : atom -> bool) (r : regex) : bool :=
  match r with
  | Lit (c :: _) :: _ => negb (cls c)
  | a :: _ => other a
  | [] => false
  end.

(** A [\s+] is followed by a non-space, a [(\d+)] by a non-digit: then
    the text a [+] takes is forced and backtracking never changes it. *)
Fixpoint separated (r : regex) : bool :=
  match r with
  | [] => true
  | Lit _ :: r' => separated r'
  | Spaces :: r' =>
      starts_outside is_space (fun a => match a with Digits => true | _ => false end) r'
      && separated r'
  | Digits :: r' =>
      starts_outside is_digit (fun a => match a with Spaces => true | _ => false end) r'
      && separated r'
  end.

End Regex.

Import Regex.

(** ** The output summarizer *)

(** [CommandResult["summary"]] when it is not [null]: the object literal
    built for each of the three patterns. *)
Inductive Summary : Type :=
| PlanSummary (toAdd toChange toDestroy : JSNumber)
| ApplySummary (added changed destroyed : JSNumber)
| DestroySummary (destroyed : JSNumber).

(** [/Plan:\s+(\d+)\s+to add,\s+(\d+)\s+to change,\s+(\d+)\s+to destroy/] *)
Definition plan_re : regex :=
  [Lit (lit "Plan:"); Spaces; Digits; Spaces; Lit (lit "to add,"); Spaces; Digits;
   Spaces; Lit (lit "to change,"); Spaces; Digits; Spaces; Lit (lit "to destroy")].

(** [/Apply complete! Resources:\s+(\d+)\s+added,\s+(\d+)\s+changed,\s+(\d+)\s+destroyed/] *)
Definition apply_re : regex :=
  [Lit (lit "Apply complete! Resources:"); Spaces; Digits; Spaces; Lit (lit "added,");
   Spaces; Digits; Spaces; Lit (lit "changed,"); Spaces; Digits; Spaces;
   Lit (lit "destroyed")].

(** [/Destroy complete! Resources:\s+(\d+)\s+destroyed/] *)
Definition destroy_re : regex :=
  [Lit (lit "Destroy complete! Resources:"); Spaces; Digits; Spaces; Lit (lit "destroyed")].

(** The body of the [for] loop on one line: [Some] is an assignment to
    [summary] followed by [break], [None] falls through to the next line.
    Each expression has exactly the groups read here. *)
Definition summary_of_line (line : jsstring) : option Summary :=
  match search plan_re line with
  | Some [a; b; c] => Some (PlanSummary (parseInt10 a) (parseInt10 b) (parseInt10 c))
  | Some _ => None
  | None =>
      match search apply_re line with
      | Some [a; b; c] => Some (ApplySummary (parseInt10 a) (parseInt10 b) (parseInt10 c))
      | Some _ => None
      | None =>
          match search destroy_re line with
          | Some [d] => Some (DestroySummary (parseInt10 d))
          | _ => None
          end
      end
  end.

(** The [for (const line of lines)] loop. *)
Fixpoint scan_lines (lines : list jsstring) : option Summary :=
  match lines with
  | [] => None
  | line :: rest =>
      match summary_of_line line with
      | Some s => Some s
      | None => scan_lines rest
      end
  end.

Definition parseTofuSummary (stdout : jsstring) : option Summary :=
  scan_lines (split_on 10 stdout).


(** The reading of the three sentences about the summarizer.  [Lines]
    says what the lines of a text are: the pieces between its line
    breaks, in order.  A line [no_pattern] is one in which none of the
    three expressions occurs; [first_pattern line s] says that [s] is the
    record of the first of the three expressions, in the order plan,
    apply, destroy, that occurs in [line], with the numbers of its
    leftmost occurrence, each the Number value ([Rounded], below) of
    its decimal notation. *)
Inductive Lines : jsstring -> list jsstring -> Prop :=
| Lines_last l : 10 ∉ l -> Lines l [l]
| Lines_more l rest ls :
    10 ∉ l -> Lines rest ls -> Lines (l ++ 10 :: rest) (l :: ls).

(** The value of a decimal notation, digit by digit from the left. *)
Fixpoint decimal (d : jsstring) : N :=
  match d with
  | [] => 0
  | c :: d' => (c - 48) * 10 ^ N.of_nat (length d') + decimal d'
  end.

(** The Number value of a non-negative integer [n], said without the
    code: among the integers with at most 53 significant bits, the one
    nearest to [n], and of two equally near the one whose significand
    is even; infinity when that integer is 2^1024 or more. *)
Definition representable (m : N) : Prop :=
  exists q e, q < 2 ^ 53 /\ m = q * 2 ^ e.

Definition significand (m : N) : N := m / 2 ^ (N.log2 m - 52).

Definition distance (a b : N) : N := (a - b) + (b - a).

Definition nearest (n m : N) : Prop :=
  representable m /\
  forall m', representable m' -> m' <> m ->
    distance n m < distance n m' \/
    (distance n m = distance n m' /\ N.even (significand m) = true).

Definition Rounded (n : N) (x : JSNumber) : Prop :=
  exists m, nearest n m /\
    ((m < 2 ^ 1024 /\ x = Finite m) \/ (2 ^ 1024 <= m /\ x = Infinity)).

Definition no_pattern (line : jsstring) : Prop :=
  ~ Occurs plan_re line /\ ~ Occurs apply_re line /\ ~ Occurs destroy_re line.

Definition first_pattern (line : jsstring) (s : Summary) : Prop :=
  match s with
  | PlanSummary x y z =>
      exists a b c, Leftmost plan_re line [a; b; c] /\
        Rounded (decimal a) x /\ Rounded (decimal b) y /\ Rounded (decimal c) z
  | ApplySummary x y z =>
      ~ Occurs plan_re line /\
      exists a b c, Leftmost apply_re line [a; b; c] /\
        Rounded (decimal a) x /\ Rounded (decimal b) y /\ Rounded (decimal c) z
  | DestroySummary x =>
      ~ Occurs plan_re line /\ ~ Occurs apply_re line /\
      exists d, Leftmost destroy_re line [d] /\ Rounded (decimal d) x
  end.

(** The number of capture groups of an expression. *)
Definition groups (r : regex) : nat :=
  length (filter (fun a => a = Digits) r).

(** ** The command runner *)

Module Runner.

Inductive Stream : Type := Stdout | Stderr.

(** What a spawned [docker] process lets its listeners see, in the order
    the event loop delivers it.  [Elapsed3s] marks the moment 3000 ms
    after the spawn, where a pending [setTimeout(..., 3000)] fires. *)
Inductive ProcEvent : Type :=
| Data (from : Stream) (chunk : jsstring)
| Close (code : option Z)
| Error (err : jsstring)
| Elapsed3s.

Inductive Behaviour : Type :=
| SpawnThrows (err : jsstring)
| Emits (events : list ProcEvent).

(** The state of a promise once the events are consumed. *)
Inductive Outcome (A : Type) : Type :=
| Resolved (a : A)
| Rejected (err : jsstring)
| Pending.
Arguments Resolved {A} a.
Arguments Rejected {A} err.
Arguments Pending {A}.

Record CommandResult : Type := mkResult {
  exitCode : option Z;
  stdout : jsstring;
  stderr : jsstring;
  combined : jsstring;
  logFileContent : jsstring;
  summary : option Summary
}.

(** [s.replace(re, "\\$1")] where [re] is the global expression whose one
    group is the class of double quote, [\s], single quote, dollar,
    backtick and backslash: a backslash is put before each of them. *)
Definition is_shell_special (c : N) : bool :=
  (c =? 34) || is_space c || (c =? 39) || (c =? 36) || (c =? 96) || (c =? 92).

Fixpoint shell_escape (s : jsstring) : jsstring :=
  match s with
  | [] => []
  | c :: s' =>
      if is_shell_special c then 92 :: c :: shell_escape s'
      else c :: shell_escape s'
  end.

(** [iso.replace(/[-:T.]/g, '').slice(0, 14)] *)
Definition compact_timestamp (iso : jsstring) : jsstring :=
  take 14 (filter (fun c => c ∉ [45; 58; 84; 46]) iso).

(** [l.splice(start, 0, ...items)] : insertion, [start] counted from the
    end when negative. *)
Definition splice_insert {A} (start : Z) (items l : list A) : list A :=
  let len := Z.of_nat (length l) in
  let i := Z.to_nat (if (start <? 0)%Z then Z.max (len + start) 0 else Z.min start len) in
  take i l ++ items ++ drop i l.

Definition wrappedCmd (workspacePath : jsstring) (commands : list jsstring) : jsstring :=
  let safePath := shell_escape workspacePath in
  let fullCmd := join (lit " && ") commands in
  lit "cd " ++ safePath ++ lit " && " ++ fullCmd ++ lit " 2>&1".

(** [logFilePath] : empty unless logging applies. *)
Definition logFilePath (iso workspacePath : jsstring) (enableLogging : bool) : jsstring :=
  if enableLogging && negb (includes_unit 32 workspacePath) then
    let logFileName := lit "tofu_" ++ compact_timestamp iso ++ lit ".log" in
    workspacePath ++ lit "/" ++ logFileName
  else [].

Definition dockerArgs (iso containerId workspacePath : jsstring)
    (commands : list jsstring) (enableLogging : bool) : list jsstring :=
  let args :=
    [lit "exec"; lit "-i"; lit "-e"; lit "TF_IN_AUTOMATION=true"; lit "-e";
     lit "FORCE_COLOR=0"; containerId; lit "bash"; lit "-c";
     wrappedCmd workspacePath commands] in
  if enableLogging && negb (includes_unit 32 workspacePath) then
    splice_insert (-3)
      [lit "-e"; lit "TF_LOG=INFO"; lit "-e";
       lit "TF_LOG_PATH=" ++ logFilePath iso workspacePath enableLogging] args
  else args.

Definition logReadArgs (containerId path : jsstring) : list jsstring :=
  [lit "exec"; lit "-i"; containerId; lit "cat"; shell_escape path].

(** The listeners of the primary process: the two [data] listeners fill
    the buffers, [close] and [error] settle the promise, whichever comes
    first; no timer is armed for this process. *)
Fixpoint listen (events : list ProcEvent) (stdoutBuffer stderrBuffer : jsstring)
  : Outcome (option Z * jsstring * jsstring) :=
  match events with
  | [] => Pending
  | Data Stdout d :: rest => listen rest (stdoutBuffer ++ d) stderrBuffer
  | Data Stderr d :: rest => listen rest stdoutBuffer (stderrBuffer ++ d)
  | Elapsed3s :: rest => listen rest stdoutBuffer stderrBuffer
  | Close code :: _ => Resolved (code, stdoutBuffer, stderrBuffer)
  | Error err :: _ => Rejected err
  end.

(** The variables of the log read-back. *)
Record LogState : Type := mkLog {
  logBuffer : jsstring;
  logContent : jsstring;   (* the variable [logFileContent] *)
  timerArmed : bool;       (* [timeoutId] neither fired nor cleared *)
  killed : bool            (* [logReadProc.kill()] was called *)
}.

Definition log_start : LogState :=
  {| logBuffer := []; logContent := []; timerArmed := true; killed := false |}.

(** The listeners of the read-back process, up to the call of
    [resolveLog]: [Some st] is the state at that call, [None] means it is
    never called.  Only [stdout] has a [data] listener. *)
Fixpoint read_back (events : list ProcEvent) (st : LogState) : option LogState :=
  match events with
  | [] => None
  | Data Stdout d :: rest =>
      read_back rest {| logBuffer := logBuffer st ++ d; logContent := logContent st;
                        timerArmed := timerArmed st; killed := killed st |}
  | Data Stderr _ :: rest => read_back rest st
  | Elapsed3s :: rest =>
      if timerArmed st then
        read_back rest {| logBuffer := logBuffer st; logContent := logContent st;
                          timerArmed := false; killed := true |}
      else read_back rest st
  | Close _ :: _ =>
      Some {| logBuffer := logBuffer st; logContent := logBuffer st;
              timerArmed := false; killed := killed st |}
  | Error _ :: _ =>
      Some {| logBuffer := logBuffer st; logContent := logContent st;
              timerArmed := false; killed := killed st |}
  end.

(** The [try { ... } catch] block of the [close] listener. *)
Definition read_log_file (b : Behaviour) : option LogState :=
  match b with
  | SpawnThrows _ => Some log_start   (* caught: logFileContent stays empty *)
  | Emits events => read_back events log_start
  end.

Section WithProcesses.

(** [spawn("docker", args)] and [new Date().toISOString()]. *)
Variable spawn : list jsstring -> Behaviour.
Variable iso : jsstring.

Definition runCommands (containerId workspacePath : jsstring)
    (commands : list jsstring) (enableLogging : bool) : Outcome CommandResult :=
  let path := logFilePath iso workspacePath enableLogging in
  match spawn (dockerArgs iso containerId workspacePath commands enableLogging) with
  | SpawnThrows err => Rejected err
  | Emits events =>
      match listen events [] [] with
      | Pending => Pending
      | Rejected err => Rejected err
      | Resolved (code, stdoutBuffer, stderrBuffer) =>
          let combined := stdoutBuffer ++ stderrBuffer in
          let finish content :=
            Resolved {| exitCode := code; stdout := stdoutBuffer; stderr := stderrBuffer;
                        combined := combined; logFileContent := content;
                        summary := parseTofuSummary stdoutBuffer |} in
          if enableLogging && truthy path then
            match read_log_file (spawn (logReadArgs containerId path)) with
            | Some st => finish (logContent st)
            | None => Pending
            end
          else finish []
      end
  end.

End WithProcesses.

End Runner.

Import Runner.

(** ** Reading a process trace

    The data a process delivered before its promise settled: per stream,
    and over both streams in the order of arrival. *)

Module Trace.

#[global] Instance Stream_eq_dec : EqDecision Stream.
Proof. solve_decision. Defined.

(** The chunks of stream [s], in the order they arrived. *)
Fixpoint captured (s : Stream) (events : list ProcEvent) : jsstring :=
  match events with
  | Data s' d :: rest => if decide (s' = s) then d ++ captured s rest else captured s rest
  | Elapsed3s :: rest => captured s rest
  | Close _ :: _ | Error _ :: _ | [] => []
  end.

(** The chunks of both streams, in the order they arrived. *)
Fixpoint arrival_order (events : list ProcEvent) : jsstring :=
  match events with
  | Data _ d :: rest => d ++ arrival_order rest
  | Elapsed3s :: rest => arrival_order rest
  | Close _ :: _ | Error _ :: _ | [] => []
  end.

(** Only [data] events. *)
Definition only_data (events : list ProcEvent) : Prop :=
  Forall (fun e => match e with Data _ _ => True | _ => False end) events.

(** The shell string of the claim: [cd], then every command behind an
    [&&], then the redirection. *)
Definition chained (escapedPath : jsstring) (commands : list jsstring) : jsstring :=
  lit "cd " ++ escapedPath ++ mjoin ((fun c => lit " && " ++ c) <$> commands) ++ lit " 2>&1".

(** One character, with a backslash before it when it is in the set. *)
Definition escaped_char (c : N) : jsstring :=
  if decide (c = 34 \/ is_space c = true \/ c = 39 \/ c = 36 \/ c = 96 \/ c = 92)
  then [92; c] else [c].

End Trace.

Import Trace.

(** ** The deployment collection *)

Module Ledger.

Inductive StepKind : Type := Init | Plan | Apply | Destroy.
Inductive StepStatus : Type := Successful | Failed | Cancelled.

#[global] Instance StepKind_eq_dec : EqDecision StepKind.
Proof. solve_decision. Defined.
#[global] Instance StepStatus_eq_dec : EqDecision StepStatus.
Proof. solve_decision. Defined.

(** An element of [steps].  [timestamp] is [None] on a step as the
    handlers write it: they give no timestamp, and the schema that may
    supply one is not part of the sources. *)
Record Step : Type := mkStep {
  step : StepKind;
  stepStatus : StepStatus;
  message : jsstring;
  stepLogFileContent : jsstring;
  timestamp : option N
}.

Record Deployment : Type := mkDeployment {
  deploymentId : jsstring;
  projectId : jsstring;
  spaceId : jsstring;
  deploymentName : jsstring;
  steps : list Step;
  startedAt : N
}.

(** The collection, in document order. *)
Abbreviation Collection := (list Deployment).

(** The filter [{ deploymentId }]. *)
Definition has_id (id : jsstring) (d : Deployment) : Prop := deploymentId d = id.

(** The filter [{ deploymentId, 'steps.step': k }] : the document has the
    id and some element of [steps] is of kind [k]. *)
Definition has_id_and_step (id : jsstring) (k : StepKind) (d : Deployment) : Prop :=
  deploymentId d = id /\ Exists (fun s => step s = k) (steps d).

#[global] Instance has_id_dec id d : Decision (has_id id d).
Proof. unfold has_id. apply _. Defined.
#[global] Instance has_id_and_step_dec id k d : Decision (has_id_and_step id k d).
Proof. unfold has_id_and_step. apply _. Defined.

(** [Deployment.findOne(filter)] : the first document that matches. *)
Definition findOne (P : Deployment -> Prop) `{forall d, Decision (P d)}
    (L : Collection) : option Deployment :=
  snd <$> list_find P L.

(** [Deployment.updateOne(filter, update)] : the update is applied to the
    first document that matches; the result carries [matchedCount]. *)
Definition updateOne (P : Deployment -> Prop) `{forall d, Decision (P d)}
    (update : Deployment -> Deployment) (L : Collection) : nat * Collection :=
  match list_find P L with
  | Some (i, d) => (1%nat, <[i := update d]> L)
  | None => (0%nat, L)
  end.

(** [Deployment.create(doc)]. *)
Definition create (doc : Deployment) (L : Collection) : Collection := L ++ [doc].

Definition with_steps (d : Deployment) (ss : list Step) : Deployment :=
  {| deploymentId := deploymentId d; projectId := projectId d; spaceId := spaceId d;
     deploymentName := deploymentName d; steps := ss; startedAt := startedAt d |}.

(** [{ $pull: { steps: { step: k } } }] : every element of kind [k] goes. *)
Definition pull_steps (k : StepKind) (d : Deployment) : Deployment :=
  with_steps d (filter (fun s => step s <> k) (steps d)).

(** [{ $push: { steps: s } }]. *)
Definition push_step (s : Step) (d : Deployment) : Deployment :=
  with_steps d (steps d ++ [s]).

(** [{ $set: { 'steps.$.stepStatus': st, 'steps.$.timestamp': t } }] under
    the filter ['steps.step': k] : the positional operator stands for the
    first element of [steps] that satisfies the filter. *)
Definition set_positional (k : StepKind) (st : StepStatus) (t : N) (d : Deployment)
  : Deployment :=
  match list_find (fun s => step s = k) (steps d) with
  | Some (j, s) =>
      with_steps d
        (<[j := {| step := step s; stepStatus := st; message := message s;
                   stepLogFileContent := stepLogFileContent s; timestamp := Some t |}]>
           (steps d))
  | None => d
  end.

(** An exception thrown by the repository layer. *)
Inductive Exn : Type :=
| NotFound (msg : jsstring)
| Failure (msg : jsstring).

Definition exn_message (e : Exn) : jsstring :=
  match e with NotFound m | Failure m => m end.

(** Modelled from the spec: [addDeploymentStep] of
    [repositories/deployment.reposiory], which is not among the sources.
    It fails with NotFound if the deployment is unknown; otherwise it
    appends the new step to the sequence, unconditionally.  The text of
    the error is not given. *)
Definition addDeploymentStep (id : jsstring) (s : Step) (L : Collection)
  : Collection + Exn :=
  match updateOne (has_id id) (push_step s) L with
  | (O, _) => inr (NotFound (lit "Deployment not found"))
  | (_, L') => inl L'
  end.

End Ledger.

Import Ledger.

(** ** The request handlers *)

Module Handlers.

(** The value handed to [res.json]. *)
#[warnings="-register-all"]
Inductive Json : Type :=
| JNull
| JBool (b : bool)
| JNum (n : Z)
| JStr (s : jsstring)
| JObj (fields : list (string * Json)).

Record Response : Type := mkResponse { status : N; body : Json }.

(** What a handler leaves behind: the response it sent and the
    collection, or nothing when the awaited runner never settles. *)
Inductive Reply : Type :=
| Replied (r : Response) (L : Collection)
| NoReply.

Record Project : Type := mkProject { p_projectId : jsstring; projectName : jsstring }.

(** [req.params] and [req.body]; a field that is not sent is [None].
    The requests covered are those whose body is an object and whose
    fields, when sent, are strings: a request without a body, or with a
    field of another type, is not among them. *)
Record Request : Type := mkRequest {
  params_projectId : jsstring;
  body_spaceName : option jsstring;
  body_deploymentId : option jsstring
}.

(** Everything a handler reads from outside the deployment collection. *)
Record World : Type := mkWorld {
  projects : list Project;
  DOCKER_IMAGE_NAME : option jsstring;
  getContainerIdsByImage : jsstring -> list jsstring;
  generateDeploymentIdentifiers : jsstring -> jsstring -> jsstring * jsstring;
  spawn : list jsstring -> Behaviour;
  isoNow : jsstring;   (* new Date().toISOString() *)
  now : N              (* new Date() *)
}.

(** [!x] is false: the field is there and is not the empty string. *)
Definition present (x : option jsstring) : bool :=
  match x with Some s => truthy s | None => false end.

Definition value (x : option jsstring) : jsstring :=
  match x with Some s => s | None => [] end.

(** [Project.findOne({ projectId })]. *)
Definition findProject (id : jsstring) (ps : list Project) : option Project :=
  snd <$> list_find (fun p => p_projectId p = id) ps.

(** Assignment to a property: in place when the key exists, at the end
    otherwise. *)
Fixpoint obj_set (k : string) (v : Json) (o : list (string * Json))
  : list (string * Json) :=
  match o with
  | [] => [(k, v)]
  | (k', v') :: o' => if decide (k' = k) then (k, v) :: o' else (k', v') :: obj_set k v o'
  end.

(** [{ ...o, ...src }]. *)
Definition spread (o src : list (string * Json)) : list (string * Json) :=
  fold_left (fun acc kv => obj_set kv.1 kv.2 acc) src o.

(** A number in a body: [JSON.stringify] writes [null] for infinity. *)
Definition number_json (x : JSNumber) : Json :=
  match x with
  | Finite n => JNum (Z.of_N n)
  | Infinity => JNull
  end.

Definition summary_json (s : option Summary) : Json :=
  match s with
  | None => JNull
  | Some (PlanSummary a b c) =>
      JObj [("toAdd", number_json a); ("toChange", number_json b);
            ("toDestroy", number_json c)]
  | Some (ApplySummary a b c) =>
      JObj [("added", number_json a); ("changed", number_json b);
            ("destroyed", number_json c)]
  | Some (DestroySummary d) => JObj [("destroyed", number_json d)]
  end.

(** The own properties of a [CommandResult], in the order [runCommands]
    writes them. *)
Definition result_fields (r : CommandResult) : list (string * Json) :=
  [("exitCode", match exitCode r with Some z => JNum z | None => JNull end);
   ("stdout", JStr (stdout r)); ("stderr", JStr (stderr r));
   ("combined", JStr (combined r)); ("logFileContent", JStr (logFileContent r));
   ("summary", summary_json (summary r))].

(** [res.status(code).json({ error })] and [res.json(o)]. *)
Definition fail (code : N) (msg : jsstring) : Response :=
  {| status := code; body := JObj [("error", JStr msg)] |}.

Definition ok (o : list (string * Json)) : Response :=
  {| status := 200; body := JObj o |}.

(** [/workspace/${project.projectName}/${spaceName}] *)
Definition workspaceOf (project : Project) (spaceName : jsstring) : jsstring :=
  lit "/workspace/" ++ projectName project ++ lit "/" ++ spaceName.

(** The element pushed to [steps] for a result. *)
Definition step_of (k : StepKind) (code : option Z) (msg log : jsstring) : Step :=
  {| step := k;
     stepStatus := if decide (code = Some 0%Z) then Successful else Failed;
     message := msg; stepLogFileContent := log; timestamp := None |}.

(** The handlers.  The awaited calls on the collection are taken to
    return: a call that throws (a lost connection, a failed validation)
    ends in the [catch] of the handler, which answers 500, and is not
    among the runs covered here. *)
Definition tofuInit (w : World) (req : Request) (L : Collection) : Reply :=
  let projectId := params_projectId req in
  if negb (present (body_spaceName req)) then
    Replied (fail 400 (lit "spaceName is required")) L
  else
  let spaceName := value (body_spaceName req) in
  match findProject projectId (projects w) with
  | None => Replied (fail 404 (lit "Project not found")) L
  | Some project =>
  if negb (present (DOCKER_IMAGE_NAME w)) then
    Replied (fail 500 (lit "DOCKER_IMAGE_NAME environment variable is not set")) L
  else
  match getContainerIdsByImage w (value (DOCKER_IMAGE_NAME w)) with
  | [] => Replied (fail 500 (lit "No containers found for the image")) L
  | containerId :: _ =>
  let workspacePath := workspaceOf project spaceName in
  match runCommands (spawn w) (isoNow w) containerId workspacePath
          [lit "tofu init -input=false -no-color"] false with
  | Pending => NoReply
  | Rejected err => Replied (fail 500 err) L
  | Resolved result =>
      let initStep :=
        step_of Init (exitCode result)
          (or_else (combined result) (or_else (stdout result) (stderr result)))
          (logFileContent result) in
      let respond finalDeploymentId name :=
        ok (spread [("command", JStr (lit "tofu init"));
                    ("deploymentId", JStr finalDeploymentId);
                    ("deploymentName", JStr name);
                    ("logFileContent", JStr (logFileContent result))]
                   (result_fields result)) in
      if present (body_deploymentId req) then
        let id := value (body_deploymentId req) in
        match findOne (has_id id) L with
        | None => Replied (fail 404 (lit "Deployment not found")) L
        | Some existing =>
            let L1 := (updateOne (has_id id) (pull_steps Init) L).2 in
            let L2 := (updateOne (has_id id) (push_step initStep) L1).2 in
            Replied (respond id (deploymentName existing)) L2
        end
      else
        let identifiers :=
          generateDeploymentIdentifiers w (projectName project) spaceName in
        let doc :=
          {| deploymentId := identifiers.1; projectId := projectId;
             spaceId := spaceName; deploymentName := identifiers.2;
             steps := [initStep]; startedAt := now w |} in
        Replied (respond identifiers.1 identifiers.2) (create doc L)
  end end end.

Section WithRepository.

(** [DeploymentRepository.addDeploymentStep] : the handlers below only
    await it, and an exception it throws reaches their [catch]. *)
Variable addStep : jsstring -> Step -> Collection -> Collection + Exn.

Definition tofuPlan (w : World) (req : Request) (L : Collection) : Reply :=
  if negb (present (body_spaceName req)) then
    Replied (fail 400 (lit "spaceName is required")) L
  else if negb (present (body_deploymentId req)) then
    Replied (fail 400 (lit "deploymentId is required")) L
  else
  let spaceName := value (body_spaceName req) in
  let id := value (body_deploymentId req) in
  match findProject (params_projectId req) (projects w) with
  | None => Replied (fail 404 (lit "Project not found")) L
  | Some project =>
  if negb (present (DOCKER_IMAGE_NAME w)) then
    Replied (fail 500 (lit "DOCKER_IMAGE_NAME environment variable is not set")) L
  else
  match getContainerIdsByImage w (value (DOCKER_IMAGE_NAME w)) with
  | [] => Replied (fail 500 (lit "No containers found for the image")) L
  | containerId :: _ =>
  match runCommands (spawn w) (isoNow w) containerId (workspaceOf project spaceName)
          [lit "tofu plan -input=false -no-color"] false with
  | Pending => NoReply
  | Rejected err => Replied (fail 500 err) L
  | Resolved humanReadablePlan =>
      match addStep id
              (step_of Plan (exitCode humanReadablePlan)
                 (or_else (combined humanReadablePlan)
                    (or_else (stdout humanReadablePlan) (stderr humanReadablePlan)))
                 (logFileContent humanReadablePlan)) L with
      | inr e => Replied (fail 500 (exn_message e)) L
      | inl L' =>
          Replied
            (ok [("stepName", JStr (lit "Plan"));
                 ("humanReadable",
                  JObj [("raw", JStr (stdout humanReadablePlan));
                        ("summary",
                         summary_json (parseTofuSummary (stdout humanReadablePlan)))]);
                 ("exitCode",
                  match exitCode humanReadablePlan with
                  | Some z => JNum z | None => JNull end);
                 ("stderr", JStr (stderr humanReadablePlan));
                 ("logFileContent", JStr (logFileContent humanReadablePlan));
                 ("rawFormat", JStr (stdout humanReadablePlan))]) L'
      end
  end end end.

Definition tofuApply (w : World) (req : Request) (L : Collection) : Reply :=
  if negb (present (body_spaceName req)) then
    Replied (fail 400 (lit "spaceName is required")) L
  else if negb (present (body_deploymentId req)) then
    Replied (fail 400 (lit "deploymentId is required")) L
  else
  let spaceName := value (body_spaceName req) in
  let id := value (body_deploymentId req) in
  match findProject (params_projectId req) (projects w) with
  | None => Replied (fail 404 (lit "Project not found")) L
  | Some project =>
  if negb (present (DOCKER_IMAGE_NAME w)) then
    Replied (fail 500 (lit "DOCKER_IMAGE_NAME environment variable is not set")) L
  else
  match getContainerIdsByImage w (value (DOCKER_IMAGE_NAME w)) with
  | [] => Replied (fail 500 (lit "No containers found for the image")) L
  | containerId :: _ =>
  match runCommands (spawn w) (isoNow w) containerId (workspaceOf project spaceName)
          [lit "tofu apply -auto-approve -input=false -no-color"] false with
  | Pending => NoReply
  | Rejected err => Replied (fail 500 err) L
  | Resolved result =>
      match addStep id
              (step_of Apply (exitCode result)
                 (or_else (stdout result) (stderr result))
                 (logFileContent result)) L with
      | inr e => Replied (fail 500 (exn_message e)) L
      | inl L' =>
          Replied
            (ok (spread [("command", JStr (lit "tofu apply"));
                         ("deploymentId", JStr id);
                         ("logFileContent", JStr (logFileContent result))]
                        (result_fields result))) L'
      end
  end end end.

Definition tofuDestroy (w : World) (req : Request) (L : Collection) : Reply :=
  if negb (present (body_spaceName req)) then
    Replied (fail 400 (lit "spaceName is required")) L
  else if negb (present (body_deploymentId req)) then
    Replied (fail 400 (lit "deploymentId is required")) L
  else
  let spaceName := value (body_spaceName req) in
  let id := value (body_deploymentId req) in
  match findProject (params_projectId req) (projects w) with
  | None => Replied (fail 404 (lit "Project not found")) L
  | Some project =>
  if negb (present (DOCKER_IMAGE_NAME w)) then
    Replied (fail 500 (lit "DOCKER_IMAGE_NAME environment variable is not set")) L
  else
  match getContainerIdsByImage w (value (DOCKER_IMAGE_NAME w)) with
  | [] => Replied (fail 500 (lit "No containers found for the image")) L
  | containerId :: _ =>
  match runCommands (spawn w) (isoNow w) containerId (workspaceOf project spaceName)
          [lit "tofu destroy -auto-approve -input=false -no-color"] false with
  | Pending => NoReply
  | Rejected err => Replied (fail 500 err) L
  | Resolved result =>
      match addStep id
              (step_of Destroy (exitCode result)
                 (or_else (combined result) (or_else (stdout result) (stderr result)))
                 (logFileContent result)) L with
      | inr e => Replied (fail 500 (exn_message e)) L
      | inl L' =>
          Replied
            (ok (spread [("command", JStr (lit "tofu destroy"));
                         ("deploymentId", JStr id);
                         ("logFileContent", JStr (logFileContent result))]
                        (result_fields result))) L'
      end
  end end end.

End WithRepository.

Definition tofuPlanDeny (w : World) (req : Request) (L : Collection) : Reply :=
  if negb (present (body_deploymentId req)) then
    Replied (fail 400 (lit "deploymentId is required")) L
  else
  let id := value (body_deploymentId req) in
  match findProject (params_projectId req) (projects w) with
  | None => Replied (fail 404 (lit "Project not found")) L
  | Some project =>
      let updateResult :=
        updateOne (has_id_and_step id Plan) (set_positional Plan Cancelled (now w)) L in
      match updateResult.1 with
      | O => Replied (fail 404 (lit "Plan step not found for deployment")) updateResult.2
      | _ =>
          Replied
            (ok [("success", JBool true);
                 ("message", JStr (lit "Plan Step Cancelled by User"));
                 ("deploymentId", JStr id)]) updateResult.2
      end
  end.

(** The keys of a response body, in property order. *)
Definition keys (j : Json) : list string :=
  match j with
  | JObj fields => fields.*1
  | _ => []
  end.

(** The value of a property of a response body. *)
Definition field (k : string) (j : Json) : option Json :=
  match j with
  | JObj fields =>
      match list_find (fun kv : string * Json => kv.1 = k) fields with
      | Some (_, (_, v)) => Some v
      | None => None
      end
  | _ => None
  end.

End Handlers.

Import Handlers.

(** ** Vocabulary of the statements about the handlers *)

Module Spec.

(** The request passes the checks that come before the ledger is
    touched, and the runner resolves with [result]: the space name is
    sent, the project exists, the image name is configured, a container
    runs the image, and the command chain [cmd] closes. *)
Definition runs (w : World) (req : Request) (cmd : jsstring) (result : CommandResult)
  : Prop :=
  exists project containerId,
    present (body_spaceName req) = true /\
    findProject (params_projectId req) (projects w) = Some project /\
    present (DOCKER_IMAGE_NAME w) = true /\
    head (getContainerIdsByImage w (value (DOCKER_IMAGE_NAME w))) = Some containerId /\
    runCommands (spawn w) (isoNow w) containerId
      (workspaceOf project (value (body_spaceName req))) [cmd] false = Resolved result.

(** The step that [tofuInit], [tofuPlan] and [tofuDestroy] derive from a
    result. *)
Definition step_from (k : StepKind) (r : CommandResult) : Step :=
  step_of k (exitCode r) (or_else (combined r) (or_else (stdout r) (stderr r)))
    (logFileContent r).

(** The step that [tofuApply] derives from a result. *)
Definition apply_step_from (r : CommandResult) : Step :=
  step_of Apply (exitCode r) (or_else (stdout r) (stderr r)) (logFileContent r).

(** No [close] and no [error] among the events. *)
Definition unsettled (events : list ProcEvent) : Prop :=
  Forall (fun e => match e with Close _ | Error _ => False | _ => True end) events.

(** The step an outcome must leave, written out: the kind, the status
    by the exit code, the captured stdout followed by the captured
    stderr as message, no log, and no timestamp of the handler's own. *)
Definition outcome_step (k : StepKind) (r : CommandResult) : Step :=
  {| step := k;
     stepStatus := match exitCode r with Some 0%Z => Successful | _ => Failed end;
     message := stdout r ++ stderr r;
     stepLogFileContent := [];
     timestamp := None |}.

(** The same for an apply, whose message is the captured stdout, or the
    captured stderr when stdout is empty. *)
Definition apply_outcome_step (r : CommandResult) : Step :=
  {| step := Apply;
     stepStatus := match exitCode r with Some 0%Z => Successful | _ => Failed end;
     message := match stdout r with [] => stderr r | _ :: _ => stdout r end;
     stepLogFileContent := [];
     timestamp := None |}.

(** The step after cancellation at time [t]. *)
Definition cancelled_at (t : N) (s : Step) : Step :=
  {| step := step s; stepStatus := Cancelled; message := message s;
     stepLogFileContent := stepLogFileContent s; timestamp := Some t |}.

(** [addDeploymentStep] called once for each step of [ss], in order. *)
Fixpoint addSteps (id : jsstring) (ss : list Step) (L : Collection) : Collection + Exn :=
  match ss with
  | [] => inl L
  | s :: rest =>
      match addDeploymentStep id s L with
      | inl L' => addSteps id rest L'
      | inr e => inr e
      end
  end.

(** The deployment that an operation on [id] addresses: the first
    document of the collection that carries the id, at position [i];
    and a collection in which no document carries it. *)
Definition first_with_id (id : jsstring) (L : Collection) (i : nat) (d : Deployment)
  : Prop :=
  L !! i = Some d /\ deploymentId d = id /\
  forall j d', L !! j = Some d' -> deploymentId d' = id -> (i <= j)%nat.

Definition unknown_id (id : jsstring) (L : Collection) : Prop :=
  Forall (fun d => deploymentId d <> id) L.

(** The documents other than the one at position [i] are those of [L]. *)
Definition others_kept (i : nat) (L L' : Collection) : Prop :=
  length L' = length L /\ forall k, k <> i -> L' !! k = L !! k.

(** Everything of a document but its steps. *)
Definition same_header (d d' : Deployment) : Prop :=
  deploymentId d' = deploymentId d /\ projectId d' = projectId d /\
  spaceId d' = spaceId d /\ deploymentName d' = deploymentName d /\
  startedAt d' = startedAt d.

(** The shape of the claim for a step endpoint: the eight keys, and
    [deploymentName] or not. *)
Definition step_keys : list string :=
  ["command"; "deploymentId"; "exitCode"; "stdout"; "stderr"; "combined";
   "logFileContent"; "summary"]%string.

Definition step_shape (j : Json) : Prop :=
  keys j ≡ₚ step_keys \/ keys j ≡ₚ ("deploymentName"%string :: step_keys).

Definition cancel_shape (j : Json) : Prop :=
  keys j ≡ₚ ["success"; "message"; "deploymentId"]%string.

(** The shapes of the answers as the handlers give them: the nine keys
    for an init, the eight without [deploymentName] for an apply or a
    destroy, and for a plan its own six keys, [humanReadable] being an
    object with the keys [raw] and [summary]. *)
Definition init_shape (j : Json) : Prop :=
  keys j ≡ₚ ["command"; "deploymentId"; "deploymentName"; "exitCode"; "stdout";
             "stderr"; "combined"; "logFileContent"; "summary"]%string.

Definition run_shape (j : Json) : Prop :=
  keys j ≡ₚ ["command"; "deploymentId"; "exitCode"; "stdout"; "stderr"; "combined";
             "logFileContent"; "summary"]%string.

Definition plan_shape (j : Json) : Prop :=
  keys j ≡ₚ ["stepName"; "humanReadable"; "exitCode"; "stderr"; "logFileContent";
             "rawFormat"]%string /\
  exists h, field "humanReadable" j = Some h /\ keys h ≡ₚ ["raw"; "summary"]%string.

End Spec.

Import Spec.

(** ** A small installation, for the examples *)

Module Demo.

Definition shop : Project := {| p_projectId := lit "p1"; projectName := lit "shop" |}.

(** A world in which every spawned process behaves as [events]. *)
Definition world (events : list ProcEvent) : World :=
  {| projects := [shop];
     DOCKER_IMAGE_NAME := Some (lit "bagel-server");
     getContainerIdsByImage := fun _ => [lit "c0ffee"];
     generateDeploymentIdentifiers := fun _ _ => (lit "dep-2", lit "shop-dev-2");
     spawn := fun _ => Emits events;
     isoNow := lit "2025-01-02T03:04:05.678Z";
     now := 1735787045678 |}.

Definition request : Request :=
  {| params_projectId := lit "p1"; body_spaceName := Some (lit "dev");
     body_deploymentId := Some (lit "dep-1") |}.

Definition old_init : Step :=
  {| step := Init; stepStatus := Failed; message := lit "Error: no backend";
     stepLogFileContent := []; timestamp := Some 1735780000000 |}.

Definition plan1 : Step :=
  {| step := Plan; stepStatus := Successful;
     message := lit "Plan: 1 to add, 0 to change, 0 to destroy";
     stepLogFileContent := []; timestamp := Some 1735781000000 |}.

Definition plan2 : Step :=
  {| step := Plan; stepStatus := Failed; message := lit "Error: invalid reference";
     stepLogFileContent := []; timestamp := Some 1735782000000 |}.

Definition dep1 : Deployment :=
  {| deploymentId := lit "dep-1"; projectId := lit "p1"; spaceId := lit "dev";
     deploymentName := lit "shop-dev-1"; steps := [old_init; plan1; plan2];
     startedAt := 1735780000000 |}.

Definition ledger : Collection := [dep1].

(** The command chain prints and exits with [code]. *)
Definition exits (code : Z) : list ProcEvent :=
  [Data Stdout (lit "Initializing the backend..."); Data Stderr (lit "Warning: slow");
   Close (Some code)].

(** A run with logging: the chain succeeds; the read-back, recognised by
    its five arguments, delivers a part of the file, is still running
    after three seconds, and closes once killed. *)
Definition slow_log_spawn (args : list jsstring) : Behaviour :=
  match args with
  | [_; _; _; _; _] => Emits [Data Stdout (lit "2025 [INFO] start"); Elapsed3s; Close None]
  | _ => Emits (exits 0)
  end.

End Demo.

(** ** The plan extractor

    [parsePlanSummaryFromText] and what it needs: [trim], [startsWith],
    [includes], and regular expressions with arbitrary character classes
    (one of plus, tilde, minus; anything but a double quote), matched by the same backtracking scheme as in
    [Regex] ([match_lit] and [match_plus] are shared). *)

Module PlanText.

(** [s.trimStart()], [s.trimEnd()], [s.trim()] : the characters removed
    are those of [\s]. *)
Fixpoint trimStart (s : jsstring) : jsstring :=
  match s with
  | c :: s' => if is_space c then trimStart s' else s
  | [] => []
  end.

Definition trimEnd (s : jsstring) : jsstring := reverse (trimStart (reverse s)).

Definition trim (s : jsstring) : jsstring := trimEnd (trimStart s).

(** [s.startsWith(c)] for a single code unit [c]. *)
Definition startsWith (c : N) (s : jsstring) : bool :=
  match s with
  | c' :: _ => c' =? c
  | [] => false
  end.

(** [s.includes(needle)] : the needle is tried at every position. *)
Fixpoint includes (needle s : jsstring) : bool :=
  match match_lit needle s with
  | Some _ => true
  | None =>
      match s with
      | [] => false
      | _ :: s' => includes needle s'
      end
  end.

Inductive catom : Type :=
| CLit (l : jsstring)                          (* literal text *)
| COne (cls : N -> bool)                       (* one character of a class *)
| CPlus (cls : N -> bool) (captured : bool).   (* cls+ or (cls+) *)

(** Match [r] at the front of [s], as [Regex.match_here] does. *)
Fixpoint cmatch_here (r : list catom) (s : jsstring) (caps : list jsstring)
  : option (list jsstring) :=
  match r with
  | [] => Some caps
  | CLit l :: r' =>
      match match_lit l s with
      | Some s' => cmatch_here r' s' caps
      | None => None
      end
  | COne cls :: r' =>
      match s with
      | c :: s' => if cls c then cmatch_here r' s' caps else None
      | [] => None
      end
  | CPlus cls captured :: r' =>
      match_plus cls
        (fun w rest => cmatch_here r' rest (if captured then caps ++ [w] else caps)) [] s
  end.

(** [s.match(r)] for an expression without [^]. *)
Fixpoint csearch (r : list catom) (s : jsstring) : option (list jsstring) :=
  match cmatch_here r s [] with
  | Some caps => Some caps
  | None =>
      match s with
      | [] => None
      | _ :: s' => csearch r s'
      end
  end.

(** The class of plus, tilde and minus, and the class of everything but
    the double quote. *)
Definition is_marker (c : N) : bool := (c =? 43) || (c =? 126) || (c =? 45).
Definition not_quote (c : N) : bool := negb (c =? 34).

(** [/^[+~-]\s+resource\s+/] : the anchor makes it a match at the front. *)
Definition marker_re : list catom :=
  [COne is_marker; CPlus is_space false; CLit (lit "resource"); CPlus is_space false].

(** The expression that reads [resource], [\s+], then twice a quoted
    group of one or more characters other than the double quote, the two
    separated by [\s+]. *)
Definition resource_re : list catom :=
  [CLit (lit "resource"); CPlus is_space false; CLit [34]; CPlus not_quote true;
   CLit [34]; CPlus is_space false; CLit [34]; CPlus not_quote true; CLit [34]].

Inductive Action : Type := Create | Update | Delete.

(** An element of [resourceChanges]. *)
Record ResourceChange : Type := mkChange {
  action : Action;
  type : jsstring;
  name : jsstring
}.

(** The object [summary.changes]. *)
Record Tally : Type := mkTally { add : JSNumber; change : JSNumber; destroy : JSNumber }.

(** The object returned: a property that is not set is [None], and
    [no_changes], which is either [true] or not set, is a boolean. *)
Record PlanSummaryText : Type := mkPlanText {
  changes : option Tally;
  resource_changes : option (list ResourceChange);
  no_changes : bool
}.

(** The body of the loop, on the trimmed line. *)
Definition resource_change_of (line : jsstring) : option ResourceChange :=
  match cmatch_here marker_re line [] with
  | Some _ =>
      let action :=
        if startsWith 43 line then Create
        else if startsWith 126 line then Update else Delete in
      match csearch resource_re line with
      | Some [ty; nm] => Some {| action := action; type := ty; name := nm |}
      | _ => None
      end
  | None => None
  end.

Definition parsePlanSummaryFromText (planText : jsstring) : PlanSummaryText :=
  let resourceChanges :=
    omap (fun l => resource_change_of (trim l)) (split_on 10 planText) in
  {| changes :=
       match search plan_re planText with
       | Some [a; b; c] =>
           Some {| add := parseInt10 a; change := parseInt10 b; destroy := parseInt10 c |}
       | _ => None
       end;
     resource_changes :=
       match resourceChanges with
       | [] => None
       | _ :: _ => Some resourceChanges
       end;
     no_changes := includes (lit "No changes") planText |}.

(** The reading of an expression with classes, as [Regex.Matches]. *)
Inductive CMatches : list catom -> jsstring -> list jsstring -> Prop :=
| CM_end : CMatches [] [] []
| CM_lit l r m caps :
    CMatches r m caps -> CMatches (CLit l :: r) (l ++ m) caps
| CM_one cls c r m caps :
    cls c = true -> CMatches r m caps -> CMatches (COne cls :: r) (c :: m) caps
| CM_plus cls captured w r m caps :
    w <> [] -> Forall (fun c => cls c = true) w -> CMatches r m caps ->
    CMatches (CPlus cls captured :: r) (w ++ m) (if captured then w :: caps else caps).

(** Every [+] is followed by a literal that starts outside its class. *)
Fixpoint lit_separated (r : list catom) : bool :=
  match r with
  | [] => true
  | CPlus cls _ :: r' =>
      match r' with
      | CLit (c :: _) :: _ => negb (cls c)
      | _ => false
      end && lit_separated r'
  | _ :: r' => lit_separated r'
  end.

(** The action a change marker stands for. *)
Definition action_of (marker : N) : Action :=
  if marker =? 43 then Create else if marker =? 126 then Update else Delete.

(** Occurrences, as for [Regex]. *)
Definition COccursAt (r : list catom) (line pre : jsstring) (caps : list jsstring) : Prop :=
  exists m suf, line = pre ++ m ++ suf /\ CMatches r m caps.

Definition CLeftmost (r : list catom) (line : jsstring) (caps : list jsstring) : Prop :=
  exists pre, COccursAt r line pre caps /\
    forall pre' caps', COccursAt r line pre' caps' -> (length pre <= length pre')%nat.

(** A non-empty run of white space; a non-empty run of digits; a
    non-empty run without double quote. *)
Definition blank (w : jsstring) : Prop := w <> [] /\ Forall (fun c => is_space c = true) w.
Definition number (d : jsstring) : Prop := d <> [] /\ Forall (fun c => is_digit c = true) d.
Definition quotable (x : jsstring) : Prop := x <> [] /\ 34 ∉ x.

(** A tally as the tool prints it, with any white space between the
    words. *)
Definition plan_tally (w1 a w2 w3 b w4 w5 c w6 : jsstring) : jsstring :=
  lit "Plan:" ++ w1 ++ a ++ w2 ++ lit "to add," ++ w3 ++ b ++ w4 ++ lit "to change,"
  ++ w5 ++ c ++ w6 ++ lit "to destroy".

(** A resource line: change marker, the keyword, the quoted type and the
    quoted name. *)
Definition resource_line (marker : N) (w1 w2 ty w3 nm : jsstring) : jsstring :=
  marker :: w1 ++ lit "resource" ++ w2 ++ [34] ++ ty ++ [34] ++ w3 ++ [34] ++ nm ++ [34].

(** What an entry of [resource_changes] says about the trimmed line it
    comes from: the line starts with a change marker, white space and the
    keyword; the action is the one of the marker; and the type and the
    name are the two quoted groups of an occurrence of the keyword
    followed by them. *)
Definition listed_from (line : jsstring) (rc : ResourceChange) : Prop :=
  (exists m w1 tail,
     line = m :: w1 ++ lit "resource" ++ tail /\ is_marker m = true /\ blank w1 /\
     action rc = action_of m) /\
  (exists pre w2 w3 suf,
     line = pre ++ lit "resource" ++ w2 ++ [34] ++ type rc ++ [34] ++ w3 ++ [34]
            ++ name rc ++ [34] ++ suf /\
     blank w2 /\ blank w3) /\
  quotable (type rc) /\ quotable (name rc).

(** [sub] occurs in [s]. *)
Definition substring (sub s : jsstring) : Prop :=
  exists pre suf, s = pre ++ sub ++ suf.

End PlanText.

Import PlanText.

(** ** Vocabulary of the further statements *)

Module More.

(** The form of [toISOString()] : [YYYY-MM-DDTHH:mm:ss.sssZ]. *)
Definition iso_string (y mo d h mi s ms : jsstring) : jsstring :=
  y ++ lit "-" ++ mo ++ lit "-" ++ d ++ lit "T" ++ h ++ lit ":" ++ mi ++ lit ":" ++ s
  ++ lit "." ++ ms ++ lit "Z".

Definition digits (n : nat) (d : jsstring) : Prop :=
  length d = n /\ Forall (fun c => is_digit c = true) d.

(** The arguments that every invocation starts with, and those that
    logging adds. *)
Definition forced_args (containerId : jsstring) : list jsstring :=
  [lit "exec"; lit "-i"; lit "-e"; lit "TF_IN_AUTOMATION=true"; lit "-e";
   lit "FORCE_COLOR=0"; containerId].

Definition logging_args (iso workspacePath : jsstring) : list jsstring :=
  [lit "-e"; lit "TF_LOG=INFO"; lit "-e";
   lit "TF_LOG_PATH=" ++ workspacePath ++ lit "/tofu_" ++ compact_timestamp iso
   ++ lit ".log"].

(** The request passes the checks that come before the runner, and the
    runner ends as [outcome]. *)
Definition reaches (w : World) (req : Request) (cmd : jsstring)
    (outcome : Outcome CommandResult) : Prop :=
  exists project containerId,
    present (body_spaceName req) = true /\
    findProject (params_projectId req) (projects w) = Some project /\
    present (DOCKER_IMAGE_NAME w) = true /\
    head (getContainerIdsByImage w (value (DOCKER_IMAGE_NAME w))) = Some containerId /\
    runCommands (spawn w) (isoNow w) containerId
      (workspaceOf project (value (body_spaceName req))) [cmd] false = outcome.

(** Everything in a document but the status and the timestamp of its
    steps. *)
Definition skeleton (d : Deployment)
  : jsstring * jsstring * jsstring * jsstring * N
    * list (StepKind * jsstring * jsstring) :=
  (deploymentId d, projectId d, spaceId d, deploymentName d, startedAt d,
   (fun s => (step s, message s, stepLogFileContent s)) <$> steps d).

(** The steps of a document that are not init steps, and the number of
    those that are. *)
Definition history (d : Deployment) : list Step :=
  filter (fun s => step s <> Init) (steps d).

Definition init_count (d : Deployment) : nat :=
  length (filter (fun s => step s = Init) (steps d)).

End More.

Import More.

(** ** More of the small installation *)

Module Samples.

(** A run with logging in which the read-back, recognised by its five
    arguments, delivers the file in two chunks and closes at once. *)
Definition quick_log_spawn (args : list jsstring) : Behaviour :=
  match args with
  | [_; _; _; _; _] =>
      Emits [Data Stdout (lit "line 1"); Data Stdout (lit "line 2"); Close (Some 0%Z);
             Elapsed3s]
  | _ => Emits (Demo.exits 0)
  end.

End Samples.

(** * Properties *)

(** ** The regular-expression matcher against the reading of the expressions *)

Section RegexFacts.

Lemma digit_not_space c : is_digit c = true -> is_space c = false.
Proof.
  intros [H1%N.leb_le H2%N.leb_le]%andb_prop. unfold is_space.
  repeat match goal with
         | |- context [?a <=? ?b] => destruct (N.leb_spec a b); try lia
         | |- context [?a =? ?b] => destruct (N.eqb_spec a b); try lia
         end; reflexivity.
Qed.

Lemma space_not_digit c : is_space c = true -> is_digit c = false.
Proof.
  intros Hs. destruct (is_digit c) eqn:Hd; [|done].
  apply digit_not_space in Hd. congruence.
Qed.

Lemma match_lit_Some l s s' : match_lit l s = Some s' <-> s = l ++ s'.
Proof.
  revert s. induction l as [|a l IH]; intros s; simpl.
  - split; intros; simplify_eq; done.
  - destruct s as [|c s]; [split; intros; simplify_eq|].
    destruct (N.eqb_spec a c) as [->|Hne].
    + rewrite IH. split; intros; simplify_eq; done.
    + split; intros; simplify_eq.
Qed.

Lemma match_plus_sound {R} cls (k : jsstring -> jsstring -> option R) acc s res :
  match_plus cls k acc s = Some res ->
  exists w rest, s = w ++ rest /\ w <> [] /\
    Forall (fun c => cls c = true) w /\ k (acc ++ w) rest = Some res.
Proof.
  revert acc. induction s as [|c s IH]; intros acc; simpl; [done|].
  destruct (cls c) eqn:Hc; [|done].
  destruct (match_plus cls k (acc ++ [c]) s) as [r'|] eqn:Hrec.
  - intros [= <-]. destruct (IH _ Hrec) as (w & rest & -> & _ & Hw & Hk).
    exists (c :: w), rest. rewrite <- app_assoc in Hk. auto.
  - intros Hk. exists [c], s. auto.
Qed.

Lemma match_plus_complete {R} cls (k : jsstring -> jsstring -> option R) w rest :
  w <> [] -> Forall (fun c => cls c = true) w ->
  forall acc, is_Some (k (acc ++ w) rest) -> is_Some (match_plus cls k acc (w ++ rest)).
Proof.
  induction w as [|c w IH]; [done|]. intros _ Hall acc Hk.
  apply Forall_cons in Hall as [Hc Hall]. simpl. rewrite Hc.
  destruct w as [|c' w].
  - simpl in *. destruct (match_plus cls k (acc ++ [c]) rest); eauto.
  - destruct (IH ltac:(done) Hall (acc ++ [c])) as [r Hr].
    + by rewrite <- app_assoc.
    + rewrite Hr. eauto.
Qed.

Lemma match_here_sound r : forall s caps0 caps,
  match_here r s caps0 = Some caps ->
  exists m suf caps1, s = m ++ suf /\ Matches r m caps1 /\ caps = caps0 ++ caps1.
Proof.
  induction r as [|a r IH]; intros s caps0 caps; simpl.
  - intros [= <-]. exists [], s, []. rewrite app_nil_r. split_and!; [done|constructor|done].
  - destruct a as [l| |].
    + destruct (match_lit l s) as [s'|] eqn:Hl; [|done].
      apply match_lit_Some in Hl as ->. intros (m & suf & c1 & -> & Hm & ->)%IH.
      exists (l ++ m), suf, c1. rewrite <- app_assoc. split_and!; [done|by constructor|done].
    + intros (w & rest & -> & Hne & Hw & (m & suf & c1 & -> & Hm & ->)%IH)%match_plus_sound.
      exists (w ++ m), suf, c1. rewrite <- app_assoc. split_and!; [done|by constructor|done].
    + intros (w & rest & -> & Hne & Hw & (m & suf & c1 & -> & Hm & ->)%IH)%match_plus_sound.
      exists (w ++ m), suf, (w :: c1). rewrite <- !app_assoc.
      split_and!; [done|by constructor|done].
Qed.

Lemma match_here_complete r m caps1 :
  Matches r m caps1 -> forall suf caps0, is_Some (match_here r (m ++ suf) caps0).
Proof.
  induction 1 as [|l r m caps Hm IH|w r m caps Hne Hw Hm IH|d r m caps Hne Hd Hm IH];
    intros suf caps0; simpl.
  - eauto.
  - rewrite <- app_assoc. rewrite (proj2 (match_lit_Some l _ _) eq_refl). apply IH.
  - rewrite <- app_assoc. apply match_plus_complete; [done..|]. apply IH.
  - rewrite <- app_assoc. apply match_plus_complete; [done..|]. apply IH.
Qed.

(** A run of [cls] characters before a character outside [cls] is forced. *)
Lemma run_forced (cls : N -> bool) w w' c x c' x' :
  Forall (fun a => cls a = true) w -> Forall (fun a => cls a = true) w' ->
  cls c = false -> cls c' = false ->
  w ++ c :: x = w' ++ c' :: x' -> w = w' /\ c :: x = c' :: x'.
Proof.
  intros Hw. revert w'. induction Hw as [|a w Ha Hw IH]; intros w' Hw' Hc Hc' Heq.
  - destruct Hw' as [|a' w' Ha' _]; [done|]. simpl in Heq. simplify_eq. congruence.
  - destruct Hw' as [|a' w' Ha' Hw']; simpl in Heq; simplify_eq; [congruence|].
    destruct (IH w' Hw' Hc Hc' ltac:(done)) as [-> ?]. done.
Qed.

Lemma starts_outside_space r m caps :
  starts_outside is_space (fun a => match a with Digits => true | _ => false end) r = true ->
  Matches r m caps -> exists c x, m = c :: x /\ is_space c = false.
Proof.
  intros Hs Hm. destruct Hm as [|l r m caps Hm|w r m caps Hne Hw Hm|d r m caps Hne Hd Hm];
    simpl in Hs; try done.
  - destruct l as [|c l]; [done|]. exists c, (l ++ m). split; [done|].
    by apply negb_true_iff.
  - destruct Hd as [|c d Hc _]; [done|]. exists c, (d ++ m). split; [done|].
    by apply digit_not_space.
Qed.

Lemma starts_outside_digit r m caps :
  starts_outside is_digit (fun a => match a with Spaces => true | _ => false end) r = true ->
  Matches r m caps -> exists c x, m = c :: x /\ is_digit c = false.
Proof.
  intros Hs Hm. destruct Hm as [|l r m caps Hm|w r m caps Hne Hw Hm|d r m caps Hne Hd Hm];
    simpl in Hs; try done.
  - destruct l as [|c l]; [done|]. exists c, (l ++ m). split; [done|].
    by apply negb_true_iff.
  - destruct Hw as [|c w Hc _]; [done|]. exists c, (w ++ m). split; [done|].
    by apply space_not_digit.
Qed.

(** For a separated expression the match at a given position is unique. *)
Lemma Matches_det r : separated r = true ->
  forall m c m' c' suf suf',
    Matches r m c -> Matches r m' c' -> m ++ suf = m' ++ suf' -> m = m' /\ c = c'.
Proof.
  induction r as [|a r IH]; intros Hsep m c m' c' suf suf' H1 H2 Heq.
  - inversion H1; inversion H2; done.
  - destruct a as [l| |]; simpl in Hsep.
    + inversion H1 as [|? ? m1 ? Hm1| |]; inversion H2 as [|? ? m2 ? Hm2| |]; subst.
      rewrite <- !app_assoc in Heq. apply app_inv_head in Heq.
      destruct (IH Hsep _ _ _ _ _ _ Hm1 Hm2 Heq) as [-> ->]. done.
    + apply andb_prop in Hsep as [Hout Hsep].
      inversion H1 as [| |w1 ? m1 ? _ Hw1 Hm1|]; inversion H2 as [| |w2 ? m2 ? _ Hw2 Hm2|]; subst.
      destruct (starts_outside_space _ _ _ Hout Hm1) as (c1 & x1 & -> & Hc1).
      destruct (starts_outside_space _ _ _ Hout Hm2) as (c2 & x2 & -> & Hc2).
      rewrite <- !app_assoc in Heq. simpl in Heq.
      destruct (run_forced _ _ _ _ _ _ _ Hw1 Hw2 Hc1 Hc2 Heq) as [-> Heq'].
      destruct (IH Hsep _ _ _ _ suf suf' Hm1 Hm2 Heq') as [-> ->]. done.
    + apply andb_prop in Hsep as [Hout Hsep].
      inversion H1 as [| | |w1 ? m1 ? _ Hw1 Hm1]; inversion H2 as [| | |w2 ? m2 ? _ Hw2 Hm2]; subst.
      destruct (starts_outside_digit _ _ _ Hout Hm1) as (c1 & x1 & -> & Hc1).
      destruct (starts_outside_digit _ _ _ Hout Hm2) as (c2 & x2 & -> & Hc2).
      rewrite <- !app_assoc in Heq. simpl in Heq.
      destruct (run_forced _ _ _ _ _ _ _ Hw1 Hw2 Hc1 Hc2 Heq) as [-> Heq'].
      destruct (IH Hsep _ _ _ _ suf suf' Hm1 Hm2 Heq') as [-> ->]. done.
Qed.

Lemma Matches_groups r m caps : Matches r m caps -> length caps = groups r.
Proof.
  unfold groups. induction 1 as [|l r m caps Hm IH|w r m caps _ _ Hm IH|d r m caps _ _ Hm IH];
    [done| | |]. all: rewrite filter_cons; case_decide; simpl; try done; by f_equal.
Qed.

(** Digits captured by a group are decimal digits, one at least. *)
Lemma Matches_captures r m caps :
  Matches r m caps -> Forall (fun d => d <> [] /\ Forall (fun c => is_digit c = true) d) caps.
Proof. induction 1; auto. Qed.

(** [search] returns the groups of the leftmost occurrence. *)
Lemma search_Leftmost r s caps : search r s = Some caps -> Leftmost r s caps.
Proof.
  revert caps. induction s as [|c s IH]; intros caps; simpl.
  - destruct (match_here r [] []) as [c0|] eqn:Hh; [|done]. intros [= <-].
    apply match_here_sound in Hh as (m & suf & c1 & Hs & Hm & ->).
    exists []. split; [by exists m, suf|]. simpl. lia.
  - destruct (match_here r (c :: s) []) as [c0|] eqn:Hh.
    + intros [= <-]. apply match_here_sound in Hh as (m & suf & c1 & Hs & Hm & ->).
      exists []. split; [by exists m, suf|]. simpl. lia.
    + intros (pre & (m & suf & -> & Hm) & Hmin)%IH. exists (c :: pre). split.
      * by exists m, suf.
      * intros pre' caps' (m' & suf' & Heq & Hm'). destruct pre' as [|c' pre'].
        { simpl in Heq. rewrite Heq in Hh.
          destruct (match_here_complete _ _ _ Hm' suf' []) as [? Hx]. congruence. }
        simpl in Heq. injection Heq as -> Heq. simpl.
        pose proof (Hmin pre' caps' ltac:(by exists m', suf')). lia.
Qed.

Lemma search_None r s : search r s = None -> ~ Occurs r s.
Proof.
  induction s as [|c s IH]; simpl.
  - destruct (match_here r [] []) eqn:Hh; [done|]. intros _ (pre & caps & m & suf & Heq & Hm).
    symmetry in Heq. apply app_eq_nil in Heq as [-> [-> ->]%app_eq_nil].
    destruct (match_here_complete _ _ _ Hm [] []) as [? Hx]. simpl in Hx. congruence.
  - destruct (match_here r (c :: s) []) eqn:Hh; [done|].
    intros Hs (pre & caps & m & suf & Heq & Hm). destruct pre as [|c' pre].
    + simpl in Heq. rewrite Heq in Hh.
      destruct (match_here_complete _ _ _ Hm suf []) as [? Hx]. congruence.
    + simpl in Heq. injection Heq as -> Heq. apply (IH Hs). by exists pre, caps, m, suf.
Qed.

(** For a separated expression the leftmost occurrence has one set of
    groups, and [search] finds it. *)
Lemma Leftmost_unique r s caps caps' :
  separated r = true -> Leftmost r s caps -> Leftmost r s caps' -> caps = caps'.
Proof.
  intros Hsep (pre & Hocc & Hmin) (pre' & Hocc' & Hmin').
  pose proof (Hmin _ _ Hocc'). pose proof (Hmin' _ _ Hocc).
  destruct Hocc as (m & suf & Hs & Hm). destruct Hocc' as (m' & suf' & Hs' & Hm').
  assert (pre = pre') as <-.
  { rewrite Hs in Hs'. apply (f_equal (take (length pre))) in Hs'.
    rewrite take_app_length in Hs'. rewrite Hs'.
    replace (length pre) with (length pre') by lia. by rewrite take_app_length. }
  rewrite Hs in Hs'. apply app_inv_head in Hs'.
  by destruct (Matches_det r Hsep _ _ _ _ _ _ Hm Hm' Hs').
Qed.

Lemma Leftmost_search r s caps :
  separated r = true -> Leftmost r s caps -> search r s = Some caps.
Proof.
  intros Hsep Hl. destruct (search r s) as [caps'|] eqn:Hs.
  - f_equal. eapply Leftmost_unique; [done| |done]. by apply search_Leftmost.
  - apply search_None in Hs. destruct Hl as (pre & Hocc & _). destruct Hs. by exists pre, caps.
Qed.

Lemma Leftmost_groups r s caps : Leftmost r s caps -> length caps = groups r.
Proof. intros (pre & (m & suf & _ & Hm) & _). by eapply Matches_groups. Qed.

End RegexFacts.

(** ** Numbers *)

Section NumberFacts.

Lemma pow2_pos e : 0 < 2 ^ e.
Proof. apply N.neq_0_lt_0, N.pow_nonzero. lia. Qed.

(** No integer with 53 significant bits lies strictly between two
    neighbours [q * 2^e] and [(q + 1) * 2^e] with [2^52 <= q]. *)
Lemma representable_gap q e m :
  2 ^ 52 <= q -> representable m -> q * 2 ^ e < m -> (q + 1) * 2 ^ e <= m.
Proof.
  intros Hq (q' & e' & Hq' & ->) Hlt.
  destruct (N.le_gt_cases e e') as [Hle|Hgt].
  - replace e' with (e + (e' - e)) in * by lia. rewrite N.pow_add_r in *.
    pose proof (pow2_pos e). pose proof (pow2_pos (e' - e)).
    generalize dependent (2 ^ e). generalize dependent (2 ^ (e' - e)).
    intros K HK P Hlt HP.
    assert (q < q' * K) by nia. assert (q + 1 <= q' * K) by lia. nia.
  - exfalso. replace e with (e' + 1 + (e - e' - 1)) in Hlt by lia.
    rewrite !N.pow_add_r in Hlt. change (2 ^ 1) with 2 in Hlt.
    pose proof (pow2_pos e'). pose proof (pow2_pos (e - e' - 1)).
    change (2 ^ 53) with (2 * 2 ^ 52) in Hq'.
    generalize dependent (2 ^ e'). generalize dependent (2 ^ (e - e' - 1)).
    generalize dependent (2 ^ 52). intros T HT Hq' K HK P Hlt HP.
    assert (q' * P < 2 * T * P) by nia.
    assert (T * P <= q * P) by nia.
    assert (q * P * 1 <= q * P * K) by (apply N.mul_le_mono_l; lia).
    nia.
Qed.

(** The neighbours of an integer from 2^53 on. *)
Lemma neighbours n :
  2 ^ 53 <= n ->
  let e := N.log2 n - 52 in
  let q := n / 2 ^ e in
  1 <= e /\ 2 ^ 52 <= q < 2 ^ 53 /\ n = q * 2 ^ e + n mod 2 ^ e /\
  n mod 2 ^ e < 2 ^ e /\ 2 * 2 ^ (e - 1) = 2 ^ e.
Proof.
  intros Hn e q.
  assert (53 <= N.log2 n) as Hlog.
  { rewrite <- (N.log2_pow2 53) by lia. by apply N.log2_le_mono. }
  assert (0 < n) as Hpos by (pose proof (pow2_pos 53); lia).
  pose proof (N.log2_spec n Hpos) as [Hlo Hhi].
  assert (N.log2 n = 52 + e) as He by (unfold e; lia).
  rewrite He in Hlo. rewrite He, <- N.add_succ_l in Hhi.
  rewrite N.pow_add_r in Hlo, Hhi.
  pose proof (pow2_pos e) as Hp.
  pose proof (N.div_mod n (2 ^ e) ltac:(lia)) as Hdm. fold q in Hdm.
  pose proof (N.mod_lt n (2 ^ e) ltac:(lia)) as Hr.
  assert (2 * 2 ^ (e - 1) = 2 ^ e) as Hhalf.
  { replace e with (1 + (e - 1)) at 2 by (unfold e; lia). by rewrite N.pow_add_r. }
  change (N.succ 52) with 53 in Hhi.
  split_and!; [unfold e; lia| | |lia|done|done].
  - apply N.le_ngt. intros Hlt.
    assert (2 ^ e * (q + 1) <= 2 ^ e * 2 ^ 52) by (apply N.mul_le_mono_l; lia).
    clear Hhalf. generalize dependent (n mod 2 ^ e). generalize dependent (2 ^ e).
    intros. nia.
  - apply N.lt_nge. intros Hle.
    assert (2 ^ e * 2 ^ 53 <= 2 ^ e * q) by (by apply N.mul_le_mono_l).
    clear Hhalf. generalize dependent (n mod 2 ^ e). generalize dependent (2 ^ e).
    intros. nia.
Qed.

Lemma significand_scaled q e :
  2 ^ 52 <= q < 2 ^ 53 -> significand (q * 2 ^ e) = q.
Proof.
  intros [Hlo Hhi]. unfold significand.
  assert (N.log2 (q * 2 ^ e) = 52 + e) as ->.
  { apply N.log2_unique; [lia|]. rewrite <- N.add_succ_l, !N.pow_add_r.
    change (N.succ 52) with 53. pose proof (pow2_pos e).
    split; [by apply N.mul_le_mono_r|apply N.mul_lt_mono_pos_r; lia]. }
  replace (52 + e - 52) with e by lia. apply N.div_mul.
  pose proof (pow2_pos e). lia.
Qed.

(** Of two neighbours, one has an even significand. *)
Lemma significand_next q e :
  2 ^ 52 <= q < 2 ^ 53 ->
  N.even (significand ((q + 1) * 2 ^ e)) = N.odd q.
Proof.
  intros [Hlo Hhi]. destruct (N.eq_dec (q + 1) (2 ^ 53)) as [Heq|Hne].
  - rewrite Heq. replace (2 ^ 53 * 2 ^ e) with (2 ^ 52 * 2 ^ (e + 1)).
    + rewrite significand_scaled by lia. replace q with (2 ^ 53 - 1) by lia. reflexivity.
    + rewrite N.pow_add_r. change (2 ^ 53) with (2 ^ 52 * 2). change (2 ^ 1) with 2. lia.
  - rewrite significand_scaled by lia.
    rewrite N.add_1_r, N.even_succ. done.
Qed.

Lemma representable_scaled q e : q <= 2 ^ 53 -> representable (q * 2 ^ e).
Proof.
  intros Hq. destruct (N.eq_dec q (2 ^ 53)) as [->|Hne].
  - exists (2 ^ 52), (e + 1). split; [lia|].
    rewrite N.pow_add_r. change (2 ^ 53) with (2 ^ 52 * 2). change (2 ^ 1) with 2. lia.
  - exists q, e. split; [lia|done].
Qed.

Lemma round53_nearest n : nearest n (round53 n).
Proof.
  unfold round53. destruct (N.ltb_spec n (2 ^ 53)) as [Hlt|Hge].
  { split; [exists n, 0; split; [done|]; rewrite N.pow_0_r; lia|].
    intros m' _ Hne. left. unfold distance. lia. }
  destruct (neighbours n Hge) as (He & [Hlo Hhi] & Hn & Hr & Hhalf).
  set (e := N.log2 n - 52) in *. set (q := n / 2 ^ e) in *.
  set (r := n mod 2 ^ e) in *. set (half := 2 ^ (e - 1)) in *.
  pose proof (significand_scaled q e ltac:(done)) as Hsa.
  pose proof (significand_next q e ltac:(done)) as Hsb.
  pose proof (representable_gap q e) as Hgap.
  assert ((q + 1) * 2 ^ e = q * 2 ^ e + 2 ^ e) as Hb by lia.
  rewrite Hb in Hsb, Hgap.
  assert (forall m', representable m' -> m' <= q * 2 ^ e \/ q * 2 ^ e + 2 ^ e <= m') as Hout.
  { intros m' Hm'. destruct (N.le_gt_cases m' (q * 2 ^ e)); [by left|right]. by apply Hgap. }
  destruct ((half <? r) || ((r =? half) && N.odd q)) eqn:Hup.
  - rewrite Hb. split; [rewrite <- Hb; apply representable_scaled; lia|].
    intros m' Hm' Hne. destruct (Hout m' Hm') as [Hm|Hm]; unfold distance.
    + apply orb_prop in Hup as [Hup|Hup].
      * apply N.ltb_lt in Hup. left. lia.
      * apply andb_prop in Hup as [Hr'%N.eqb_eq Hodd].
        destruct (N.eq_dec m' (q * 2 ^ e)); [right|left; lia].
        rewrite Hsb. split; [lia|done].
    + left. lia.
  - split; [apply representable_scaled; lia|].
    apply orb_false_elim in Hup as [Hup%N.ltb_ge Htie].
    intros m' Hm' Hne. destruct (Hout m' Hm') as [Hm|Hm]; unfold distance.
    + left. lia.
    + destruct (N.eq_dec r half) as [Heq|Hne'].
      * rewrite Heq, N.eqb_refl in Htie. simpl in Htie.
        destruct (N.eq_dec m' (q * 2 ^ e + 2 ^ e)); [right|left; lia].
        rewrite Hsa. split; [lia|]. by rewrite <- N.negb_odd, Htie.
      * left. lia.
Qed.

(** Whatever is nearest is one of the two neighbours. *)
Lemma nearest_round53 n m : nearest n m -> m = round53 n.
Proof.
  intros Hm. pose proof (round53_nearest n) as H0.
  destruct (N.eq_dec m (round53 n)) as [|Hne]; [done|exfalso].
  destruct Hm as [Hrm Hm], H0 as [Hr0 H0].
  specialize (Hm _ Hr0 ltac:(done)). specialize (H0 _ Hrm Hne).
  assert (distance n m = distance n (round53 n) /\ N.even (significand m) = true
          /\ N.even (significand (round53 n)) = true) as (Hd & Hem & He0) by (split_and!; [lia|intuition lia..]).
  clear Hm H0. revert Hne Hr0 Hd He0. unfold round53.
  destruct (N.ltb_spec n (2 ^ 53)) as [Hlt|Hge].
  { unfold distance. lia. }
  destruct (neighbours n Hge) as (He & [Hlo Hhi] & Hn & Hr & Hhalf).
  set (e := N.log2 n - 52) in *. set (q := n / 2 ^ e) in *.
  set (r := n mod 2 ^ e) in *. set (half := 2 ^ (e - 1)) in *.
  pose proof (significand_scaled q e ltac:(done)) as Hsa.
  pose proof (significand_next q e ltac:(done)) as Hsb.
  pose proof (representable_gap q e m Hlo Hrm) as Hgap.
  assert ((q + 1) * 2 ^ e = q * 2 ^ e + 2 ^ e) as Hb by lia.
  rewrite Hb in Hsb, Hgap.
  destruct ((half <? r) || ((r =? half) && N.odd q)) eqn:Hup.
  - rewrite Hb. unfold distance. intros Hne _ Hd He0. rewrite Hsb in He0.
    destruct (N.le_gt_cases m (q * 2 ^ e)) as [Hle|Hgt]; [|specialize (Hgap Hgt); lia].
    apply orb_prop in Hup as [Hup%N.ltb_lt|Hup]; [lia|].
    apply andb_prop in Hup as [Hr'%N.eqb_eq _].
    assert (m = q * 2 ^ e) as -> by lia. rewrite Hsa in Hem.
    rewrite <- N.negb_odd, He0 in Hem. done.
  - unfold distance. intros Hne _ Hd He0. rewrite Hsa in He0.
    apply orb_false_elim in Hup as [Hup%N.ltb_ge Htie].
    destruct (N.le_gt_cases m (q * 2 ^ e)) as [Hle|Hgt]; [lia|]. specialize (Hgap Hgt).
    assert (r = half) as Heq by lia. rewrite Heq, N.eqb_refl in Htie. simpl in Htie.
    assert (m = q * 2 ^ e + 2 ^ e) as -> by lia. rewrite Hsb, Htie in Hem. done.
Qed.

(** [to_double] computes the Number value. *)
Lemma to_double_Rounded n x : Rounded n x <-> x = to_double n.
Proof.
  unfold to_double. split.
  - intros (m & Hm & Hx). apply nearest_round53 in Hm as ->.
    destruct (N.leb_spec (2 ^ 1024) (round53 n)); destruct Hx as [[? ->]|[? ->]]; done || lia.
  - intros ->. exists (round53 n). split; [apply round53_nearest|].
    destruct (N.leb_spec (2 ^ 1024) (round53 n)); [right|left]; done.
Qed.

Lemma mathInt_from d : forall acc,
  fold_left (fun acc c => 10 * acc + (c - 48)) d acc
  = acc * 10 ^ N.of_nat (length d) + decimal d.
Proof.
  induction d as [|c d IH]; intros acc; cbn [fold_left decimal length].
  - rewrite N.pow_0_r. lia.
  - rewrite IH, Nat2N.inj_succ, N.pow_succ_r'. lia.
Qed.

(** The fold of [parseInt] computes the value of the notation. *)
Lemma mathInt_decimal d : mathInt d = decimal d.
Proof. unfold mathInt. rewrite mathInt_from. lia. Qed.

Lemma parseInt10_Rounded d : Rounded (decimal d) (parseInt10 d).
Proof. apply to_double_Rounded. unfold parseInt10. by rewrite mathInt_decimal. Qed.

Lemma Rounded_parseInt10 d x : Rounded (decimal d) x -> parseInt10 d = x.
Proof.
  intros ->%to_double_Rounded. unfold parseInt10. by rewrite mathInt_decimal.
Qed.

End NumberFacts.

(** ** Lines *)

Section LineFacts.

Lemma split_on_nonempty sep s : split_on sep s <> [].
Proof.
  destruct s as [|c s]; simpl; [done|].
  destruct (c =? sep); [done|]. by destruct (split_on sep s).
Qed.

Lemma split_on_app sep a b :
  split_on sep (a ++ sep :: b) = split_on sep a ++ split_on sep b.
Proof.
  induction a as [|c a IH]; simpl.
  - by rewrite N.eqb_refl.
  - destruct (c =? sep); [by rewrite IH|]. rewrite IH.
    pose proof (split_on_nonempty sep a). by destruct (split_on sep a).
Qed.

(** A text without separator is one line, and a line-free prefix stays
    glued to the first line of what follows. *)
Lemma split_on_glue sep x s :
  sep ∉ x ->
  exists l ls, split_on sep s = l :: ls /\ split_on sep (x ++ s) = (x ++ l) :: ls.
Proof.
  induction x as [|c x IH]; intros Hx; simpl.
  - pose proof (split_on_nonempty sep s). destruct (split_on sep s) as [|l ls]; [done|].
    by exists l, ls.
  - apply not_elem_of_cons in Hx as [Hc Hx]. destruct (IH Hx) as (l & ls & Hs & ->).
    exists l, ls. split; [done|]. destruct (N.eqb_spec c sep); [by subst|done].
Qed.

Lemma split_on_lines sep s : Forall (fun l => sep ∉ l) (split_on sep s).
Proof.
  induction s as [|c s IH]; simpl.
  - repeat constructor. apply not_elem_of_nil.
  - destruct (N.eqb_spec c sep) as [->|Hne].
    + constructor; [apply not_elem_of_nil|done].
    + pose proof (split_on_nonempty sep s).
      destruct (split_on sep s) as [|l ls]; [done|].
      apply Forall_cons in IH as [Hl Hls]. constructor; [|done].
      apply not_elem_of_cons. done.
Qed.

Lemma split_on_single sep l : sep ∉ l -> split_on sep l = [l].
Proof.
  intros Hl. destruct (split_on_glue sep l [] Hl) as (l' & ls & [= <- <-] & Hs).
  by rewrite !app_nil_r in Hs.
Qed.

(** The lines of a text are what [split] returns, and nothing else. *)
Lemma Lines_split_on text lines : Lines text lines -> split_on 10 text = lines.
Proof.
  induction 1 as [l Hl|l rest ls Hl _ IH].
  - by apply split_on_single.
  - by rewrite split_on_app, split_on_single, IH.
Qed.

Lemma split_on_Lines text : Lines text (split_on 10 text).
Proof.
  induction text as [|c s IH]; simpl.
  - constructor. apply not_elem_of_nil.
  - destruct (N.eqb_spec c 10) as [->|Hne].
    + apply (Lines_more [] s); [apply not_elem_of_nil|done].
    + inversion IH as [l Hl Heq|l rest ls Hl Hrest Heq1 Heq2].
      * constructor. by apply not_elem_of_cons.
      * apply (Lines_more (c :: l) rest); [by apply not_elem_of_cons|done].
Qed.

End LineFacts.


(** ** The summarizer *)

Section Summarizer.

Lemma summary_of_line_Some line s : summary_of_line line = Some s -> first_pattern line s.
Proof.
  unfold summary_of_line.
  destruct (search plan_re line) as [caps|] eqn:Hp.
  { apply search_Leftmost in Hp. pose proof (Leftmost_groups _ _ _ Hp) as Hlen.
    destruct caps as [|a [|b [|c [|? ?]]]]; try done.
    intros [= <-]. simpl. exists a, b, c. by split_and!; [|apply parseInt10_Rounded..]. }
  apply search_None in Hp.
  destruct (search apply_re line) as [caps|] eqn:Ha.
  { apply search_Leftmost in Ha. pose proof (Leftmost_groups _ _ _ Ha) as Hlen.
    destruct caps as [|a [|b [|c [|? ?]]]]; try done.
    intros [= <-]. simpl. split; [done|]. exists a, b, c.
    by split_and!; [|apply parseInt10_Rounded..]. }
  apply search_None in Ha.
  destruct (search destroy_re line) as [caps|] eqn:Hd; [|done].
  apply search_Leftmost in Hd. pose proof (Leftmost_groups _ _ _ Hd) as Hlen.
  destruct caps as [|d [|? ?]]; try done.
  intros [= <-]. simpl. split_and!; [done..|]. exists d. split; [done|].
  apply parseInt10_Rounded.
Qed.

Lemma summary_of_line_None line : summary_of_line line = None -> no_pattern line.
Proof.
  unfold summary_of_line, no_pattern.
  destruct (search plan_re line) as [caps|] eqn:Hp.
  { apply search_Leftmost in Hp. pose proof (Leftmost_groups _ _ _ Hp) as Hlen.
    by destruct caps as [|a [|b [|c [|? ?]]]]. }
  apply search_None in Hp.
  destruct (search apply_re line) as [caps|] eqn:Ha.
  { apply search_Leftmost in Ha. pose proof (Leftmost_groups _ _ _ Ha) as Hlen.
    by destruct caps as [|a [|b [|c [|? ?]]]]. }
  apply search_None in Ha.
  destruct (search destroy_re line) as [caps|] eqn:Hd.
  { apply search_Leftmost in Hd. pose proof (Leftmost_groups _ _ _ Hd) as Hlen.
    by destruct caps as [|d [|? ?]]. }
  apply search_None in Hd. done.
Qed.

Lemma first_pattern_summary line s : first_pattern line s -> summary_of_line line = Some s.
Proof.
  assert (Hnone : forall r, ~ Occurs r line -> search r line = None).
  { intros r Hno. destruct (search r line) as [caps|] eqn:Hs; [|done].
    apply search_Leftmost in Hs as (pre & Hocc & _). destruct Hno. by exists pre, caps. }
  unfold summary_of_line. destruct s as [x y z|x y z|x]; simpl.
  - intros (a & b & c & Hl & Hx & Hy & Hz).
    rewrite (Leftmost_search plan_re line _ eq_refl Hl).
    by rewrite (Rounded_parseInt10 _ _ Hx), (Rounded_parseInt10 _ _ Hy),
      (Rounded_parseInt10 _ _ Hz).
  - intros (Hp & a & b & c & Hl & Hx & Hy & Hz).
    rewrite (Hnone _ Hp), (Leftmost_search apply_re line _ eq_refl Hl).
    by rewrite (Rounded_parseInt10 _ _ Hx), (Rounded_parseInt10 _ _ Hy),
      (Rounded_parseInt10 _ _ Hz).
  - intros (Hp & Ha & d & Hl & Hx).
    rewrite (Hnone _ Hp), (Hnone _ Ha).
    rewrite (Leftmost_search destroy_re line _ eq_refl Hl).
    by rewrite (Rounded_parseInt10 _ _ Hx).
Qed.

Lemma no_pattern_summary line : no_pattern line -> summary_of_line line = None.
Proof.
  intros Hno. destruct (summary_of_line line) as [s|] eqn:Hs; [|done].
  apply summary_of_line_Some in Hs. destruct Hno as (Hp & Ha & Hd).
  destruct s; simpl in Hs.
  - destruct Hs as (a & b & c & (pre & Hocc & _) & _). destruct Hp. by exists pre, [a; b; c].
  - destruct Hs as (_ & a & b & c & (pre & Hocc & _) & _). destruct Ha. by exists pre, [a; b; c].
  - destruct Hs as (_ & _ & d & (pre & Hocc & _) & _). destruct Hd. by exists pre, [d].
Qed.

Lemma scan_lines_spec lines :
  match scan_lines lines with
  | None => Forall no_pattern lines
  | Some s =>
      exists before line after,
        lines = before ++ line :: after /\ Forall no_pattern before /\ first_pattern line s
  end.
Proof.
  induction lines as [|line rest IH]; simpl; [done|].
  destruct (summary_of_line line) as [s|] eqn:Hl.
  - exists [], line, rest. split_and!; [done|done|by apply summary_of_line_Some].
  - apply summary_of_line_None in Hl. destruct (scan_lines rest) as [s|].
    + destruct IH as (before & l & after & -> & Hb & Hf).
      exists (line :: before), l, after. split_and!; [done|by constructor|done].
    + by constructor.
Qed.

(** The texts of the three outputs, and one that carries no summary. *)
Example summary_plan :
  parseTofuSummary (lit "Plan: 3 to add, 1 to change, 2 to destroy") = Some (PlanSummary 3 1 2).
Proof. reflexivity. Qed.

Example summary_apply :
  parseTofuSummary (lit "Apply complete! Resources: 5 added, 0 changed, 1 destroyed")
  = Some (ApplySummary 5 0 1).
Proof. reflexivity. Qed.

Example summary_destroy :
  parseTofuSummary (lit "Destroy complete! Resources: 4 destroyed") = Some (DestroySummary 4).
Proof. reflexivity. Qed.

Example summary_absent : parseTofuSummary (lit "No changes. Plan: none") = None.
Proof. reflexivity. Qed.

(** The record is decided by the specification: whatever line comes
    first with a pattern, and whatever pattern comes first in it. *)
Lemma parseTofuSummary_decided text before line after s :
  split_on 10 text = before ++ line :: after ->
  Forall no_pattern before -> first_pattern line s ->
  parseTofuSummary text = Some s.
Proof.
  unfold parseTofuSummary. intros -> Hb Hf. induction Hb as [|l before Hl _ IH]; simpl.
  - by rewrite (first_pattern_summary _ _ Hf).
  - by rewrite (no_pattern_summary _ Hl).
Qed.

(** C2. Every text has lines, the pieces between its line breaks, and
    whatever they are, [parseTofuSummary] scans them in order and stops
    at the first line in which any of the three patterns occurs: it
    returns a record [s] exactly when the lines are lines without any
    pattern, then a line for which [s] is the record of the first
    pattern, in the order plan, apply, destroy, that occurs in it, with
    the numbers of its leftmost occurrence as Number values (the nearest
    double of each decimal notation), whatever comes after; and it
    returns nothing (null) exactly when no line contains any of the
    three patterns.  The function is total: there is no error and no
    zero-valued record. *)
Theorem parseTofuSummary_first_match (text : jsstring) :
  (exists lines, Lines text lines) /\
  forall lines, Lines text lines ->
    (parseTofuSummary text = None <-> Forall no_pattern lines) /\
    (forall s, parseTofuSummary text = Some s <->
       exists before line after,
         lines = before ++ line :: after /\
         Forall no_pattern before /\ first_pattern line s).
Proof.
  split; [exists (split_on 10 text); apply split_on_Lines|].
  intros lines Hlines. apply Lines_split_on in Hlines.
  pose proof (scan_lines_spec (split_on 10 text)) as Hspec.
  fold (parseTofuSummary text) in Hspec. rewrite Hlines in Hspec. split.
  - split.
    + intros Hnone. by rewrite Hnone in Hspec.
    + intros Hall. destruct (parseTofuSummary text) as [s|] eqn:Hp; [|done].
      destruct Hspec as (before & line & after & Hsplit & _ & Hf).
      rewrite Hsplit in Hall. apply Forall_app in Hall as [_ Hall].
      apply Forall_cons in Hall as [Hno _].
      apply no_pattern_summary in Hno. apply first_pattern_summary in Hf. congruence.
  - intros s. split.
    + intros Hs. by rewrite Hs in Hspec.
    + intros (before & line & after & Hsplit & Hb & Hf).
      eapply parseTofuSummary_decided; [|done..]. by rewrite Hlines.
Qed.

(** A text of four lines: a tally that is broken by a line break, and
    so is no tally for the scan, a plan line whose first number has no
    double of its own, and an apply line.  The record is that of the
    plan line, with its first number rounded. *)
Lemma parseTofuSummary_first_match_witness :
  let text := lit "Plan: 7 to add,
 0 to change, 0 to destroy
Plan: 9007199254740993 to add, 1 to change, 2 to destroy
Apply complete! Resources: 5 added, 0 changed, 1 destroyed" in
  let lines := [lit "Plan: 7 to add,";
                lit " 0 to change, 0 to destroy";
                lit "Plan: 9007199254740993 to add, 1 to change, 2 to destroy";
                lit "Apply complete! Resources: 5 added, 0 changed, 1 destroyed"] in
  Lines text lines /\
  parseTofuSummary text = Some (PlanSummary 9007199254740992 1 2).
Proof.
  intros text lines.
  assert (Hl : forall l : jsstring, forallb (fun c => negb (c =? 10)) l = true -> 10 ∉ l).
  { intros l Hl Hin. rewrite forallb_forall in Hl.
    apply list_elem_of_In, Hl in Hin. done. }
  assert (Hlines : Lines text lines).
  { apply (Lines_more (lit "Plan: 7 to add,")); [by apply Hl|].
    apply (Lines_more (lit " 0 to change, 0 to destroy")); [by apply Hl|].
    apply (Lines_more (lit "Plan: 9007199254740993 to add, 1 to change, 2 to destroy"));
      [by apply Hl|].
    apply Lines_last. by apply Hl. }
  split; [done|].
  apply (proj2 (proj2 (proj2 (parseTofuSummary_first_match text) lines Hlines)
                  (PlanSummary 9007199254740992 1 2))).
  exists [lit "Plan: 7 to add,"; lit " 0 to change, 0 to destroy"],
    (lit "Plan: 9007199254740993 to add, 1 to change, 2 to destroy"),
    [lit "Apply complete! Resources: 5 added, 0 changed, 1 destroyed"].
  split_and!; [done| |].
  - repeat constructor; apply summary_of_line_None; vm_compute; reflexivity.
  - apply summary_of_line_Some. vm_compute. reflexivity.
Defined.

End Summarizer.

(** ** The command runner *)

Section RunnerFacts.

Lemma listen_captured events : forall out err code o e,
  listen events out err = Resolved (code, o, e) ->
  o = out ++ captured Stdout events /\ e = err ++ captured Stderr events.
Proof.
  induction events as [|ev rest IH]; intros out err code o e; simpl; [done|].
  destruct ev as [[|] d|c|x|]; simpl.
  - intros [-> ->]%IH. by rewrite <- app_assoc.
  - intros [-> ->]%IH. by rewrite <- app_assoc.
  - intros [= <- <- <-]. by rewrite !app_nil_r.
  - done.
  - apply IH.
Qed.

(** What a resolved run holds, whatever the logging. *)
Lemma runCommands_Resolved spawn iso cid path cmds logging r :
  runCommands spawn iso cid path cmds logging = Resolved r ->
  exists events code,
    spawn (dockerArgs iso cid path cmds logging) = Emits events /\
    listen events [] [] = Resolved (code, stdout r, stderr r) /\
    exitCode r = code /\ combined r = stdout r ++ stderr r /\
    summary r = parseTofuSummary (stdout r).
Proof.
  unfold runCommands. destruct (spawn _) as [x|events] eqn:Hs; [done|].
  destruct (listen events [] []) as [[[code o] e]|x|] eqn:Hl; [|done..].
  intros Hr. exists events, code.
  destruct (_ && _).
  - destruct (read_log_file _); [|done]. by injection Hr as <-.
  - by injection Hr as <-.
Qed.

(** C1 (as amended). For every execution the runner resolves, [combined]
    is the captured stdout data followed by the captured stderr data, and
    each of the two is the concatenation of the chunks of its own stream
    in the order they arrived: neither stream is reordered relative to
    itself, but the chunks of the two streams are not interleaved. *)
Theorem combined_is_stdout_then_stderr spawn iso cid path cmds logging r :
  runCommands spawn iso cid path cmds logging = Resolved r ->
  exists events,
    spawn (dockerArgs iso cid path cmds logging) = Emits events /\
    stdout r = captured Stdout events /\
    stderr r = captured Stderr events /\
    combined r = captured Stdout events ++ captured Stderr events.
Proof.
  intros (events & code & Hs & Hl & _ & Hc & _)%runCommands_Resolved.
  apply listen_captured in Hl as [Ho He]. simpl in Ho, He.
  exists events. rewrite Hc, Ho, He. done.
Qed.

(** A run in which a stderr chunk arrives before a stdout chunk. *)
Lemma combined_is_stdout_then_stderr_witness :
  let events := [Data Stderr (lit "warn "); Data Stdout (lit "done"); Close (Some 0%Z)] in
  exists r, runCommands (fun _ => Emits events) [] (lit "c1") (lit "/workspace/p/s")
              [lit "tofu init -input=false -no-color"] false = Resolved r /\
            combined r = lit "donewarn ".
Proof.
  eexists. split; [reflexivity|].
  destruct (combined_is_stdout_then_stderr (fun _ => Emits
      [Data Stderr (lit "warn "); Data Stdout (lit "done"); Close (Some 0%Z)])
      [] (lit "c1") (lit "/workspace/p/s") [lit "tofu init -input=false -no-color"] false
      _ eq_refl) as (events & Hs & _ & _ & Hc).
  injection Hs as <-. exact Hc.
Defined.

(** C1 (as stated) fails: with a stderr chunk that arrives first,
    [combined] is not the data in the order of arrival. *)
Lemma combined_not_chronological :
  let events := [Data Stderr (lit "warn "); Data Stdout (lit "done"); Close (Some 0%Z)] in
  match runCommands (fun _ => Emits events) [] (lit "c1") (lit "/workspace/p/s")
          [lit "tofu init -input=false -no-color"] false with
  | Resolved r =>
      combined r = lit "donewarn " /\ arrival_order events = lit "warn done" /\
      combined r <> arrival_order events
  | _ => False
  end.
Proof. vm_compute. split_and!; [done..|]. discriminate. Qed.

Lemma shell_escape_chars path : shell_escape path = mjoin (escaped_char <$> path).
Proof.
  induction path as [|c path IH]; [done|]. simpl. rewrite IH. unfold escaped_char.
  unfold is_shell_special. case_decide as Hc.
  - replace (_ || _) with true; [done|]. symmetry.
    repeat rewrite orb_true_iff. rewrite !N.eqb_eq. tauto.
  - replace (_ || _) with false; [done|]. symmetry.
    apply not_true_is_false. repeat rewrite orb_true_iff. rewrite !N.eqb_eq. tauto.
Qed.

Lemma join_chain sep c cs :
  join sep (c :: cs) = c ++ mjoin ((fun x => sep ++ x) <$> cs).
Proof.
  revert c. induction cs as [|c' cs IH]; intros c; simpl.
  - by rewrite app_nil_r.
  - rewrite <- app_assoc. do 2 f_equal. apply IH.
Qed.

(** C3. For every workspace path and every non-empty command sequence
    [cmd :: cmds], with or without logging, the argument vector handed to
    [docker] ends in [bash -c <shell string>], and the shell string is
    exactly [cd <escapedPath> && cmd1 && ... && cmdN 2>&1], where the
    escaped path is the workspace path with a backslash put before every
    double quote, white-space character, single quote, dollar, backtick
    and backslash. *)
Theorem shell_string_shape iso containerId workspacePath cmd cmds enableLogging :
  (exists front,
     dockerArgs iso containerId workspacePath (cmd :: cmds) enableLogging
     = front ++ [lit "bash"; lit "-c"; wrappedCmd workspacePath (cmd :: cmds)]) /\
  wrappedCmd workspacePath (cmd :: cmds)
  = chained (shell_escape workspacePath) (cmd :: cmds) /\
  shell_escape workspacePath = mjoin (escaped_char <$> workspacePath).
Proof.
  split_and!.
  - unfold dockerArgs. destruct (_ && _).
    + exists [lit "exec"; lit "-i"; lit "-e"; lit "TF_IN_AUTOMATION=true"; lit "-e";
              lit "FORCE_COLOR=0"; containerId; lit "-e"; lit "TF_LOG=INFO"; lit "-e";
              lit "TF_LOG_PATH=" ++ logFilePath iso workspacePath enableLogging].
      reflexivity.
    + exists [lit "exec"; lit "-i"; lit "-e"; lit "TF_IN_AUTOMATION=true"; lit "-e";
              lit "FORCE_COLOR=0"; containerId].
      reflexivity.
  - unfold wrappedCmd, chained. rewrite join_chain, fmap_cons.
    change (mjoin (?x :: ?xs)) with (x ++ mjoin xs).
    by rewrite <- !app_assoc.
  - apply shell_escape_chars.
Qed.

Lemma read_back_data before : only_data before -> forall rest st,
  read_back (before ++ rest) st =
  read_back rest {| logBuffer := logBuffer st ++ captured Stdout before;
                    logContent := logContent st; timerArmed := timerArmed st;
                    killed := killed st |}.
Proof.
  induction 1 as [|ev before Hev _ IH]; intros rest st; simpl.
  - rewrite app_nil_r. by destruct st.
  - destruct ev as [[|] d| | |]; try done; simpl; rewrite IH; simpl.
    all: by rewrite <- ?app_assoc.
Qed.

Lemma captured_data s before rest :
  only_data before -> captured s (before ++ rest) = captured s before ++ captured s rest.
Proof.
  induction 1 as [|ev before Hev _ IH]; [done|]. destruct ev as [s' d| | |]; try done.
  simpl. case_decide; [|done]. by rewrite IH, <- app_assoc.
Qed.

Lemma read_back_unsettled before : unsettled before -> forall rest st,
  exists st', read_back (before ++ rest) st = read_back rest st' /\
              logContent st' = logContent st.
Proof.
  induction 1 as [|ev before Hev _ IH]; intros rest st; simpl; [by exists st|].
  destruct ev as [[|] d| | |]; try done.
  - destruct (IH rest {| logBuffer := logBuffer st ++ d; logContent := logContent st;
                         timerArmed := timerArmed st; killed := killed st |})
      as (st' & Heq & Hc).
    by exists st'.
  - destruct (timerArmed st); [|apply IH].
    destruct (IH rest {| logBuffer := logBuffer st; logContent := logContent st;
                         timerArmed := false; killed := true |}) as (st' & Heq & Hc).
    by exists st'.
Qed.

(** A run with logging, once the chain has closed. *)
Lemma runCommands_logging spawn iso cid path cmds events code out err :
  includes_unit 32 path = false ->
  spawn (dockerArgs iso cid path cmds true) = Emits events ->
  listen events [] [] = Resolved (code, out, err) ->
  runCommands spawn iso cid path cmds true =
    match read_log_file (spawn (logReadArgs cid (logFilePath iso path true))) with
    | Some st =>
        Resolved {| exitCode := code; stdout := out; stderr := err; combined := out ++ err;
                    logFileContent := logContent st; summary := parseTofuSummary out |}
    | None => Pending
    end.
Proof.
  intros Hsp Hs Hl. unfold runCommands. rewrite Hs, Hl.
  replace (truthy (logFilePath iso path true)) with true; [done|].
  unfold logFilePath. rewrite Hsp. simpl. by destruct path.
Qed.

(** C7 (as amended). With logging, once the command chain has closed:
    whenever the read-back settles, the primary result is resolved with
    its exit code, its two streams, [combined] and its summary intact,
    and with the log content the read-back left; when the read-back is
    still running after three seconds it is killed, and the log content
    is the data it had delivered on stdout by the time it closed (empty
    when it had delivered none); when the read-back fails, by an [error]
    event or because it could not be spawned, the log content is empty. *)
Theorem log_read_back_outcome spawn iso cid path cmds events code out err :
  includes_unit 32 path = false ->
  spawn (dockerArgs iso cid path cmds true) = Emits events ->
  listen events [] [] = Resolved (code, out, err) ->
  let b := spawn (logReadArgs cid (logFilePath iso path true)) in
  let result content :=
    {| exitCode := code; stdout := out; stderr := err; combined := out ++ err;
       logFileContent := content; summary := parseTofuSummary out |} in
  (forall st, read_log_file b = Some st ->
     runCommands spawn iso cid path cmds true = Resolved (result (logContent st))) /\
  (forall before after c rest,
     only_data before -> only_data after ->
     b = Emits (before ++ Elapsed3s :: after ++ Close c :: rest) ->
     (exists st, read_log_file b = Some st /\ killed st = true) /\
     runCommands spawn iso cid path cmds true
     = Resolved (result (captured Stdout before ++ captured Stdout after))) /\
  (forall before e rest,
     unsettled before -> b = Emits (before ++ Error e :: rest) ->
     runCommands spawn iso cid path cmds true = Resolved (result [])) /\
  (forall e, b = SpawnThrows e ->
     runCommands spawn iso cid path cmds true = Resolved (result [])).
Proof.
  intros Hsp Hs Hl b result.
  pose proof (runCommands_logging spawn iso cid path cmds events code out err Hsp Hs Hl) as Hrun.
  fold b in Hrun. split_and!.
  - intros st Hst. by rewrite Hrun, Hst.
  - intros before after c rest Hb Ha Hb'. rewrite Hrun, Hb'. simpl.
    rewrite (read_back_data before Hb). simpl.
    rewrite (read_back_data after Ha). simpl. split; [eauto|done].
  - intros before e rest Hb Hb'. rewrite Hrun, Hb'. simpl.
    destruct (read_back_unsettled before Hb (Error e :: rest) log_start) as (st' & -> & Hc).
    simpl. by rewrite Hc.
  - intros e Hb'. by rewrite Hrun, Hb'.
Qed.

(** The slow read-back of the example: killed at the timeout, and the
    part of the file it had delivered is the log content. *)
Lemma log_read_back_outcome_witness :
  exists r,
    runCommands Demo.slow_log_spawn (lit "2025-01-02T03:04:05.678Z") (lit "c0ffee")
      (lit "/workspace/shop/dev") [lit "tofu init -input=false -no-color"] true
    = Resolved r /\
    exitCode r = Some 0%Z /\ logFileContent r = lit "2025 [INFO] start".
Proof.
  destruct (log_read_back_outcome Demo.slow_log_spawn (lit "2025-01-02T03:04:05.678Z")
              (lit "c0ffee") (lit "/workspace/shop/dev")
              [lit "tofu init -input=false -no-color"] (Demo.exits 0) (Some 0%Z)
              (lit "Initializing the backend...") (lit "Warning: slow")
              eq_refl eq_refl eq_refl) as (_ & Htimeout & _ & _).
  destruct (Htimeout [Data Stdout (lit "2025 [INFO] start")] [] None []) as [_ Hrun].
  - repeat constructor.
  - constructor.
  - reflexivity.
  - eexists. split; [exact Hrun|]. split; reflexivity.
Defined.

(** C7 (as stated) fails: the read-back passes the timeout and is
    killed, yet the log content of the result is not empty. *)
Lemma timeout_log_not_empty :
  (exists st,
     read_log_file (Demo.slow_log_spawn
                      (logReadArgs (lit "c0ffee")
                         (logFilePath (lit "2025-01-02T03:04:05.678Z")
                            (lit "/workspace/shop/dev") true))) = Some st /\
     killed st = true) /\
  match runCommands Demo.slow_log_spawn (lit "2025-01-02T03:04:05.678Z") (lit "c0ffee")
          (lit "/workspace/shop/dev") [lit "tofu init -input=false -no-color"] true with
  | Resolved r => logFileContent r = lit "2025 [INFO] start" /\ logFileContent r <> []
  | _ => False
  end.
Proof.
  split.
  - eexists. split; [vm_compute; reflexivity|reflexivity].
  - vm_compute. split; [reflexivity|discriminate].
Qed.

Lemma runCommands_no_log spawn iso cid path (cmds : list jsstring) r :
  runCommands spawn iso cid path cmds false = Resolved r -> logFileContent r = [].
Proof.
  unfold runCommands. destruct (spawn _) as [x|events]; [done|].
  destruct (listen events [] []) as [[[code o] e]|x|]; [|done..].
  simpl. by intros [= <-].
Qed.

Lemma result_facts spawn iso cid path (cmds : list jsstring) r :
  runCommands spawn iso cid path cmds false = Resolved r ->
  combined r = stdout r ++ stderr r /\ summary r = parseTofuSummary (stdout r) /\
  logFileContent r = [].
Proof.
  intros Hr. pose proof (runCommands_no_log _ _ _ _ _ _ Hr).
  apply runCommands_Resolved in Hr as (events & code & _ & _ & _ & Hc & Hs). done.
Qed.

End RunnerFacts.

(** ** The deployment collection *)

Section LedgerFacts.

Lemma updateOne_found (P : Deployment -> Prop) `{forall d, Decision (P d)} f L i d :
  list_find P L = Some (i, d) -> updateOne P f L = (1%nat, <[i := f d]> L).
Proof. unfold updateOne. by intros ->. Qed.

Lemma updateOne_missing (P : Deployment -> Prop) `{forall d, Decision (P d)} f L :
  list_find P L = None -> updateOne P f L = (0%nat, L).
Proof. unfold updateOne. by intros ->. Qed.

Lemma list_find_insert_same {A} (P : A -> Prop) `{forall x, Decision (P x)} l i x y :
  list_find P l = Some (i, x) -> P y -> list_find P (<[i := y]> l) = Some (i, y).
Proof.
  intros (Hi & Hx & Hmin)%list_find_Some Hy. apply list_find_Some. split_and!.
  - apply list_lookup_insert_eq. by eapply lookup_lt_Some.
  - done.
  - intros j z Hj Hlt. rewrite list_lookup_insert_ne in Hj by lia. eauto.
Qed.

Lemma findOne_list_find (P : Deployment -> Prop) `{forall d, Decision (P d)} L :
  findOne P L = None <-> list_find P L = None.
Proof. unfold findOne. destruct (list_find P L); simpl; split; intros; simplify_eq; done. Qed.

Lemma filter_pulled (k : StepKind) (ss : list Step) :
  filter (fun s => step s = k) (filter (fun s => step s <> k) ss) = [].
Proof.
  induction ss as [|s ss IH]; [done|]. rewrite filter_cons. case_decide; [|done].
  rewrite filter_cons. by case_decide.
Qed.

(** The body of [tofuInit] once the checks have passed and the runner
    has resolved. *)
Lemma tofuInit_runs w req L result :
  runs w req (lit "tofu init -input=false -no-color") result ->
  forall id, body_deploymentId req = Some id -> id <> [] ->
  tofuInit w req L =
    match findOne (has_id id) L with
    | None => Replied (fail 404 (lit "Deployment not found")) L
    | Some existing =>
        Replied
          (ok (spread [("command"%string, JStr (lit "tofu init"));
                       ("deploymentId"%string, JStr id);
                       ("deploymentName"%string, JStr (deploymentName existing));
                       ("logFileContent"%string, JStr (logFileContent result))]
                 (result_fields result)))
          (updateOne (has_id id) (push_step (step_from Init result))
             (updateOne (has_id id) (pull_steps Init) L).2).2
    end.
Proof.
  intros (project & cid & Hsp & Hp & Him & Hc & Hr) id Hid Hne.
  unfold tofuInit. rewrite Hsp, Hp, Him. simpl negb. cbv iota.
  destruct (getContainerIdsByImage w _) as [|c ids]; [done|]. injection Hc as ->.
  rewrite Hr, Hid. destruct id as [|c0 id]; [done|]. reflexivity.
Qed.

(** One init run on a known deployment: the init steps go, the fresh
    one is appended. *)
Lemma tofuInit_known w req L result id i d :
  runs w req (lit "tofu init -input=false -no-color") result ->
  body_deploymentId req = Some id -> id <> [] ->
  list_find (has_id id) L = Some (i, d) ->
  exists resp,
    tofuInit w req L =
      Replied resp
        (<[i := with_steps d (filter (fun s => step s <> Init) (steps d)
                               ++ [step_from Init result])]> L) /\
    status resp = 200.
Proof.
  intros Hruns Hid Hne Hfind. rewrite (tofuInit_runs w req L result Hruns id Hid Hne).
  unfold findOne. rewrite Hfind. simpl.
  rewrite (updateOne_found _ _ _ _ _ Hfind). simpl.
  assert (Hfind1 : list_find (has_id id) (<[i := pull_steps Init d]> L)
                   = Some (i, pull_steps Init d)).
  { apply (list_find_insert_same _ _ _ _ _ Hfind).
    apply list_find_Some in Hfind as (_ & Hd & _). exact Hd. }
  rewrite (updateOne_found _ _ _ _ _ Hfind1). simpl.
  rewrite list_insert_insert_eq. eexists. split; [reflexivity|done].
Qed.

Lemma first_with_id_find id (L : Collection) i d :
  first_with_id id L i d <-> list_find (has_id id) L = Some (i, d).
Proof.
  rewrite list_find_Some. unfold first_with_id, has_id. split.
  - intros (Hi & Hd & Hmin). split_and!; [done..|].
    intros j y Hj Hlt Hy. specialize (Hmin j y Hj Hy). lia.
  - intros (Hi & Hd & Hmin). split_and!; [done..|].
    intros j y Hj Hy. destruct (decide (i <= j)%nat); [done|].
    destruct (Hmin j y Hj ltac:(lia) Hy).
Qed.

Lemma unknown_id_find id (L : Collection) :
  unknown_id id L <-> list_find (has_id id) L = None.
Proof. by rewrite list_find_None. Qed.

(** The step derived by a handler from the result of a run is the step
    of the outcome: without logging, [combined] is [stdout] followed by
    [stderr] and there is no log. *)
Lemma step_from_outcome w req cmd r k :
  runs w req cmd r -> step_from k r = outcome_step k r.
Proof.
  intros (project & cid & _ & _ & _ & _ & Hr).
  destruct (result_facts _ _ _ _ _ _ Hr) as (Hc & _ & Hl).
  unfold step_from, outcome_step, step_of. rewrite Hc, Hl. f_equal.
  - destruct (exitCode r) as [[|p|p]|]; by case_decide.
  - unfold or_else. destruct (stdout r) as [|c o]; [|done]. simpl.
    destruct (stderr r); done.
Qed.

Lemma apply_step_from_outcome w req cmd r :
  runs w req cmd r -> apply_step_from r = apply_outcome_step r.
Proof.
  intros (project & cid & _ & _ & _ & _ & Hr).
  destruct (result_facts _ _ _ _ _ _ Hr) as (_ & _ & Hl).
  unfold apply_step_from, apply_outcome_step, step_of. rewrite Hl. f_equal.
  - destruct (exitCode r) as [[|p|p]|]; by case_decide.
  - unfold or_else. by destruct (stdout r).
Qed.

(** One init run on a known deployment, read from the collection it
    leaves. *)
Lemma tofuInit_recorded w req (L : Collection) r id i d :
  runs w req (lit "tofu init -input=false -no-color") r ->
  body_deploymentId req = Some id -> id <> [] ->
  first_with_id id L i d ->
  exists resp L' d',
    tofuInit w req L = Replied resp L' /\ status resp = 200 /\
    first_with_id id L' i d' /\
    steps d' = filter (fun s => step s <> Init) (steps d) ++ [outcome_step Init r] /\
    same_header d d' /\ others_kept i L L'.
Proof.
  intros Hruns Hid Hne Hfirst. pose proof Hfirst as Hfind%first_with_id_find.
  destruct (tofuInit_known w req L r id i d Hruns Hid Hne Hfind) as (resp & Hcall & Hst).
  rewrite (step_from_outcome _ _ _ _ _ Hruns) in Hcall.
  eexists resp, _, _. refine (conj Hcall (conj Hst (conj _ (conj _ (conj _ _))))).
  - apply first_with_id_find, (list_find_insert_same _ _ _ _ _ Hfind).
    by destruct Hfirst as (_ & Hd & _).
  - done.
  - done.
  - split; [by rewrite length_insert|]. intros k Hk. by rewrite list_lookup_insert_ne.
Qed.

(** C4. [tofuInit] called with a deployment id: when no document of
    the ledger carries the id the call answers 404 (not found) and the
    ledger is as before; when one does, the call removes every step of
    kind init and appends the step of its outcome, so that after two
    consecutive calls on the same id the deployment holds exactly one
    init step, the one of the second outcome (status by the second exit
    code, message the second output), at the end of the steps other
    than init that it had; the rest of the deployment and the other
    documents are as they were. *)
Theorem tofuInit_idempotent w1 w2 req1 req2 (L : Collection) id r1 r2 :
  body_deploymentId req1 = Some id -> body_deploymentId req2 = Some id -> id <> [] ->
  runs w1 req1 (lit "tofu init -input=false -no-color") r1 ->
  runs w2 req2 (lit "tofu init -input=false -no-color") r2 ->
  (unknown_id id L ->
     exists resp,
       tofuInit w1 req1 L = Replied resp L /\ status resp = 404 /\
       body resp = JObj [("error"%string, JStr (lit "Deployment not found"))]) /\
  (forall i d, first_with_id id L i d ->
     exists resp1 resp2 L1 L2 d1 d2,
       tofuInit w1 req1 L = Replied resp1 L1 /\ status resp1 = 200 /\
       L1 !! i = Some d1 /\
       steps d1 = filter (fun s => step s <> Init) (steps d) ++ [outcome_step Init r1] /\
       tofuInit w2 req2 L1 = Replied resp2 L2 /\ status resp2 = 200 /\
       L2 !! i = Some d2 /\
       steps d2 = filter (fun s => step s <> Init) (steps d) ++ [outcome_step Init r2] /\
       filter (fun s => step s = Init) (steps d2) = [outcome_step Init r2] /\
       same_header d d2 /\ others_kept i L L2).
Proof.
  intros Hid1 Hid2 Hne Hr1 Hr2. split.
  - intros Hnone%unknown_id_find. rewrite (tofuInit_runs w1 req1 L r1 Hr1 id Hid1 Hne).
    unfold findOne. rewrite Hnone. simpl. by eexists.
  - intros i d Hfirst.
    destruct (tofuInit_recorded w1 req1 L r1 id i d Hr1 Hid1 Hne Hfirst)
      as (resp1 & L1 & d1 & Hcall1 & Hst1 & Hfirst1 & Hsteps1 & Hhead1 & Hlen1 & Hkept1).
    destruct (tofuInit_recorded w2 req2 L1 r2 id i d1 Hr2 Hid2 Hne Hfirst1)
      as (resp2 & L2 & d2 & Hcall2 & Hst2 & Hfirst2 & Hsteps2 & Hhead2 & Hlen2 & Hkept2).
    assert (Hss2 : steps d2
                   = filter (fun s => step s <> Init) (steps d) ++ [outcome_step Init r2]).
    { rewrite Hsteps2, Hsteps1, filter_app, list_filter_filter.
      rewrite filter_cons. case_decide as Hx; [by destruct Hx|].
      rewrite filter_nil, app_nil_r. f_equal.
      apply list_filter_iff. intros s. tauto. }
    exists resp1, resp2, L1, L2, d1, d2.
    refine (conj Hcall1 (conj Hst1 (conj _ (conj Hsteps1 (conj Hcall2 (conj Hst2
             (conj _ (conj Hss2 (conj _ (conj _ _)))))))))).
    + by destruct Hfirst1.
    + by destruct Hfirst2.
    + rewrite Hss2, filter_app, filter_pulled. simpl.
      rewrite filter_cons. by case_decide.
    + destruct Hhead1 as (? & ? & ? & ? & ?), Hhead2 as (? & ? & ? & ? & ?).
      unfold same_header. split_and!; congruence.
    + split; [congruence|]. intros k Hk. by rewrite Hkept2, Hkept1.
Qed.

Lemma with_steps_same d : with_steps d (steps d) = d.
Proof. by destruct d. Qed.

Lemma addSteps_known id ss : forall (L : Collection) i d,
  list_find (has_id id) L = Some (i, d) ->
  addSteps id ss L = inl (<[i := with_steps d (steps d ++ ss)]> L).
Proof.
  induction ss as [|s ss IH]; intros L i d Hfind; simpl.
  - rewrite app_nil_r, with_steps_same. f_equal. symmetry. apply list_insert_id.
    by apply list_find_Some in Hfind as (? & _).
  - unfold addDeploymentStep. rewrite (updateOne_found _ _ _ _ _ Hfind).
    assert (Hfind1 : list_find (has_id id) (<[i := push_step s d]> L)
                     = Some (i, push_step s d)).
    { apply (list_find_insert_same _ _ _ _ _ Hfind).
      apply list_find_Some in Hfind as (_ & Hd & _). exact Hd. }
    rewrite (IH _ _ _ Hfind1), list_insert_insert_eq. simpl.
    by rewrite <- app_assoc.
Qed.

Lemma list_find_middle {A} (P : A -> Prop) `{forall x, Decision (P x)} pre x post :
  Forall (fun y => ~ P y) pre -> P x ->
  list_find P (pre ++ x :: post) = Some (length pre, x).
Proof.
  intros Hpre Hx. apply list_find_Some. split_and!.
  - by rewrite list_lookup_middle.
  - done.
  - intros j y Hj Hlt. rewrite lookup_app_l in Hj by done.
    rewrite Forall_lookup in Hpre. eauto.
Qed.

Lemma insert_middle {A} (pre : list A) x y post :
  <[length pre := y]> (pre ++ x :: post) = pre ++ y :: post.
Proof. induction pre as [|a pre IH]; simpl; [done|]. by rewrite IH. Qed.

(** The body of [tofuPlanDeny] once a deployment id is sent. *)
Lemma tofuPlanDeny_sent w req (L : Collection) id :
  body_deploymentId req = Some id -> id <> [] ->
  tofuPlanDeny w req L =
    match findProject (params_projectId req) (projects w) with
    | None => Replied (fail 404 (lit "Project not found")) L
    | Some _ =>
        match list_find (has_id_and_step id Plan) L with
        | None => Replied (fail 404 (lit "Plan step not found for deployment")) L
        | Some (i, d) =>
            Replied
              (ok [("success"%string, JBool true);
                   ("message"%string, JStr (lit "Plan Step Cancelled by User"));
                   ("deploymentId"%string, JStr id)])
              (<[i := set_positional Plan Cancelled (now w) d]> L)
        end
    end.
Proof.
  intros Hid Hne. unfold tofuPlanDeny. rewrite Hid.
  destruct id as [|c id]; [done|]. simpl.
  destruct (findProject _ _); [|done]. unfold updateOne.
  by destruct (list_find _ L) as [[i d]|].
Qed.

(** C6. [tofuPlanDeny] called with a deployment id: when the id is
    unknown, or no document with that id has a step of kind plan, the
    call answers 404 (not found) and the ledger is exactly as before;
    otherwise, the project being known, it overwrites in place the first
    plan entry of the deployment, whose status becomes cancelled and whose
    timestamp becomes the current time: the sequence keeps its length,
    nothing is appended and nothing is removed. *)
Theorem tofuPlanDeny_not_found_or_in_place w req (L : Collection) id :
  body_deploymentId req = Some id -> id <> [] ->
  ((findOne (has_id id) L = None \/
    (forall d, d ∈ L -> deploymentId d = id -> Forall (fun s => step s <> Plan) (steps d))) ->
     exists msg, tofuPlanDeny w req L = Replied (fail 404 msg) L) /\
  (forall project i d,
     findProject (params_projectId req) (projects w) = Some project ->
     list_find (has_id_and_step id Plan) L = Some (i, d) ->
     exists j p,
       list_find (fun s => step s = Plan) (steps d) = Some (j, p) /\
       tofuPlanDeny w req L =
         Replied
           (ok [("success"%string, JBool true);
                ("message"%string, JStr (lit "Plan Step Cancelled by User"));
                ("deploymentId"%string, JStr id)])
           (<[i := with_steps d (<[j := cancelled_at (now w) p]> (steps d))]> L) /\
       length (<[j := cancelled_at (now w) p]> (steps d)) = length (steps d)).
Proof.
  intros Hid Hne. rewrite (tofuPlanDeny_sent w req L id Hid Hne). split.
  - intros Hno. assert (Hnone : list_find (has_id_and_step id Plan) L = None).
    { apply list_find_None, Forall_forall. intros d Hd [Hdid Hex].
      destruct Hno as [Hunknown|Hno].
      - apply findOne_list_find in Hunknown.
        rewrite list_find_None, Forall_forall in Hunknown. by apply (Hunknown d).
      - specialize (Hno d Hd Hdid). apply Exists_exists in Hex as (s & Hs & Hk).
        rewrite Forall_forall in Hno. by apply (Hno s). }
    rewrite Hnone. destruct (findProject _ _); eauto.
  - intros project i d -> Hfind. rewrite Hfind.
    pose proof Hfind as (_ & [_ Hex] & _)%list_find_Some.
    apply Exists_exists in Hex as (s & Hs & Hk).
    destruct (list_find (fun s => step s = Plan) (steps d)) as [[j p]|] eqn:Hj.
    + exists j, p. split_and!; [done| |by rewrite length_insert].
      unfold set_positional. by rewrite Hj.
    + rewrite list_find_None, Forall_forall in Hj. by destruct (Hj s Hs).
Qed.

(** C10. When a deployment holds several plan entries, the cancel
    operation touches only the first of them in sequence order: with the
    steps split as [pre ++ p :: post], [p] of kind plan and none in [pre],
    the steps become [pre ++ p' :: post] where [p'] is [p] with status
    cancelled and the current time as timestamp; [pre], [post] (with every
    later plan entry), the kind, message and log of [p], every other field
    of the deployment and every other document stay as they were. *)
Theorem tofuPlanDeny_first_plan_only w req (L : Collection) id project i d pre p post :
  body_deploymentId req = Some id -> id <> [] ->
  findProject (params_projectId req) (projects w) = Some project ->
  list_find (has_id_and_step id Plan) L = Some (i, d) ->
  steps d = pre ++ p :: post -> Forall (fun s => step s <> Plan) pre -> step p = Plan ->
  exists resp d',
    tofuPlanDeny w req L = Replied resp (<[i := d']> L) /\
    steps d' = pre ++ cancelled_at (now w) p :: post /\
    step (cancelled_at (now w) p) = step p /\
    message (cancelled_at (now w) p) = message p /\
    stepLogFileContent (cancelled_at (now w) p) = stepLogFileContent p /\
    stepStatus (cancelled_at (now w) p) = Cancelled /\
    timestamp (cancelled_at (now w) p) = Some (now w) /\
    deploymentId d' = deploymentId d /\ projectId d' = projectId d /\
    spaceId d' = spaceId d /\ deploymentName d' = deploymentName d /\
    startedAt d' = startedAt d /\
    (forall k, k <> i -> (<[i := d']> L) !! k = L !! k).
Proof.
  intros Hid Hne Hproj Hfind Hsteps Hpre Hp.
  rewrite (tofuPlanDeny_sent w req L id Hid Hne), Hproj, Hfind.
  eexists _, (with_steps d (pre ++ cancelled_at (now w) p :: post)).
  split_and!; try done.
  - do 2 f_equal. unfold set_positional. rewrite Hsteps.
    rewrite (list_find_middle (fun s => step s = Plan) pre p post); [|by eapply Forall_impl|done].
    by rewrite insert_middle.
  - intros k Hk. by rewrite list_lookup_insert_ne.
Qed.

(** Two init runs on the deployment of the example, which holds a
    failed init step and two plan steps: the first run succeeds, the
    second prints an error and exits with status 1.  One init step is
    left, at the end, failed and with the output of the second run; the
    two plan steps are as they were.  On an id that no document carries
    the answer is 404. *)
Lemma tofuInit_idempotent_witness :
  let w1 := Demo.world (Demo.exits 0) in
  let w2 := Demo.world [Data Stdout (lit "Initializing the backend...");
                        Data Stderr (lit "Error: backend unreachable");
                        Close (Some 1%Z)] in
  (exists resp,
     tofuInit w1 {| params_projectId := lit "p1"; body_spaceName := Some (lit "dev");
                    body_deploymentId := Some (lit "dep-9") |} Demo.ledger
     = Replied resp Demo.ledger /\ status resp = 404) /\
  exists resp1 resp2 L1 L2,
    tofuInit w1 Demo.request Demo.ledger = Replied resp1 L1 /\
    tofuInit w2 Demo.request L1 = Replied resp2 L2 /\
    status resp2 = 200 /\
    steps <$> L2
    = [[Demo.plan1; Demo.plan2;
        {| step := Init; stepStatus := Failed;
           message := lit "Initializing the backend...Error: backend unreachable";
           stepLogFileContent := []; timestamp := None |}]].
Proof.
  intros w1 w2. split.
  - edestruct (tofuInit_idempotent w1 w1
                 {| params_projectId := lit "p1"; body_spaceName := Some (lit "dev");
                    body_deploymentId := Some (lit "dep-9") |}
                 {| params_projectId := lit "p1"; body_spaceName := Some (lit "dev");
                    body_deploymentId := Some (lit "dep-9") |}
                 Demo.ledger (lit "dep-9")) as [Hunknown _].
    + reflexivity.
    + reflexivity.
    + discriminate.
    + exists Demo.shop, (lit "c0ffee"). split_and!; reflexivity.
    + exists Demo.shop, (lit "c0ffee"). split_and!; reflexivity.
    + destruct Hunknown as (resp & Hcall & Hst & _).
      { repeat constructor. discriminate. }
      by exists resp.
  - edestruct (tofuInit_idempotent w1 w2 Demo.request Demo.request
                 Demo.ledger (lit "dep-1")) as [_ Hknown].
    + reflexivity.
    + reflexivity.
    + discriminate.
    + exists Demo.shop, (lit "c0ffee"). split_and!; reflexivity.
    + exists Demo.shop, (lit "c0ffee"). split_and!; reflexivity.
    + destruct (Hknown 0%nat Demo.dep1)
        as (resp1 & resp2 & L1 & L2 & d1 & d2 & H1 & _ & _ & _ & H2 & Hst & Hl2
            & Hsteps & _ & _ & Hlen & _).
      { split_and!; [reflexivity..|]. intros j d' _ _. lia. }
      exists resp1, resp2, L1, L2. split_and!; [exact H1|exact H2|exact Hst|].
      destruct L2 as [|x [|y L2]]; try discriminate Hlen.
      injection Hl2 as ->. simpl. rewrite Hsteps. reflexivity.
Defined.

(** Cancelling on the deployment of the example, and on an unknown one. *)
Lemma tofuPlanDeny_not_found_or_in_place_witness :
  (exists msg,
     tofuPlanDeny (Demo.world [])
       {| params_projectId := lit "p1"; body_spaceName := None;
          body_deploymentId := Some (lit "dep-9") |} Demo.ledger
     = Replied (fail 404 msg) Demo.ledger) /\
  (exists resp L',
     tofuPlanDeny (Demo.world []) Demo.request Demo.ledger = Replied resp L' /\
     status resp = 200 /\
     (fun d => stepStatus <$> steps d) <$> L' = [[Failed; Cancelled; Failed]]).
Proof.
  split.
  - apply (proj1 (tofuPlanDeny_not_found_or_in_place (Demo.world [])
                    {| params_projectId := lit "p1"; body_spaceName := None;
                       body_deploymentId := Some (lit "dep-9") |}
                    Demo.ledger (lit "dep-9") eq_refl ltac:(discriminate))).
    left. reflexivity.
  - destruct (proj2 (tofuPlanDeny_not_found_or_in_place (Demo.world []) Demo.request
                       Demo.ledger (lit "dep-1") eq_refl ltac:(discriminate))
                Demo.shop 0%nat Demo.dep1 eq_refl eq_refl)
      as (j & p & Hj & Hcall & _).
    injection Hj as <- <-. eexists _, _. split; [exact Hcall|]. split; reflexivity.
Defined.

(** The deployment of the example has two plan entries: the first one is
    cancelled, the second one stays. *)
Lemma tofuPlanDeny_first_plan_only_witness :
  exists resp d',
    tofuPlanDeny (Demo.world []) Demo.request Demo.ledger = Replied resp [d'] /\
    steps d' = [Demo.old_init; cancelled_at 1735787045678 Demo.plan1; Demo.plan2].
Proof.
  destruct (tofuPlanDeny_first_plan_only (Demo.world []) Demo.request Demo.ledger
              (lit "dep-1") Demo.shop 0%nat Demo.dep1
              [Demo.old_init] Demo.plan1 [Demo.plan2]
              eq_refl ltac:(discriminate) eq_refl eq_refl eq_refl
              ltac:(repeat constructor; discriminate) eq_refl)
    as (resp & d' & Hcall & Hsteps & _).
  exists resp, d'. split; [exact Hcall|exact Hsteps].
Defined.

End LedgerFacts.

(** ** The handlers *)

Section HandlerFacts.

Lemma listen_unsettled before : unsettled before -> forall rest out err,
  exists o e, listen (before ++ rest) out err = listen rest o e.
Proof.
  induction 1 as [|ev before Hev _ IH]; intros rest out err; simpl; [eauto|].
  destruct ev as [[|] d| | |]; try done; apply IH.
Qed.

Lemma listen_Rejected events : forall out err e,
  listen events out err = Rejected e ->
  exists before rest, unsettled before /\ events = before ++ Error e :: rest.
Proof.
  induction events as [|ev events IH]; intros out err e; simpl; [done|].
  destruct ev as [[|] d|c|x|].
  - intros (before & rest & Hb & ->)%IH. exists (Data Stdout d :: before), rest.
    split; [by constructor|done].
  - intros (before & rest & Hb & ->)%IH. exists (Data Stderr d :: before), rest.
    split; [by constructor|done].
  - done.
  - intros [= ->]. exists [], events. split; [constructor|done].
  - intros (before & rest & Hb & ->)%IH. exists (Elapsed3s :: before), rest.
    split; [by constructor|done].
Qed.

Lemma runCommands_Rejected spawn iso cid path cmds logging e :
  runCommands spawn iso cid path cmds logging = Rejected e ->
  spawn (dockerArgs iso cid path cmds logging) = SpawnThrows e \/
  exists before rest,
    unsettled before /\
    spawn (dockerArgs iso cid path cmds logging) = Emits (before ++ Error e :: rest).
Proof.
  unfold runCommands. destruct (spawn _) as [x|events]; [intros [= ->]; by left|].
  destruct (listen events [] []) as [[[code o] er]|x|] eqn:Hl.
  - destruct (_ && _); [destruct (read_log_file _)|]; done.
  - intros [= ->]. right. apply listen_Rejected in Hl as (before & rest & Hb & ->). eauto.
  - done.
Qed.

Lemma step_of_status k code m l :
  (stepStatus (step_of k code m l) = Successful <-> code = Some 0%Z) /\
  (stepStatus (step_of k code m l) = Failed <-> code <> Some 0%Z).
Proof. unfold step_of. simpl. case_decide; split; split; intros; done. Qed.

(** The bodies of the three appending handlers once the checks have
    passed and the runner has resolved. *)
Lemma tofuPlan_runs addStep w req (L : Collection) r id :
  runs w req (lit "tofu plan -input=false -no-color") r ->
  body_deploymentId req = Some id -> id <> [] ->
  forall L', addStep id (step_from Plan r) L = inl L' ->
  exists resp, tofuPlan addStep w req L = Replied resp L' /\ status resp = 200.
Proof.
  intros (project & cid & Hsp & Hp & Him & Hc & Hr) Hid Hne L' Hadd.
  unfold tofuPlan. rewrite Hsp, Hp, Him, Hid. simpl negb.
  destruct id as [|c0 id]; [done|]. cbn [present truthy negb value].
  destruct (getContainerIdsByImage w _) as [|c ids]; [done|]. injection Hc as ->.
  rewrite Hr. fold (step_from Plan r). rewrite Hadd. eauto.
Qed.

Lemma tofuApply_runs addStep w req (L : Collection) r id :
  runs w req (lit "tofu apply -auto-approve -input=false -no-color") r ->
  body_deploymentId req = Some id -> id <> [] ->
  forall L', addStep id (apply_step_from r) L = inl L' ->
  exists resp, tofuApply addStep w req L = Replied resp L' /\ status resp = 200.
Proof.
  intros (project & cid & Hsp & Hp & Him & Hc & Hr) Hid Hne L' Hadd.
  unfold tofuApply. rewrite Hsp, Hp, Him, Hid. simpl negb.
  destruct id as [|c0 id]; [done|]. cbn [present truthy negb value].
  destruct (getContainerIdsByImage w _) as [|c ids]; [done|]. injection Hc as ->.
  rewrite Hr. fold (apply_step_from r). rewrite Hadd. eauto.
Qed.

Lemma tofuDestroy_runs addStep w req (L : Collection) r id :
  runs w req (lit "tofu destroy -auto-approve -input=false -no-color") r ->
  body_deploymentId req = Some id -> id <> [] ->
  forall L', addStep id (step_from Destroy r) L = inl L' ->
  exists resp, tofuDestroy addStep w req L = Replied resp L' /\ status resp = 200.
Proof.
  intros (project & cid & Hsp & Hp & Him & Hc & Hr) Hid Hne L' Hadd.
  unfold tofuDestroy. rewrite Hsp, Hp, Him, Hid. simpl negb.
  destruct id as [|c0 id]; [done|]. cbn [present truthy negb value].
  destruct (getContainerIdsByImage w _) as [|c ids]; [done|]. injection Hc as ->.
  rewrite Hr. fold (step_from Destroy r). rewrite Hadd. eauto.
Qed.

(** C8. An exit status is data, not a failure.  The runner resolves,
    with the exit code as it came (zero, non-zero or absent), whenever
    the process closes, and it rejects only when the process could not be
    spawned (the spawn throws, or the process emits [error] before any
    [close]).  For every exit status, once the checks of the request have
    passed, each step endpoint answers 200 and the outcome is recorded as
    a step: [tofuInit] on a known deployment leaves the step of the
    outcome at the end of the steps of the deployment, and [tofuPlan],
    [tofuApply] and [tofuDestroy] hand the step of the outcome to the
    repository and answer 200 with the collection it returns.  The step
    of an outcome has the kind of the endpoint, the output as message,
    and a status that is successful exactly when the exit code is 0 and
    failed exactly when it is not. *)
Theorem exit_code_is_not_an_error :
  (forall before code rest,
     unsettled before ->
     forall spawn iso cid path cmds,
       spawn (dockerArgs iso cid path cmds false) = Emits (before ++ Close code :: rest) ->
       exists r, runCommands spawn iso cid path cmds false = Resolved r /\ exitCode r = code) /\
  (forall spawn iso cid path cmds logging e,
     runCommands spawn iso cid path cmds logging = Rejected e ->
     spawn (dockerArgs iso cid path cmds logging) = SpawnThrows e \/
     exists before rest,
       unsettled before /\
       spawn (dockerArgs iso cid path cmds logging) = Emits (before ++ Error e :: rest)) /\
  (forall addStep w req (L : Collection) id r,
     body_deploymentId req = Some id -> id <> [] ->
     (runs w req (lit "tofu init -input=false -no-color") r ->
      forall i d, first_with_id id L i d ->
        exists resp L' d',
          tofuInit w req L = Replied resp L' /\ status resp = 200 /\
          L' !! i = Some d' /\
          steps d' = filter (fun s => step s <> Init) (steps d)
                     ++ [{| step := Init;
                            stepStatus := match exitCode r with
                                          | Some 0%Z => Successful
                                          | _ => Failed
                                          end;
                            message := stdout r ++ stderr r;
                            stepLogFileContent := [];
                            timestamp := None |}]) /\
     (runs w req (lit "tofu plan -input=false -no-color") r ->
      forall L', addStep id (outcome_step Plan r) L = inl L' ->
        exists resp, tofuPlan addStep w req L = Replied resp L' /\ status resp = 200) /\
     (runs w req (lit "tofu apply -auto-approve -input=false -no-color") r ->
      forall L', addStep id (apply_outcome_step r) L = inl L' ->
        exists resp, tofuApply addStep w req L = Replied resp L' /\ status resp = 200) /\
     (runs w req (lit "tofu destroy -auto-approve -input=false -no-color") r ->
      forall L', addStep id (outcome_step Destroy r) L = inl L' ->
        exists resp, tofuDestroy addStep w req L = Replied resp L' /\ status resp = 200)) /\
  (forall k r,
     step (outcome_step k r) = k /\
     message (outcome_step k r) = stdout r ++ stderr r /\
     (stepStatus (outcome_step k r) = Successful <-> exitCode r = Some 0%Z) /\
     (stepStatus (outcome_step k r) = Failed <-> exitCode r <> Some 0%Z)) /\
  (forall r,
     step (apply_outcome_step r) = Apply /\
     (stepStatus (apply_outcome_step r) = Successful <-> exitCode r = Some 0%Z) /\
     (stepStatus (apply_outcome_step r) = Failed <-> exitCode r <> Some 0%Z)).
Proof.
  split_and!.
  - intros before code rest Hb spawn iso cid path cmds Hs. unfold runCommands.
    rewrite Hs. destruct (listen_unsettled before Hb (Close code :: rest) [] []) as (o & e & ->).
    simpl. eauto.
  - apply runCommands_Rejected.
  - intros addStep w req L id r Hid Hne. split_and!.
    + intros Hr i d Hfirst.
      destruct (tofuInit_recorded w req L r id i d Hr Hid Hne Hfirst)
        as (resp & L' & d' & Hcall & Hst & (Hi & _) & Hsteps & _).
      by exists resp, L', d'.
    + intros Hr L' Hadd. rewrite <- (step_from_outcome _ _ _ _ _ Hr) in Hadd.
      by apply (tofuPlan_runs addStep w req L r id).
    + intros Hr L' Hadd. rewrite <- (apply_step_from_outcome _ _ _ _ Hr) in Hadd.
      by apply (tofuApply_runs addStep w req L r id).
    + intros Hr L' Hadd. rewrite <- (step_from_outcome _ _ _ _ _ Hr) in Hadd.
      by apply (tofuDestroy_runs addStep w req L r id).
  - intros k r. unfold outcome_step. simpl.
    split_and!; try done; destruct (exitCode r) as [[|p|p]|]; split; congruence.
  - intros r. unfold apply_outcome_step. simpl.
    split_and!; try done; destruct (exitCode r) as [[|p|p]|]; split; congruence.
Qed.

(** Every early return of a handler carries an error status. *)
Ltac handler_paths :=
  intros Hcall Hstatus;
  repeat case_match; simplify_eq; simpl in Hstatus; try discriminate Hstatus.

(** Two explicit lists of keys are permutations of one another. *)
Ltac same_keys := apply (bool_decide_unpack _); vm_compute; exact I.

(** C9 (as amended). Whenever a handler answers 200: the body of
    [tofuInit] has the nine keys command, deploymentId, deploymentName,
    exitCode, stdout, stderr, combined, logFileContent and summary; the
    bodies of [tofuApply] and [tofuDestroy] have the eight keys that are
    left without deploymentName, which they never carry; the body of
    [tofuPlan] has the keys stepName, humanReadable, exitCode, stderr,
    logFileContent and rawFormat, its own and different shape, with
    humanReadable an object of the keys raw and summary; and the body of
    [tofuPlanDeny] has the keys success, message and deploymentId. *)
Theorem response_shapes addStep w req (L : Collection) resp (L' : Collection) :
  (tofuInit w req L = Replied resp L' -> status resp = 200 -> init_shape (body resp)) /\
  (tofuApply addStep w req L = Replied resp L' -> status resp = 200 ->
     run_shape (body resp)) /\
  (tofuDestroy addStep w req L = Replied resp L' -> status resp = 200 ->
     run_shape (body resp)) /\
  (tofuPlan addStep w req L = Replied resp L' -> status resp = 200 ->
     plan_shape (body resp)) /\
  (tofuPlanDeny w req L = Replied resp L' -> status resp = 200 ->
     cancel_shape (body resp)).
Proof.
  split_and!.
  - unfold tofuInit. handler_paths; unfold init_shape; simpl; same_keys.
  - unfold tofuApply. handler_paths; unfold run_shape; simpl; same_keys.
  - unfold tofuDestroy. handler_paths; unfold run_shape; simpl; same_keys.
  - unfold tofuPlan. handler_paths; (split; [done|]); eexists; split; reflexivity.
  - unfold tofuPlanDeny. handler_paths; by unfold cancel_shape.
Qed.

(** C9 (as stated) fails: the plan endpoint answers 200 with a body that
    has neither [command] nor [deploymentId], [stdout], [combined] or a
    top-level [summary]. *)
Lemma plan_response_has_another_shape :
  exists resp L',
    tofuPlan addDeploymentStep (Demo.world (Demo.exits 0)) Demo.request
      Demo.ledger = Replied resp L' /\
    status resp = 200 /\
    keys (body resp)
    = ["stepName"; "humanReadable"; "exitCode"; "stderr"; "logFileContent";
       "rawFormat"]%string /\
    ~ step_shape (body resp).
Proof.
  eexists _, _. split; [vm_compute; reflexivity|]. split; [reflexivity|].
  split; [reflexivity|].
  intros [H|H]; apply Permutation_length in H; discriminate H.
Qed.

(** An init, an apply and a plan on the deployment of the example: the
    keys of the three bodies, in the order the handlers write them. *)
Lemma response_shapes_witness :
  let w := Demo.world (Demo.exits 0) in
  exists r1 L1 r2 L2 r3 L3,
    tofuInit w Demo.request Demo.ledger = Replied r1 L1 /\
    tofuApply addDeploymentStep w Demo.request Demo.ledger = Replied r2 L2 /\
    tofuPlan addDeploymentStep w Demo.request Demo.ledger = Replied r3 L3 /\
    init_shape (body r1) /\ run_shape (body r2) /\ plan_shape (body r3) /\
    keys (body r1)
    = ["command"; "deploymentId"; "deploymentName"; "logFileContent"; "exitCode";
       "stdout"; "stderr"; "combined"; "summary"]%string /\
    keys (body r2)
    = ["command"; "deploymentId"; "logFileContent"; "exitCode"; "stdout"; "stderr";
       "combined"; "summary"]%string /\
    (keys <$> field "humanReadable" (body r3)) = Some ["raw"; "summary"]%string.
Proof.
  intros w. eexists _, _, _, _, _, _.
  split; [vm_compute; reflexivity|]. split; [vm_compute; reflexivity|].
  split; [vm_compute; reflexivity|].
  split.
  { eapply (proj1 (response_shapes addDeploymentStep w Demo.request Demo.ledger _ _)).
    - vm_compute. reflexivity.
    - reflexivity. }
  split.
  { eapply (proj1 (proj2 (response_shapes addDeploymentStep w Demo.request
                            Demo.ledger _ _))).
    - vm_compute. reflexivity.
    - reflexivity. }
  split.
  { eapply (proj1 (proj2 (proj2 (proj2 (response_shapes addDeploymentStep w
                                          Demo.request Demo.ledger _ _))))).
    - vm_compute. reflexivity.
    - reflexivity. }
  split; [reflexivity|]. split; reflexivity.
Defined.

(** A plan that prints and exits with status 1 on the deployment of
    the example: the runner resolves with that status, the endpoint
    answers 200, and the deployment holds one step more, a plan step
    that is failed and carries the output. *)
Lemma exit_code_is_not_an_error_witness :
  let w := Demo.world (Demo.exits 1) in
  exists r resp L',
    runCommands (spawn w) (isoNow w) (lit "c0ffee") (lit "/workspace/shop/dev")
      [lit "tofu plan -input=false -no-color"] false = Resolved r /\
    exitCode r = Some 1%Z /\
    tofuPlan addDeploymentStep w Demo.request Demo.ledger = Replied resp L' /\
    status resp = 200 /\
    steps <$> L'
    = [[Demo.old_init; Demo.plan1; Demo.plan2;
        {| step := Plan; stepStatus := Failed;
           message := lit "Initializing the backend...Warning: slow";
           stepLogFileContent := []; timestamp := None |}]].
Proof.
  intros w. destruct exit_code_is_not_an_error as (Hclose & _ & Hend & _ & _).
  destruct (Hclose [Data Stdout (lit "Initializing the backend...");
                    Data Stderr (lit "Warning: slow")] (Some 1%Z) []
              ltac:(repeat constructor) (spawn w) (isoNow w)
              (lit "c0ffee") (lit "/workspace/shop/dev")
              [lit "tofu plan -input=false -no-color"] eq_refl) as (r & Hr & Hcode).
  destruct (Hend addDeploymentStep w Demo.request
              Demo.ledger (lit "dep-1") r eq_refl ltac:(discriminate))
    as (_ & Hplan & _ & _).
  assert (Hruns : runs w Demo.request (lit "tofu plan -input=false -no-color") r).
  { exists Demo.shop, (lit "c0ffee"). split_and!; try reflexivity. exact Hr. }
  destruct (Hplan Hruns
              [{| deploymentId := lit "dep-1"; projectId := lit "p1"; spaceId := lit "dev";
                  deploymentName := lit "shop-dev-1";
                  steps := [Demo.old_init; Demo.plan1; Demo.plan2; outcome_step Plan r];
                  startedAt := 1735780000000 |}] eq_refl)
    as (resp & Hcall & Hstatus).
  exists r, resp. eexists. split_and!; [exact Hr|exact Hcode|exact Hcall|exact Hstatus|].
  clear -Hr. vm_compute in Hr. injection Hr as <-. reflexivity.
Defined.

Lemma addSteps_recorded id ss (L : Collection) i d :
  first_with_id id L i d ->
  exists L' d',
    addSteps id ss L = inl L' /\ first_with_id id L' i d' /\
    steps d' = steps d ++ ss /\ same_header d d' /\ others_kept i L L'.
Proof.
  intros Hfirst. pose proof Hfirst as Hfind%first_with_id_find.
  eexists _, _. refine (conj (addSteps_known id ss L i d Hfind) (conj _ (conj _ (conj _ _)))).
  - apply first_with_id_find, (list_find_insert_same _ _ _ _ _ Hfind).
    by destruct Hfirst as (_ & Hd & _).
  - done.
  - done.
  - split; [by rewrite length_insert|]. intros k Hk. by rewrite list_lookup_insert_ne.
Qed.

(** C5. [addDeploymentStep], as the specification describes it: on a
    deployment that no document carries it fails with NotFound; on a
    known one, calling it once for each step of a sequence [ss] leaves
    the deployment with the steps it had followed by all of [ss], in
    order, so that nothing is replaced or removed, the rest of the
    deployment and the other documents stay as they were, and N calls
    with steps of kind plan add N plan entries.  [tofuPlan], [tofuApply]
    and [tofuDestroy], run on a known deployment with that repository,
    answer 200 and append the one step of their outcome. *)
Theorem addDeploymentStep_accumulates id (L : Collection) :
  (unknown_id id L ->
     forall s, exists msg, addDeploymentStep id s L = inr (NotFound msg)) /\
  (forall i d ss, first_with_id id L i d ->
     exists L' d',
       addSteps id ss L = inl L' /\ L' !! i = Some d' /\
       steps d' = steps d ++ ss /\ same_header d d' /\ others_kept i L L' /\
       (Forall (fun s => step s = Plan) ss ->
          length (filter (fun s => step s = Plan) (steps d'))
          = (length (filter (fun s => step s = Plan) (steps d)) + length ss)%nat)) /\
  (forall w req r i d,
     body_deploymentId req = Some id -> id <> [] ->
     first_with_id id L i d ->
     (runs w req (lit "tofu plan -input=false -no-color") r ->
      exists resp L' d',
        tofuPlan addDeploymentStep w req L = Replied resp L' /\ status resp = 200 /\
        L' !! i = Some d' /\ steps d' = steps d ++ [outcome_step Plan r] /\
        others_kept i L L') /\
     (runs w req (lit "tofu apply -auto-approve -input=false -no-color") r ->
      exists resp L' d',
        tofuApply addDeploymentStep w req L = Replied resp L' /\ status resp = 200 /\
        L' !! i = Some d' /\ steps d' = steps d ++ [apply_outcome_step r] /\
        others_kept i L L') /\
     (runs w req (lit "tofu destroy -auto-approve -input=false -no-color") r ->
      exists resp L' d',
        tofuDestroy addDeploymentStep w req L = Replied resp L' /\ status resp = 200 /\
        L' !! i = Some d' /\ steps d' = steps d ++ [outcome_step Destroy r] /\
        others_kept i L L')).
Proof.
  split; [|split].
  - intros Hnone%unknown_id_find s. unfold addDeploymentStep.
    rewrite (updateOne_missing _ _ _ Hnone). eauto.
  - intros i d ss Hfirst.
    destruct (addSteps_recorded id ss L i d Hfirst)
      as (L' & d' & Hadd & (Hi & _) & Hsteps & Hhead & Hkept).
    exists L', d'. refine (conj Hadd (conj Hi (conj Hsteps (conj Hhead (conj Hkept _))))).
    intros Hall. rewrite Hsteps, filter_app, length_app. f_equal.
    clear -Hall. induction Hall as [|s ss' Hs _ IH]; [done|].
    rewrite filter_cons. case_decide; [|done]. simpl. by f_equal.
  - intros w req r i d Hid Hne Hfirst.
    assert (Hone : forall s, exists L' d',
               addDeploymentStep id s L = inl L' /\ L' !! i = Some d' /\
               steps d' = steps d ++ [s] /\ others_kept i L L').
    { intros s. destruct (addSteps_recorded id [s] L i d Hfirst)
        as (L' & d' & Hadd & (Hi & _) & Hsteps & _ & Hkept).
      exists L', d'. split; [|done]. simpl in Hadd.
      by destruct (addDeploymentStep id s L). }
    split; [|split]; intros Hr.
    + destruct (Hone (outcome_step Plan r)) as (L' & d' & Hadd & Hi & Hsteps & Hkept).
      rewrite <- (step_from_outcome _ _ _ _ _ Hr) in Hadd.
      destruct (tofuPlan_runs addDeploymentStep w req L r id Hr Hid Hne _ Hadd)
        as (resp & Hcall & Hst). by exists resp, L', d'.
    + destruct (Hone (apply_outcome_step r)) as (L' & d' & Hadd & Hi & Hsteps & Hkept).
      rewrite <- (apply_step_from_outcome _ _ _ _ Hr) in Hadd.
      destruct (tofuApply_runs addDeploymentStep w req L r id Hr Hid Hne _ Hadd)
        as (resp & Hcall & Hst). by exists resp, L', d'.
    + destruct (Hone (outcome_step Destroy r)) as (L' & d' & Hadd & Hi & Hsteps & Hkept).
      rewrite <- (step_from_outcome _ _ _ _ _ Hr) in Hadd.
      destruct (tofuDestroy_runs addDeploymentStep w req L r id Hr Hid Hne _ Hadd)
        as (resp & Hcall & Hst). by exists resp, L', d'.
Qed.

(** Two plan steps appended to the deployment of the example, which
    holds an init step and two plan steps: five steps, four of them plan
    steps, the old ones first; and an id that no document carries. *)
Lemma addDeploymentStep_accumulates_witness :
  (exists msg, addDeploymentStep (lit "dep-9") Demo.plan1 Demo.ledger
               = inr (NotFound msg)) /\
  exists L',
    addSteps (lit "dep-1") [Demo.plan2; Demo.plan1] Demo.ledger = inl L' /\
    steps <$> L' = [[Demo.old_init; Demo.plan1; Demo.plan2; Demo.plan2; Demo.plan1]] /\
    (fun d => length (filter (fun s => step s = Plan) (steps d))) <$> L' = [4%nat].
Proof.
  split.
  - apply (proj1 (addDeploymentStep_accumulates (lit "dep-9") Demo.ledger)).
    repeat constructor. discriminate.
  - destruct (proj1 (proj2 (addDeploymentStep_accumulates (lit "dep-1") Demo.ledger))
                0%nat Demo.dep1 [Demo.plan2; Demo.plan1])
      as (L' & d' & Hadd & Hi & Hsteps & _ & (Hlen & _) & Hcount).
    { split_and!; [reflexivity..|]. intros j d0 _ _. lia. }
    exists L'. split; [exact Hadd|].
    destruct L' as [|x [|y L']]; try discriminate Hlen. injection Hi as ->.
    split.
    + simpl. rewrite Hsteps. reflexivity.
    + simpl. rewrite Hcount; [reflexivity|]. repeat constructor.
Defined.

End HandlerFacts.

(** * Further properties *)

(** ** Lines *)

Section LineMore.

(** X1. Splitting a text at a separator loses nothing and invents
    nothing: there is always at least one line, no line contains the
    separator, and the lines joined with the separator are the text. *)
Theorem split_on_join sep (s : jsstring) :
  split_on sep s <> [] /\
  Forall (fun l => sep ∉ l) (split_on sep s) /\
  join [sep] (split_on sep s) = s.
Proof.
  split_and!; [apply split_on_nonempty|apply split_on_lines|].
  induction s as [|c s IH]; simpl; [done|].
  destruct (N.eqb_spec c sep) as [->|Hne].
  - pose proof (split_on_nonempty sep s).
    destruct (split_on sep s) as [|l ls] eqn:Hs; [done|]. simpl. by rewrite <- IH.
  - pose proof (split_on_nonempty sep s).
    destruct (split_on sep s) as [|l ls] eqn:Hs; [done|].
    destruct ls as [|l' ls]; simpl in *; by rewrite <- IH.
Qed.

(** Every line is a piece of the text. *)
Lemma split_on_substring sep s line :
  line ∈ split_on sep s -> substring line s.
Proof.
  revert line. induction s as [|c s IH]; intros line; simpl.
  - intros ->%list_elem_of_singleton. by exists [], [].
  - destruct (N.eqb_spec c sep) as [->|Hne].
    + intros [->|Hin]%elem_of_cons.
      * by exists [], (sep :: s).
      * destruct (IH _ Hin) as (pre & suf & ->). by exists (sep :: pre), suf.
    + pose proof (split_on_nonempty sep s).
      destruct (split_on sep s) as [|l ls] eqn:Hs; [done|].
      intros [->|Hin]%elem_of_cons.
      * destruct (IH l ltac:(left)) as (pre & suf & Heq).
        (* the first line starts the text *)
        assert (Hpre : exists suf', s = l ++ suf').
        { clear -Hs. revert l ls Hs. induction s as [|d s IHs]; intros l ls; simpl.
          - intros [= <- <-]. by exists [].
          - destruct (d =? sep); [intros [= <- <-]; by eexists|].
            pose proof (split_on_nonempty sep s).
            destruct (split_on sep s) as [|l0 ls0]; [done|]. intros [= <- <-].
            destruct (IHs l0 ls0 eq_refl) as (suf' & ->). by exists suf'. }
        destruct Hpre as (suf' & ->). by exists [], suf'.
      * destruct (IH line ltac:(by right)) as (pre & suf & ->). by exists (c :: pre), suf.
Qed.

End LineMore.

(** ** The matcher with classes *)

Section ClassRegexFacts.

Lemma cmatch_here_sound r : forall s caps0 caps,
  cmatch_here r s caps0 = Some caps ->
  exists m suf caps1, s = m ++ suf /\ CMatches r m caps1 /\ caps = caps0 ++ caps1.
Proof.
  induction r as [|a r IH]; intros s caps0 caps; simpl.
  - intros [= <-]. exists [], s, []. rewrite app_nil_r. split_and!; [done|constructor|done].
  - destruct a as [l|cls|cls captured].
    + destruct (match_lit l s) as [s'|] eqn:Hl; [|done].
      apply match_lit_Some in Hl as ->. intros (m & suf & c1 & -> & Hm & ->)%IH.
      exists (l ++ m), suf, c1. rewrite <- app_assoc. split_and!; [done|by constructor|done].
    + destruct s as [|c s]; [done|]. destruct (cls c) eqn:Hc; [|done].
      intros (m & suf & c1 & -> & Hm & ->)%IH.
      exists (c :: m), suf, c1. split_and!; [done|by constructor|done].
    + intros (w & rest & -> & Hne & Hw & (m & suf & c1 & -> & Hm & ->)%IH)%match_plus_sound.
      exists (w ++ m), suf, (if captured then w :: c1 else c1).
      rewrite <- app_assoc. split_and!; [done|by constructor|].
      destruct captured; [by rewrite <- app_assoc|done].
Qed.

Lemma cmatch_here_complete r m caps1 :
  CMatches r m caps1 -> forall suf caps0, is_Some (cmatch_here r (m ++ suf) caps0).
Proof.
  induction 1 as [|l r m caps Hm IH|cls c r m caps Hc Hm IH
                  |cls captured w r m caps Hne Hw Hm IH]; intros suf caps0; simpl.
  - eauto.
  - rewrite <- app_assoc. rewrite (proj2 (match_lit_Some l _ _) eq_refl). apply IH.
  - rewrite Hc. apply IH.
  - rewrite <- app_assoc. apply match_plus_complete; [done..|]. apply IH.
Qed.

Lemma CMatches_starts_lit c l r m caps :
  CMatches (CLit (c :: l) :: r) m caps -> exists x, m = c :: x.
Proof. inversion 1; subst. by eexists. Qed.

Lemma CMatches_det r : lit_separated r = true ->
  forall m c m' c' suf suf',
    CMatches r m c -> CMatches r m' c' -> m ++ suf = m' ++ suf' -> m = m' /\ c = c'.
Proof.
  induction r as [|a r IH]; intros Hsep m c m' c' suf suf' H1 H2 Heq.
  - inversion H1; inversion H2; done.
  - destruct a as [l|cls|cls captured]; simpl in Hsep.
    + inversion H1 as [|? ? m1 ? Hm1| |]; inversion H2 as [|? ? m2 ? Hm2| |]; subst.
      rewrite <- !app_assoc in Heq. apply app_inv_head in Heq.
      destruct (IH Hsep _ _ _ _ _ _ Hm1 Hm2 Heq) as [-> ->]. done.
    + inversion H1 as [| |? c1 ? m1 ? Hc1 Hm1|]; inversion H2 as [| |? c2 ? m2 ? Hc2 Hm2|]; subst.
      simpl in Heq. injection Heq as -> Heq.
      destruct (IH Hsep _ _ _ _ _ _ Hm1 Hm2 Heq) as [-> ->]. done.
    + apply andb_prop in Hsep as [Hout Hsep].
      destruct r as [|[[|c0 l0]| |] r]; try done. apply negb_true_iff in Hout.
      inversion H1 as [| | |? ? w1 ? m1 k1 _ Hw1 Hm1]; subst.
      inversion H2 as [| | |? ? w2 ? m2 k2 _ Hw2 Hm2]; subst.
      destruct (CMatches_starts_lit _ _ _ _ _ Hm1) as (x1 & ->).
      destruct (CMatches_starts_lit _ _ _ _ _ Hm2) as (x2 & ->).
      rewrite <- !app_assoc in Heq. simpl in Heq.
      destruct (run_forced _ _ _ _ _ _ _ Hw1 Hw2 Hout Hout Heq) as [-> Heq'].
      destruct (IH Hsep _ _ _ _ suf suf' Hm1 Hm2 Heq') as [-> ->]. done.
Qed.

Lemma csearch_CLeftmost r s caps : csearch r s = Some caps -> CLeftmost r s caps.
Proof.
  revert caps. induction s as [|c s IH]; intros caps; simpl.
  - destruct (cmatch_here r [] []) as [c0|] eqn:Hh; [|done]. intros [= <-].
    apply cmatch_here_sound in Hh as (m & suf & c1 & Hs & Hm & ->).
    exists []. split; [by exists m, suf|]. simpl. lia.
  - destruct (cmatch_here r (c :: s) []) as [c0|] eqn:Hh.
    + intros [= <-]. apply cmatch_here_sound in Hh as (m & suf & c1 & Hs & Hm & ->).
      exists []. split; [by exists m, suf|]. simpl. lia.
    + intros (pre & (m & suf & -> & Hm) & Hmin)%IH. exists (c :: pre). split.
      * by exists m, suf.
      * intros pre' caps' (m' & suf' & Heq & Hm'). destruct pre' as [|c' pre'].
        { simpl in Heq. rewrite Heq in Hh.
          destruct (cmatch_here_complete _ _ _ Hm' suf' []) as [? Hx]. congruence. }
        simpl in Heq. injection Heq as -> Heq. simpl.
        pose proof (Hmin pre' caps' ltac:(by exists m', suf')). lia.
Qed.

Lemma csearch_None r s : csearch r s = None -> forall pre caps, ~ COccursAt r s pre caps.
Proof.
  induction s as [|c s IH]; simpl.
  - destruct (cmatch_here r [] []) eqn:Hh; [done|]. intros _ pre caps (m & suf & Heq & Hm).
    symmetry in Heq. apply app_eq_nil in Heq as [-> [-> ->]%app_eq_nil].
    destruct (cmatch_here_complete _ _ _ Hm [] []) as [? Hx]. simpl in Hx. congruence.
  - destruct (cmatch_here r (c :: s) []) eqn:Hh; [done|].
    intros Hs pre caps (m & suf & Heq & Hm). destruct pre as [|c' pre].
    + simpl in Heq. rewrite Heq in Hh.
      destruct (cmatch_here_complete _ _ _ Hm suf []) as [? Hx]. congruence.
    + simpl in Heq. injection Heq as -> Heq. apply (IH Hs pre caps). by exists m, suf.
Qed.

Lemma CLeftmost_csearch r s caps :
  lit_separated r = true -> CLeftmost r s caps -> csearch r s = Some caps.
Proof.
  intros Hsep (pre & Hocc & Hmin). destruct (csearch r s) as [caps'|] eqn:Hs.
  - f_equal. apply csearch_CLeftmost in Hs as (pre' & Hocc' & Hmin').
    pose proof (Hmin _ _ Hocc'). pose proof (Hmin' _ _ Hocc).
    destruct Hocc as (m & suf & Hs & Hm). destruct Hocc' as (m' & suf' & Hs' & Hm').
    assert (pre = pre') as <-.
    { rewrite Hs in Hs'. apply (f_equal (take (length pre))) in Hs'.
      rewrite take_app_length in Hs'. rewrite Hs'.
      replace (length pre) with (length pre') by lia. by rewrite take_app_length. }
    rewrite Hs in Hs'. apply app_inv_head in Hs'.
    by destruct (CMatches_det r Hsep _ _ _ _ _ _ Hm' Hm (eq_sym Hs')).
  - destruct (csearch_None _ _ Hs pre caps Hocc).
Qed.

(** What the resource expression matches. *)
Lemma resource_re_Matches m caps :
  CMatches resource_re m caps <->
  exists w2 ty w3 nm,
    blank w2 /\ quotable ty /\ blank w3 /\ quotable nm /\
    m = lit "resource" ++ w2 ++ [34] ++ ty ++ [34] ++ w3 ++ [34] ++ nm ++ [34] /\
    caps = [ty; nm].
Proof.
  assert (Hq : forall x, Forall (fun c => not_quote c = true) x <-> 34 ∉ x).
  { intros x. rewrite Forall_forall. unfold not_quote. split.
    - intros Hx Hin. specialize (Hx _ Hin). done.
    - intros Hx c Hc. apply negb_true_iff, N.eqb_neq. intros ->. done. }
  unfold resource_re. split.
  - intros H.
    inversion H as [|? ? m1 ? H1| |]; subst; clear H.
    inversion H1 as [| | |? ? w2 ? m2 k2 Hn2 Hw2 H2]; subst; clear H1.
    inversion H2 as [|? ? m3 ? H3| |]; subst; clear H2.
    inversion H3 as [| | |? ? ty ? m4 k4 Hn4 Hw4 H4]; subst; clear H3.
    inversion H4 as [|? ? m5 ? H5| |]; subst; clear H4.
    inversion H5 as [| | |? ? w3 ? m6 k6 Hn6 Hw6 H6]; subst; clear H5.
    inversion H6 as [|? ? m7 ? H7| |]; subst; clear H6.
    inversion H7 as [| | |? ? nm ? m8 k8 Hn8 Hw8 H8]; subst; clear H7.
    inversion H8 as [|? ? m9 ? H9| |]; subst; clear H8.
    inversion H9; subst; clear H9.
    exists w2, ty, w3, nm. split_and!; try done.
    + split; [done|]. by apply Hq.
    + split; [done|]. by apply Hq.
  - intros (w2 & ty & w3 & nm & [? ?] & [? Hty] & [? ?] & [? Hnm] & -> & ->).
    apply Hq in Hty, Hnm.
    apply CM_lit. apply (CM_plus is_space false); [done..|].
    apply (CM_lit [34]). apply (CM_plus not_quote true); [done..|].
    apply (CM_lit [34]). apply (CM_plus is_space false); [done..|].
    apply (CM_lit [34]). apply (CM_plus not_quote true nm _ _ []); [done..|].
    rewrite <- (app_nil_r [34]) at 1. apply (CM_lit [34]). constructor.
Qed.

End ClassRegexFacts.

(** ** The two summarizers *)

Section SummarizerMore.

Lemma scan_lines_app a b :
  scan_lines (a ++ b) = match scan_lines a with Some s => Some s | None => scan_lines b end.
Proof.
  induction a as [|l a IH]; simpl; [done|]. by destruct (summary_of_line l).
Qed.

(** X2. The first line with a pattern wins: the summary of a text
    followed by a line break and more text is the summary of the text
    when it has one, and the summary of what follows otherwise. *)
Theorem parseTofuSummary_app (text more : jsstring) :
  parseTofuSummary (text ++ 10 :: more) =
  match parseTofuSummary text with
  | Some s => Some s
  | None => parseTofuSummary more
  end.
Proof. unfold parseTofuSummary. by rewrite split_on_app, scan_lines_app. Qed.

Lemma blank_no_newline_free w : blank w -> Forall (fun c => is_space c = true) w.
Proof. by intros [_ ?]. Qed.

Lemma number_no_newline d : number d -> 10 ∉ d.
Proof.
  intros [_ Hd] Hin. rewrite Forall_forall in Hd. specialize (Hd _ Hin). done.
Qed.

Lemma plan_tally_Matches w1 a w2 w3 b w4 w5 c w6 :
  blank w1 -> number a -> blank w2 -> blank w3 -> number b -> blank w4 ->
  blank w5 -> number c -> blank w6 ->
  Matches plan_re (plan_tally w1 a w2 w3 b w4 w5 c w6) [a; b; c].
Proof.
  intros [? ?] [? ?] [? ?] [? ?] [? ?] [? ?] [? ?] [? ?] [? ?].
  unfold plan_tally, plan_re.
  apply M_lit, M_spaces; [done..|]. apply M_digits; [done..|].
  apply M_spaces; [done..|]. apply M_lit, M_spaces; [done..|].
  apply M_digits; [done..|]. apply M_spaces; [done..|].
  apply M_lit, M_spaces; [done..|]. apply M_digits; [done..|].
  apply M_spaces; [done..|].
  rewrite <- (app_nil_r (lit "to destroy")). apply M_lit. constructor.
Qed.

(** An occurrence at the very front is the leftmost one. *)
Lemma Leftmost_front r m suf caps : Matches r m caps -> Leftmost r (m ++ suf) caps.
Proof.
  intros Hm. exists []. split; [by exists m, suf|]. intros. simpl. lia.
Qed.

(** X3. A line that starts with the tally, written with any non-empty
    runs of white space other than line breaks between the words and any
    decimal numbers, gives the plan record, whatever follows it in the
    text; its three fields are the Number values of the three numbers:
    for each the nearest double of what the digits denote. *)
Theorem parseTofuSummary_plan_tally w1 a w2 w3 b w4 w5 c w6 (rest : jsstring) :
  blank w1 -> number a -> blank w2 -> blank w3 -> number b -> blank w4 ->
  blank w5 -> number c -> blank w6 ->
  10 ∉ w1 ++ w2 ++ w3 ++ w4 ++ w5 ++ w6 ->
  exists x y z,
    parseTofuSummary (plan_tally w1 a w2 w3 b w4 w5 c w6 ++ rest)
    = Some (PlanSummary x y z) /\
    Rounded (decimal a) x /\ Rounded (decimal b) y /\ Rounded (decimal c) z.
Proof.
  intros B1 Na B2 B3 Nb B4 B5 Nc B6 Hnl.
  rewrite !not_elem_of_app in Hnl. destruct Hnl as (? & ? & ? & ? & ? & ?).
  assert (Hx : 10 ∉ plan_tally w1 a w2 w3 b w4 w5 c w6).
  { unfold plan_tally. rewrite !not_elem_of_app.
    pose proof (number_no_newline _ Na). pose proof (number_no_newline _ Nb).
    pose proof (number_no_newline _ Nc).
    split_and!; try done; by apply (bool_decide_unpack _). }
  destruct (split_on_glue 10 _ rest Hx) as (l & ls & _ & Hsplit).
  exists (parseInt10 a), (parseInt10 b), (parseInt10 c).
  split; [|by split_and!; apply parseInt10_Rounded].
  unfold parseTofuSummary. rewrite Hsplit. cbn [scan_lines].
  rewrite (first_pattern_summary _ (PlanSummary (parseInt10 a) (parseInt10 b) (parseInt10 c))).
  - done.
  - unfold first_pattern. exists a, b, c.
    split; [|by split_and!; apply parseInt10_Rounded].
    apply Leftmost_front. by apply plan_tally_Matches.
Qed.

(** Twelve, a number of seventeen digits that no double holds, and
    seven with leading zeros. *)
Lemma parseTofuSummary_plan_tally_witness :
  parseTofuSummary (plan_tally [32; 9] (lit "12") [32] [32] (lit "9007199254740993")
                      [32; 32] [32] (lit "007") [32] ++ lit ". Done.")
  = Some (PlanSummary 12 9007199254740992 7).
Proof.
  destruct (parseTofuSummary_plan_tally [32; 9] (lit "12") [32] [32]
              (lit "9007199254740993") [32; 32] [32] (lit "007") [32] (lit ". Done."))
    as (x & y & z & Hp & Hx%to_double_Rounded & Hy%to_double_Rounded
        & Hz%to_double_Rounded);
    try (split; [discriminate|repeat constructor]).
  { by apply (bool_decide_unpack _). }
  rewrite Hp, Hx, Hy, Hz. vm_compute. reflexivity.
Defined.

Lemma OccursAt_substring r line text pre caps :
  substring line text -> OccursAt r line pre caps -> Occurs r text.
Proof.
  intros (p & q & ->) (m & suf & -> & Hm). exists (p ++ pre), caps, m, (suf ++ q).
  split; [|done]. by rewrite <- !app_assoc.
Qed.

Lemma search_plan_groups text caps :
  search plan_re text = Some caps -> exists a b c, caps = [a; b; c].
Proof.
  intros Hl%search_Leftmost. apply Leftmost_groups in Hl.
  destruct caps as [|a [|b [|c [|? ?]]]]; try done. by exists a, b, c.
Qed.

(** X4. The tally of [parsePlanSummaryFromText] is read from the whole
    text: [changes] is absent exactly when the plan pattern occurs
    nowhere in the text, it holds the Number values of the numbers of
    the leftmost occurrence otherwise (for each the nearest double of
    what the digits denote), and it is present whenever
    [parseTofuSummary] returns a plan record for the same text. *)
Theorem plan_text_changes (text : jsstring) :
  (changes (parsePlanSummaryFromText text) = None <-> ~ Occurs plan_re text) /\
  (forall a b c, Leftmost plan_re text [a; b; c] ->
     exists x y z,
       changes (parsePlanSummaryFromText text)
       = Some {| add := x; change := y; destroy := z |} /\
       Rounded (decimal a) x /\ Rounded (decimal b) y /\ Rounded (decimal c) z) /\
  (forall x y z, parseTofuSummary text = Some (PlanSummary x y z) ->
     is_Some (changes (parsePlanSummaryFromText text))).
Proof.
  assert (Hsome : Occurs plan_re text -> is_Some (changes (parsePlanSummaryFromText text))).
  { intros Hocc. simpl. destruct (search plan_re text) as [caps|] eqn:Hs.
    - destruct (search_plan_groups _ _ Hs) as (a & b & c & ->). eauto.
    - by apply search_None in Hs. }
  split_and!.
  - split.
    + intros Hnone Hocc. apply Hsome in Hocc as [t Ht]. congruence.
    + intros Hno. simpl. destruct (search plan_re text) as [caps|] eqn:Hs; [|done].
      apply search_Leftmost in Hs as (pre & Hocc & _). destruct Hno. by exists pre, caps.
  - intros a b c Hl. exists (parseInt10 a), (parseInt10 b), (parseInt10 c).
    split; [|by split_and!; apply parseInt10_Rounded].
    simpl. by rewrite (Leftmost_search plan_re text _ eq_refl Hl).
  - intros x y z Hs. apply Hsome.
    pose proof (scan_lines_spec (split_on 10 text)) as Hspec.
    fold (parseTofuSummary text) in Hspec. rewrite Hs in Hspec.
    destruct Hspec as (before & line & after & Hsplit & _ & Hf). simpl in Hf.
    destruct Hf as (a & b & c & (pre & Hocc & _) & _).
    eapply OccursAt_substring; [|exact Hocc].
    apply (split_on_substring 10). rewrite Hsplit. apply elem_of_app. right. left.
Qed.

Lemma plan_text_changes_witness :
  changes (parsePlanSummaryFromText
             (lit "Terraform will perform the following actions:
Plan: 2 to add, 0 to change, 1 to destroy."))
  = Some {| add := 2; change := 0; destroy := 1 |}.
Proof.
  destruct (proj2 (proj2 (plan_text_changes
     (lit "Terraform will perform the following actions:
Plan: 2 to add, 0 to change, 1 to destroy."))) 2 0 1 eq_refl) as [t Ht].
  rewrite Ht. f_equal. vm_compute in Ht. by injection Ht as <-.
Defined.

(** X5. [parsePlanSummaryFromText] reads a tally even when it is broken
    across lines: for a text that starts with the tally, written with
    any non-empty runs of white space, line breaks included, [changes]
    holds the Number values of its numbers (for each the nearest double
    of what the digits denote). *)
Theorem plan_text_tally_across_lines w1 a w2 w3 b w4 w5 c w6 (rest : jsstring) :
  blank w1 -> number a -> blank w2 -> blank w3 -> number b -> blank w4 ->
  blank w5 -> number c -> blank w6 ->
  exists x y z,
    changes (parsePlanSummaryFromText (plan_tally w1 a w2 w3 b w4 w5 c w6 ++ rest))
    = Some {| add := x; change := y; destroy := z |} /\
    Rounded (decimal a) x /\ Rounded (decimal b) y /\ Rounded (decimal c) z.
Proof.
  intros B1 Na B2 B3 Nb B4 B5 Nc B6.
  exists (parseInt10 a), (parseInt10 b), (parseInt10 c).
  split; [|by split_and!; apply parseInt10_Rounded].
  unfold parsePlanSummaryFromText. cbn [changes].
  rewrite (Leftmost_search plan_re _ [a; b; c] eq_refl); [done|].
  apply Leftmost_front. by apply plan_tally_Matches.
Qed.

(** The tally with a line break after every word, and sixteen nines
    as its first number: the extractor reads it, with ten to the
    sixteenth for the nines; the line scanner does not. *)
Lemma plan_text_tally_across_lines_witness :
  let text := plan_tally [10] (lit "9999999999999999") [10] [10] (lit "1") [10] [10]
                (lit "2") [10] in
  changes (parsePlanSummaryFromText text)
  = Some {| add := 10000000000000000; change := 1; destroy := 2 |} /\
  parseTofuSummary text = None.
Proof.
  split; [|by vm_compute].
  destruct (plan_text_tally_across_lines [10] (lit "9999999999999999") [10] [10]
              (lit "1") [10] [10] (lit "2") [10] [])
    as (x & y & z & Hp & Hx%to_double_Rounded & Hy%to_double_Rounded
        & Hz%to_double_Rounded);
    try (split; [discriminate|repeat constructor]).
  rewrite app_nil_r in Hp. rewrite Hp, Hx, Hy, Hz. vm_compute. reflexivity.
Defined.

Lemma includes_substring needle s : includes needle s = true <-> substring needle s.
Proof.
  induction s as [|c s IH]; simpl.
  - destruct (match_lit needle []) as [s'|] eqn:Hl.
    + apply match_lit_Some in Hl. split; [|done]. intros _. by exists [], s'.
    + split; [done|]. intros (pre & suf & Heq). symmetry in Heq.
      apply app_eq_nil in Heq as [_ [Hn _]%app_eq_nil]. by rewrite Hn in Hl.
  - destruct (match_lit needle (c :: s)) as [s'|] eqn:Hl.
    + apply match_lit_Some in Hl. split; [|done]. intros _. by exists [], s'.
    + rewrite IH. split.
      * intros (pre & suf & ->). by exists (c :: pre), suf.
      * intros (pre & suf & Heq). destruct pre as [|c' pre].
        { simpl in Heq. rewrite Heq in Hl.
          by rewrite (proj2 (match_lit_Some needle _ suf) eq_refl) in Hl. }
        simpl in Heq. injection Heq as -> ->. by exists pre, suf.
Qed.

(** X6. The flag [no_changes] is set exactly when the phrase
    [No changes] stands somewhere in the text, inside a line or not, and
    whatever the text says elsewhere. *)
Theorem plan_text_no_changes (text : jsstring) :
  no_changes (parsePlanSummaryFromText text) = true <-> substring (lit "No changes") text.
Proof. simpl. apply includes_substring. Qed.

Lemma plan_text_no_changes_witness :
  no_changes (parsePlanSummaryFromText
                (lit "No changes. Your infrastructure matches the configuration."))
  = true.
Proof.
  apply (proj2 (plan_text_no_changes
                  (lit "No changes. Your infrastructure matches the configuration."))).
  by exists [], (lit ". Your infrastructure matches the configuration.").
Defined.

Lemma decimal_zeros k d : decimal (replicate k 48 ++ d) = decimal d.
Proof. induction k as [|k IH]; [done|]. simpl replicate. cbn [app decimal]. lia. Qed.

Lemma round53_small n : n <= 2 ^ 53 -> round53 n = n.
Proof.
  intros Hn. destruct (N.eq_dec n (2 ^ 53)) as [->|Hne]; [by vm_compute|].
  unfold round53. destruct (N.ltb_spec n (2 ^ 53)); [done|lia].
Qed.

(** From the midpoint between the largest double and 2^1024 on, and
    only from there, the nearest integer of 53 significant bits is
    2^1024 or more. *)
Lemma round53_overflow n : 2 ^ 1024 <= round53 n <-> 2 ^ 1024 - 2 ^ 970 <= n.
Proof.
  assert (2 ^ 53 < 2 ^ 1024 - 2 ^ 970) as Hbig by (by vm_compute).
  unfold round53. destruct (N.ltb_spec n (2 ^ 53)) as [Hlt|Hge]; [lia|].
  destruct (neighbours n Hge) as (He & [Hlo Hhi] & Hn & Hr & Hhalf).
  set (e := N.log2 n - 52) in *. set (q := n / 2 ^ e) in *.
  set (r := n mod 2 ^ e) in *. set (half := 2 ^ (e - 1)) in *.
  assert (Hup : forall q', q' * 2 ^ 971 <= q' * 2 ^ e \/ e < 971).
  { intros q'. destruct (N.le_gt_cases 971 e); [left|by right].
    apply N.mul_le_mono_l, N.pow_le_mono_r; lia. }
  destruct (N.lt_trichotomy e 971) as [Hlt|[Heq|Hgt]].
  - (* everything stays below 2^1024 *)
    assert (2 ^ e <= 2 ^ 970) as Hpe by (apply N.pow_le_mono_r; lia).
    assert ((q + 1) * 2 ^ e <= 2 ^ 53 * 2 ^ 970) as Hb.
    { apply N.mul_le_mono; lia. }
    assert (2 ^ 53 * 2 ^ 970 < 2 ^ 1024 - 2 ^ 970) as Hc by (by vm_compute).
    assert (q * 2 ^ e <= (q + 1) * 2 ^ e) by lia.
    destruct ((half <? r) || ((r =? half) && N.odd q)); lia.
  - (* the last binade *)
    assert (half = 2 ^ 970) as Hh by (unfold half; by rewrite Heq).
    rewrite Heq in *. clear Hup.
    assert (2 ^ 1024 = 2 ^ 53 * 2 ^ 971) as H1 by (by vm_compute).
    assert (2 ^ 971 = 2 * 2 ^ 970) as H2 by (by vm_compute).
    destruct (N.eq_dec q (2 ^ 53 - 1)) as [Hq|Hq].
    + assert (N.odd q = true) as Hodd by (by rewrite Hq).
      rewrite Hodd, andb_true_r, Hh.
      destruct (N.ltb_spec (2 ^ 970) r); [simpl; lia|].
      destruct (N.eqb_spec r (2 ^ 970)); simpl; lia.
    + assert ((q + 1) * 2 ^ 971 <= (2 ^ 53 - 1) * 2 ^ 971) as Hb.
      { apply N.mul_le_mono_r. lia. }
      assert (q * 2 ^ 971 <= (q + 1) * 2 ^ 971) by lia.
      destruct ((half <? r) || ((r =? half) && N.odd q)); lia.
  - (* already 2^1024 or more *)
    assert (2 ^ 972 <= 2 ^ e) as Hpe by (apply N.pow_le_mono_r; lia).
    assert (2 ^ 52 * 2 ^ 972 <= q * 2 ^ e) as Hb by (apply N.mul_le_mono; lia).
    assert (2 ^ 1024 = 2 ^ 52 * 2 ^ 972) as H1 by (by vm_compute).
    assert (q * 2 ^ e <= (q + 1) * 2 ^ e) by lia.
    destruct ((half <? r) || ((r =? half) && N.odd q)); lia.
Qed.

(** X25. The numbers of a summary are read in base ten as Number
    values: for a non-empty run of decimal digits [parseInt] gives the
    nearest double of what the digits denote, a tie going to the even
    significand; that is the denoted integer itself up to 2^53,
    infinity exactly from 2^1024 - 2^970 on, and leading zeros do not
    count (there is no octal reading). *)
Theorem parseInt10_nearest_double (d : jsstring) :
  number d ->
  Rounded (decimal d) (parseInt10 d) /\
  (decimal d <= 2 ^ 53 -> parseInt10 d = Finite (decimal d)) /\
  (parseInt10 d = Infinity <-> 2 ^ 1024 - 2 ^ 970 <= decimal d) /\
  (forall k, parseInt10 (replicate k 48 ++ d) = parseInt10 d).
Proof.
  intros _. unfold parseInt10. split_and!.
  - apply to_double_Rounded. by rewrite mathInt_decimal.
  - intros Hd. rewrite mathInt_decimal. unfold to_double. rewrite round53_small by done.
    destruct (N.leb_spec (2 ^ 1024) (decimal d)) as [Hbig|]; [|done].
    assert (2 ^ 53 < 2 ^ 1024) by (by vm_compute). lia.
  - rewrite mathInt_decimal, <- round53_overflow. unfold to_double.
    destruct (N.leb_spec (2 ^ 1024) (round53 (decimal d))); split; done || lia.
  - intros k. by rewrite !mathInt_decimal, decimal_zeros.
Qed.

(** Seven with leading zeros; 2^53 + 1, which lies between two doubles
    and goes to the even one; sixteen nines, which go up to ten to the
    sixteenth. *)
Lemma parseInt10_nearest_double_witness :
  parseInt10 (lit "007") = Finite 7 /\
  parseInt10 (lit "9007199254740993") = Finite 9007199254740992 /\
  parseInt10 (lit "9999999999999999") = Finite 10000000000000000.
Proof.
  assert (Hn : forall d : jsstring,
             d <> [] -> forallb is_digit d = true -> number d).
  { intros d Hd Hall. split; [done|]. rewrite forallb_forall in Hall.
    apply Forall_forall. intros c Hc. by apply Hall, list_elem_of_In. }
  split_and!.
  - rewrite (proj1 (proj2 (parseInt10_nearest_double (lit "007")
                             (Hn (lit "007") ltac:(discriminate) eq_refl)))
               ltac:(by vm_compute)).
    by vm_compute.
  - pose proof (proj1 (parseInt10_nearest_double (lit "9007199254740993")
                         (Hn (lit "9007199254740993") ltac:(discriminate) eq_refl))) as Hr.
    apply to_double_Rounded in Hr. rewrite Hr. by vm_compute.
  - pose proof (proj1 (parseInt10_nearest_double (lit "9999999999999999")
                         (Hn (lit "9999999999999999") ltac:(discriminate) eq_refl))) as Hr.
    apply to_double_Rounded in Hr. rewrite Hr. by vm_compute.
Defined.

End SummarizerMore.

(** ** The resource lines of the plan extractor *)

Section ResourceLines.

(** Equal up to the bracketing of [++] and [::]. *)
Ltac reassoc :=
  repeat (progress (rewrite <- ?app_comm_cons, <- ?app_assoc)); reflexivity.

Lemma trimStart_app x c y :
  is_space c = false -> trimStart (x ++ c :: y) = trimStart x ++ c :: y.
Proof.
  intros Hc. induction x as [|d x IH]; simpl; [by rewrite Hc|]. by destruct (is_space d).
Qed.

Lemma trimStart_blank w : Forall (fun c => is_space c = true) w -> trimStart w = [].
Proof. induction 1 as [|c w Hc _ IH]; simpl; [done|]. by rewrite Hc. Qed.

Lemma trimEnd_app a c r :
  is_space c = false -> trimEnd (a ++ c :: r) = a ++ c :: trimEnd r.
Proof.
  intros Hc. unfold trimEnd. rewrite reverse_app, reverse_cons, <- app_assoc. simpl.
  rewrite (trimStart_app _ _ _ Hc), reverse_app, reverse_cons, reverse_involutive.
  by rewrite <- app_assoc.
Qed.

Lemma marker_not_space m : is_marker m = true -> is_space m = false.
Proof.
  unfold is_marker. rewrite !orb_true_iff, !N.eqb_eq. by intros [[-> | ->] | ->].
Qed.

Lemma trim_between ws0 a mid z rest :
  Forall (fun c => is_space c = true) ws0 -> is_space a = false -> is_space z = false ->
  trim (ws0 ++ (a :: mid ++ [z]) ++ rest) = (a :: mid ++ [z]) ++ trimEnd rest.
Proof.
  intros Hws Ha Hz. unfold trim.
  change ((a :: mid ++ [z]) ++ rest) with (a :: ((mid ++ [z]) ++ rest)).
  rewrite (trimStart_app ws0 a _ Ha), (trimStart_blank _ Hws), app_nil_l.
  rewrite <- app_assoc. change ([z] ++ rest) with (z :: rest).
  change (a :: mid ++ z :: rest) with ((a :: mid) ++ z :: rest).
  rewrite (trimEnd_app _ _ _ Hz). simpl. by rewrite <- app_assoc.
Qed.

(** Trimming a resource line with indentation before it and anything
    after it. *)
Lemma trim_resource_line ws0 m w1 w2 ty w3 nm rest :
  Forall (fun c => is_space c = true) ws0 -> is_marker m = true ->
  trim (ws0 ++ resource_line m w1 w2 ty w3 nm ++ rest)
  = resource_line m w1 w2 ty w3 nm ++ trimEnd rest.
Proof.
  intros Hws Hm.
  assert (Hshape : resource_line m w1 w2 ty w3 nm
                   = m :: (w1 ++ lit "resource" ++ w2 ++ [34] ++ ty ++ [34] ++ w3 ++ [34] ++ nm)
                          ++ [34]).
  { unfold resource_line. f_equal. by rewrite <- !app_assoc. }
  rewrite Hshape. apply trim_between; [done|by apply marker_not_space|done].
Qed.

Lemma resource_line_marker m w1 w2 ty w3 nm rest :
  is_marker m = true -> blank w1 -> blank w2 ->
  is_Some (cmatch_here marker_re (resource_line m w1 w2 ty w3 nm ++ rest) []).
Proof.
  intros Hm [? ?] [? ?].
  assert (Hmt : CMatches marker_re (m :: w1 ++ lit "resource" ++ w2) []).
  { unfold marker_re. apply CM_one; [done|]. apply (CM_plus is_space false); [done..|].
    apply CM_lit. rewrite <- (app_nil_r w2). apply (CM_plus is_space false); [done..|].
    constructor. }
  pose proof (cmatch_here_complete _ _ _ Hmt
                ([34] ++ ty ++ [34] ++ w3 ++ [34] ++ nm ++ [34] ++ rest) []) as Hc.
  replace (resource_line m w1 w2 ty w3 nm ++ rest)
    with ((m :: w1 ++ lit "resource" ++ w2)
          ++ [34] ++ ty ++ [34] ++ w3 ++ [34] ++ nm ++ [34] ++ rest); [done|].
  unfold resource_line. reassoc.
Qed.

Lemma resource_line_search m w1 w2 ty w3 nm rest :
  is_marker m = true -> blank w1 -> blank w2 -> quotable ty -> blank w3 -> quotable nm ->
  csearch resource_re (resource_line m w1 w2 ty w3 nm ++ rest) = Some [ty; nm].
Proof.
  intros Hm B1 B2 Qt B3 Qn. apply CLeftmost_csearch; [done|].
  exists (m :: w1). split.
  - exists (lit "resource" ++ w2 ++ [34] ++ ty ++ [34] ++ w3 ++ [34] ++ nm ++ [34]), rest.
    split.
    + unfold resource_line. reassoc.
    + apply resource_re_Matches. by exists w2, ty, w3, nm.
  - intros pre' caps' (m' & suf' & Heq & Hm').
    destruct (decide (length (m :: w1) <= length pre')%nat) as [|Hlt]; [done|exfalso].
    apply resource_re_Matches in Hm' as (? & ? & ? & ? & _ & _ & _ & _ & -> & _).
    (* the character at the start of the occurrence is an [r], inside [m :: w1] *)
    assert (Hr : (resource_line m w1 w2 ty w3 nm ++ rest) !! length pre' = Some 114).
    { rewrite Heq. by rewrite lookup_app_r, Nat.sub_diag. }
    unfold resource_line in Hr.
    change (m :: w1 ++ ?x) with ((m :: w1) ++ x) in Hr.
    rewrite <- app_assoc, lookup_app_l in Hr by lia.
    apply list_elem_of_lookup_2 in Hr. apply elem_of_cons in Hr as [<-|Hin].
    + done.
    + destruct B1 as [_ Hw1]. rewrite Forall_forall in Hw1. by specialize (Hw1 _ Hin).
Qed.

Lemma resource_change_of_line m w1 w2 ty w3 nm rest :
  is_marker m = true -> blank w1 -> blank w2 -> quotable ty -> blank w3 -> quotable nm ->
  resource_change_of (resource_line m w1 w2 ty w3 nm ++ rest)
  = Some {| action := action_of m; type := ty; name := nm |}.
Proof.
  intros Hm B1 B2 Qt B3 Qn. unfold resource_change_of.
  destruct (resource_line_marker m w1 w2 ty w3 nm rest Hm B1 B2) as [? ->].
  rewrite (resource_line_search m w1 w2 ty w3 nm rest) by done.
  unfold resource_line, action_of. simpl. done.
Qed.

(** X7. Every resource line of the text is listed: a line made of any
    indentation, a change marker, the keyword, a quoted type and a quoted
    name, with any non-empty white space between them and anything after
    the name, puts the entry with the action of the marker, that type
    and that name in [resource_changes]. *)
Theorem plan_text_lists_resource (text line ws0 w1 w2 ty w3 nm rest : jsstring) m :
  line ∈ split_on 10 text ->
  line = ws0 ++ resource_line m w1 w2 ty w3 nm ++ rest ->
  Forall (fun c => is_space c = true) ws0 -> is_marker m = true ->
  blank w1 -> blank w2 -> quotable ty -> blank w3 -> quotable nm ->
  exists l,
    resource_changes (parsePlanSummaryFromText text) = Some l /\
    {| action := action_of m; type := ty; name := nm |} ∈ l.
Proof.
  intros Hin -> Hws Hm B1 B2 Qt B3 Qn.
  assert (Hl : {| action := action_of m; type := ty; name := nm |}
               ∈ omap (fun l => resource_change_of (trim l)) (split_on 10 text)).
  { apply list_elem_of_omap. eexists. split; [exact Hin|].
    rewrite trim_resource_line by done. by apply resource_change_of_line. }
  unfold parsePlanSummaryFromText. cbn [resource_changes].
  destruct (omap _ _) as [|rc l]; [by apply elem_of_nil in Hl|]. eauto.
Qed.

Lemma plan_text_lists_resource_witness :
  exists l,
    resource_changes (parsePlanSummaryFromText
       (lit "  # aws_s3_bucket.logs will be created
  + resource " ++ [34] ++ lit "aws_s3_bucket" ++ [34; 32; 34] ++ lit "logs" ++ [34]
        ++ lit " {
      + bucket = (known after apply)")) = Some l /\
    {| action := Create; type := lit "aws_s3_bucket"; name := lit "logs" |} ∈ l.
Proof.
  apply (plan_text_lists_resource _
           (lit "  + resource " ++ [34] ++ lit "aws_s3_bucket" ++ [34; 32; 34] ++ lit "logs"
              ++ [34] ++ lit " {")
           [32; 32] [32] [32] (lit "aws_s3_bucket") [32] (lit "logs") (lit " {") 43).
  - vm_compute. right. left.
  - reflexivity.
  - repeat constructor.
  - reflexivity.
  - split; [discriminate|repeat constructor].
  - split; [discriminate|repeat constructor].
  - split; [discriminate|by apply (bool_decide_unpack _)].
  - split; [discriminate|repeat constructor].
  - split; [discriminate|by apply (bool_decide_unpack _)].
Defined.

Lemma marker_re_Matches line caps :
  cmatch_here marker_re line [] = Some caps ->
  exists m w1 tail,
    line = m :: w1 ++ lit "resource" ++ tail /\ is_marker m = true /\ blank w1.
Proof.
  intros (mt & suf & c1 & -> & H & _)%cmatch_here_sound. unfold marker_re in H.
  inversion H as [| |? m ? m1 ? Hm H1|]; subst; clear H.
  inversion H1 as [| | |? ? w1 ? m2 k2 Hn1 Hw1 H2]; subst; clear H1.
  inversion H2 as [|? ? m3 ? H3| |]; subst; clear H2.
  exists m, w1, (m3 ++ suf). split_and!; [|done|done].
  simpl. by rewrite <- !app_assoc.
Qed.

Lemma resource_change_of_Some line rc :
  resource_change_of line = Some rc -> listed_from line rc.
Proof.
  unfold resource_change_of.
  destruct (cmatch_here marker_re line []) as [caps|] eqn:Hmk; [|done].
  destruct (marker_re_Matches _ _ Hmk) as (m & w1 & tail & Hline & Hm & B1).
  destruct (csearch resource_re line) as [caps'|] eqn:Hs; [|done].
  apply csearch_CLeftmost in Hs as (pre & (mt & suf & Hl & Hmt) & _).
  apply resource_re_Matches in Hmt as (w2 & ty & w3 & nm & B2 & Qt & B3 & Qn & -> & ->).
  intros [= <-]. unfold listed_from. simpl. split_and!; [|by exists pre, w2, w3, suf; rewrite Hl, <- !app_assoc|done|done].
  exists m, w1, tail. split_and!; [done..|].
  rewrite Hline. unfold action_of. simpl. done.
Qed.

Lemma omap_shorter {A B} (f : A -> option B) l : (length (omap f l) <= length l)%nat.
Proof.
  induction l as [|x l IH]; [done|].
  change (omap f (x :: l))
    with (match f x with Some y => y :: omap f l | None => omap f l end).
  destruct (f x); simpl; lia.
Qed.

(** X8. What [resource_changes] holds: it is never an empty list (the
    property is left out instead); when present it has at most one entry
    for each line of the text, and every entry comes from a line whose
    trimmed form starts with a change marker, white space and the
    keyword, with the action of that marker and with a type and a name
    that are non-empty, free of double quotes and quoted in that line;
    when absent, no line gives an entry. *)
Theorem plan_text_resources (text : jsstring) :
  match resource_changes (parsePlanSummaryFromText text) with
  | None =>
      forall line, line ∈ split_on 10 text -> resource_change_of (trim line) = None
  | Some l =>
      l <> [] /\ (length l <= length (split_on 10 text))%nat /\
      Forall (fun rc => exists line,
                line ∈ split_on 10 text /\ listed_from (trim line) rc) l
  end.
Proof.
  unfold parsePlanSummaryFromText. cbn [resource_changes].
  destruct (omap _ _) as [|rc l] eqn:Ho.
  - intros line Hin. destruct (resource_change_of (trim line)) as [rc|] eqn:Hrc; [|done].
    assert (rc ∈ omap (fun l => resource_change_of (trim l)) (split_on 10 text)).
    { apply list_elem_of_omap. eauto. }
    rewrite Ho in H. by apply elem_of_nil in H.
  - rewrite <- Ho. split_and!.
    + by rewrite Ho.
    + apply omap_shorter.
    + apply Forall_forall. intros rc' (line & Hin & Hrc)%list_elem_of_omap.
      exists line. split; [done|]. by apply resource_change_of_Some.
Qed.

Lemma plan_text_resources_witness :
  exists l,
    resource_changes (parsePlanSummaryFromText
       (lit "  ~ resource " ++ [34] ++ lit "aws_iam_role" ++ [34; 32; 34] ++ lit "ci" ++ [34]
        ++ lit " {")) = Some l /\
    l <> [] /\ (length l <= 1)%nat.
Proof.
  pose proof (plan_text_resources
       (lit "  ~ resource " ++ [34] ++ lit "aws_iam_role" ++ [34; 32; 34] ++ lit "ci" ++ [34]
        ++ lit " {")) as H.
  destruct (resource_changes _) as [l|] eqn:Heq.
  - exists l. destruct H as (Hne & Hlen & _). by split_and!.
  - vm_compute in Heq. discriminate Heq.
Defined.

End ResourceLines.

(** ** More on the command runner *)

Section RunnerMore.

(** X9. The argument vector is always the forced part ([exec -i], the
    two environment settings that disable prompts and colours, and the
    container id), then, only when logging is enabled and the workspace
    path has no space, the two settings that request a log file under the
    workspace, then [bash -c] and the shell string: the log settings
    stand after the container id. *)
Theorem dockerArgs_layout iso containerId workspacePath (commands : list jsstring)
    enableLogging :
  dockerArgs iso containerId workspacePath commands enableLogging
  = forced_args containerId
    ++ (if enableLogging && negb (includes_unit 32 workspacePath)
        then logging_args iso workspacePath else [])
    ++ [lit "bash"; lit "-c"; wrappedCmd workspacePath commands].
Proof.
  unfold dockerArgs, logFilePath, forced_args, logging_args.
  destruct (enableLogging && negb (includes_unit 32 workspacePath)) eqn:Hlog.
  - unfold splice_insert. reflexivity.
  - reflexivity.
Qed.

(** X10. Without logging, or with a space in the workspace path, no
    read-back takes place: a resolved result has an empty log content,
    and the outcome depends on the spawned processes only through the
    primary one. *)
Theorem runCommands_without_read_back spawn iso cid path (cmds : list jsstring) logging :
  logging = false \/ includes_unit 32 path = true ->
  (forall r, runCommands spawn iso cid path cmds logging = Resolved r ->
     logFileContent r = []) /\
  (forall spawn',
     spawn' (dockerArgs iso cid path cmds logging)
     = spawn (dockerArgs iso cid path cmds logging) ->
     runCommands spawn' iso cid path cmds logging
     = runCommands spawn iso cid path cmds logging).
Proof.
  intros Hoff.
  assert (Hpath : logging && truthy (logFilePath iso path logging) = false).
  { unfold logFilePath. destruct Hoff as [-> | ->]; [done|].
    destruct logging; done. }
  split.
  - intros r. unfold runCommands. rewrite Hpath.
    destruct (spawn _) as [x|events]; [done|].
    destruct (listen events [] []) as [[[code o] e]|x|]; [|done..].
    by intros [= <-].
  - intros spawn' Hs. unfold runCommands. rewrite Hpath, Hs. done.
Qed.

Lemma runCommands_without_read_back_witness :
  match runCommands Demo.slow_log_spawn (lit "2025-01-02T03:04:05.678Z") (lit "c0ffee")
          (lit "/workspace/my shop/dev") [lit "tofu init -input=false -no-color"] true with
  | Resolved r => exitCode r = Some 0%Z /\ logFileContent r = []
  | _ => False
  end.
Proof.
  pose proof (proj1 (runCommands_without_read_back Demo.slow_log_spawn
                       (lit "2025-01-02T03:04:05.678Z") (lit "c0ffee")
                       (lit "/workspace/my shop/dev")
                       [lit "tofu init -input=false -no-color"] true
                       (or_intror eq_refl))) as Hlog.
  destruct (runCommands _ _ _ _ _ _) as [r| |] eqn:Hr; [|discriminate Hr..].
  split; [|by apply Hlog]. by injection Hr as <-.
Defined.

Lemma shell_escape_fixed p :
  shell_escape p = p <-> Forall (fun c => is_shell_special c = false) p.
Proof.
  split.
  - induction p as [|c p IH]; [done|]. simpl.
    destruct (is_shell_special c) eqn:Hc.
    + intros Heq. exfalso. injection Heq as _ Heq.
      (* the escaped string is longer than the path *)
      assert (Hlen : forall q, (length q <= length (shell_escape q))%nat).
      { clear. induction q as [|d q IHq]; simpl; [done|].
        destruct (is_shell_special d); simpl; lia. }
      apply (f_equal length) in Heq. simpl in Heq. pose proof (Hlen p). lia.
    + intros [= Heq]. constructor; [done|]. by apply IH.
  - induction 1 as [|c p Hc _ IH]; [done|]. simpl. by rewrite Hc, IH.
Qed.

(** X11. The read-back asks for the escaped log path, and [cat] receives
    it as it is: it names the file the log was requested in exactly when
    that path has none of the characters that are escaped. *)
Theorem read_back_path iso cid path :
  let p := logFilePath iso path true in
  last (logReadArgs cid p) = Some p <-> Forall (fun c => is_shell_special c = false) p.
Proof.
  intros p. unfold logReadArgs. simpl. rewrite <- shell_escape_fixed.
  split; [by intros [= ->]|by intros ->].
Qed.

Lemma read_back_path_witness :
  last (logReadArgs (lit "c0ffee")
          (logFilePath (lit "2025-01-02T03:04:05.678Z") (lit "/workspace/shop/dev") true))
  = Some (lit "/workspace/shop/dev/tofu_20250102030405.log").
Proof.
  apply (proj2 (read_back_path (lit "2025-01-02T03:04:05.678Z") (lit "c0ffee")
                  (lit "/workspace/shop/dev"))).
  vm_compute. repeat constructor.
Defined.

Lemma shell_escape_length p :
  length (shell_escape p)
  = (length p + length (filter (fun c => is_shell_special c = true) p))%nat.
Proof.
  induction p as [|c p IH]; [done|]. simpl. rewrite filter_cons.
  destruct (is_shell_special c) eqn:Hc; case_decide; try done; simpl; lia.
Qed.

(** X12. Escaping loses nothing: two different paths never have the same
    escaped form, and the escaped form is longer than the path by one
    backslash for each character of the set. *)
Theorem shell_escape_injective (p q : jsstring) :
  (shell_escape p = shell_escape q -> p = q) /\
  length (shell_escape p)
  = (length p + length (filter (fun c => is_shell_special c = true) p))%nat.
Proof.
  split; [|apply shell_escape_length].
  revert q. induction p as [|c p IH]; intros q; simpl.
  - destruct q as [|d q]; [done|]. simpl. by destruct (is_shell_special d).
  - destruct q as [|d q]; simpl.
    + by destruct (is_shell_special c).
    + destruct (is_shell_special c) eqn:Hc, (is_shell_special d) eqn:Hd.
      * intros [= -> Heq]. f_equal. by apply IH.
      * intros [= <- Heq]. done.
      * intros [= -> Heq]. done.
      * intros [= -> Heq]. f_equal. by apply IH.
Qed.

Lemma shell_escape_injective_witness :
  length (shell_escape (lit "/workspace/my shop/$dev")) = 25%nat.
Proof.
  rewrite (proj2 (shell_escape_injective (lit "/workspace/my shop/$dev") [])). reflexivity.
Defined.

Lemma filter_digits (P : N -> Prop) `{forall c, Decision (P c)} d :
  Forall (fun c => is_digit c = true) d -> (forall c, is_digit c = true -> P c) ->
  filter P d = d.
Proof.
  intros Hd HP. induction Hd as [|c d Hc _ IH]; [done|].
  rewrite filter_cons, IH. case_decide as Hn; [done|]. destruct Hn. by apply HP.
Qed.

Lemma digit_kept c : is_digit c = true -> c ∉ [45; 58; 84; 46].
Proof.
  intros [H1%N.leb_le H2%N.leb_le]%andb_prop.
  rewrite !not_elem_of_cons. split_and!; try lia. apply not_elem_of_nil.
Qed.

(** X13. On a date in ISO form the time stamp is the fourteen digits of
    year, month, day, hour, minute and second: the separators and the
    milliseconds are gone, and the log file is
    [<workspace>/tofu_YYYYMMDDHHmmss.log]. *)
Theorem compact_timestamp_iso y mo d h mi s ms (workspacePath : jsstring) :
  digits 4 y -> digits 2 mo -> digits 2 d -> digits 2 h -> digits 2 mi -> digits 2 s ->
  Forall (fun c => is_digit c = true) ms ->
  includes_unit 32 workspacePath = false ->
  compact_timestamp (iso_string y mo d h mi s ms) = y ++ mo ++ d ++ h ++ mi ++ s /\
  logFilePath (iso_string y mo d h mi s ms) workspacePath true
  = workspacePath ++ lit "/tofu_" ++ y ++ mo ++ d ++ h ++ mi ++ s ++ lit ".log".
Proof.
  intros [Ly Hy] [Lmo Hmo] [Ld Hd] [Lh Hh] [Lmi Hmi] [Ls Hs] Hms Hsp.
  assert (Hts : compact_timestamp (iso_string y mo d h mi s ms)
                = y ++ mo ++ d ++ h ++ mi ++ s).
  { unfold compact_timestamp, iso_string. rewrite !filter_app.
    assert (Hf : forall x, Forall (fun c => is_digit c = true) x ->
                           filter (fun c => c ∉ [45; 58; 84; 46]) x = x).
    { intros x Hx. apply filter_digits; [done|apply digit_kept]. }
    rewrite (Hf y Hy), (Hf mo Hmo), (Hf d Hd), (Hf h Hh), (Hf mi Hmi), (Hf s Hs), (Hf ms Hms).
    replace (filter _ (lit "-")) with (@nil N) by done.
    replace (filter _ (lit "T")) with (@nil N) by done.
    replace (filter _ (lit ":")) with (@nil N) by done.
    replace (filter _ (lit ".")) with (@nil N) by done.
    replace (filter _ (lit "Z")) with (lit "Z") by done.
    match goal with
    | |- take 14 ?x = _ =>
        replace x with ((y ++ mo ++ d ++ h ++ mi ++ s) ++ ms ++ lit "Z")
    end.
    - apply take_app_length'. rewrite !length_app. lia.
    - repeat (progress (rewrite <- ?app_assoc, ?app_nil_l)). reflexivity. }
  split; [done|]. unfold logFilePath. rewrite Hsp, Hts. simpl.
  by rewrite <- !app_assoc.
Qed.

Lemma compact_timestamp_iso_witness :
  compact_timestamp (lit "2025-01-02T03:04:05.678Z") = lit "20250102030405".
Proof.
  apply (proj1 (compact_timestamp_iso (lit "2025") (lit "01") (lit "02") (lit "03")
                  (lit "04") (lit "05") (lit "678") (lit "/workspace/shop/dev")
                  ltac:(split; [done|repeat constructor])
                  ltac:(split; [done|repeat constructor])
                  ltac:(split; [done|repeat constructor])
                  ltac:(split; [done|repeat constructor])
                  ltac:(split; [done|repeat constructor])
                  ltac:(split; [done|repeat constructor])
                  ltac:(repeat constructor) eq_refl)).
Defined.

(** X14. A read-back that closes before the timeout is not killed, and
    the log content is everything it delivered on stdout; the primary
    result is otherwise as the command chain left it. *)
Theorem log_read_back_in_time spawn iso cid path (cmds : list jsstring)
    events code out err before c rest :
  includes_unit 32 path = false ->
  spawn (dockerArgs iso cid path cmds true) = Emits events ->
  listen events [] [] = Resolved (code, out, err) ->
  spawn (logReadArgs cid (logFilePath iso path true)) = Emits (before ++ Close c :: rest) ->
  only_data before ->
  (exists st,
     read_log_file (spawn (logReadArgs cid (logFilePath iso path true))) = Some st /\
     killed st = false) /\
  runCommands spawn iso cid path cmds true
  = Resolved {| exitCode := code; stdout := out; stderr := err; combined := out ++ err;
                logFileContent := captured Stdout before;
                summary := parseTofuSummary out |}.
Proof.
  intros Hsp Hs Hl Hlog Hb.
  rewrite (runCommands_logging spawn iso cid path cmds events code out err Hsp Hs Hl).
  rewrite Hlog. simpl. rewrite (read_back_data before Hb). simpl. eauto.
Qed.

Lemma log_read_back_in_time_witness :
  exists r,
    runCommands Samples.quick_log_spawn (lit "2025-01-02T03:04:05.678Z") (lit "c0ffee")
      (lit "/workspace/shop/dev") [lit "tofu init -input=false -no-color"] true
    = Resolved r /\
    logFileContent r = lit "line 1line 2".
Proof.
  eexists. split.
  - apply (log_read_back_in_time Samples.quick_log_spawn (lit "2025-01-02T03:04:05.678Z")
             (lit "c0ffee") (lit "/workspace/shop/dev")
             [lit "tofu init -input=false -no-color"] (Demo.exits 0) (Some 0%Z)
             (lit "Initializing the backend...") (lit "Warning: slow")
             [Data Stdout (lit "line 1"); Data Stdout (lit "line 2")] (Some 0%Z) [Elapsed3s]
             eq_refl eq_refl eq_refl eq_refl ltac:(repeat constructor)).
  - reflexivity.
Defined.

(** X15. For every result of the runner the message of an init, plan or
    destroy step is [combined], the captured stdout followed by the
    captured stderr: the fall-backs to [stdout] and [stderr] never apply.
    The message of an apply step is [stdout] alone whenever stdout is not
    empty, so that the stderr data is then not recorded. *)
Theorem step_message spawn iso cid path (cmds : list jsstring) logging r :
  runCommands spawn iso cid path cmds logging = Resolved r ->
  (forall k, message (step_from k r) = stdout r ++ stderr r) /\
  (stdout r <> [] -> message (apply_step_from r) = stdout r) /\
  (stdout r = [] -> message (apply_step_from r) = stderr r).
Proof.
  intros (events & code & _ & _ & _ & Hc & _)%runCommands_Resolved. split_and!.
  - intros k. unfold step_from, step_of. cbn [message]. rewrite Hc.
    unfold or_else. destruct (stdout r) as [|c o]; simpl; [|done].
    by destruct (stderr r).
  - intros Hne. unfold apply_step_from, step_of, or_else. cbn [message].
    by destruct (stdout r).
  - intros Ho. unfold apply_step_from, step_of, or_else. cbn [message]. by rewrite Ho.
Qed.

Lemma step_message_witness :
  exists r,
    runCommands (fun _ => Emits (Demo.exits 1)) [] (lit "c0ffee") (lit "/workspace/shop/dev")
      [lit "tofu apply -auto-approve -input=false -no-color"] false = Resolved r /\
    message (step_from Destroy r) = lit "Initializing the backend...Warning: slow" /\
    message (apply_step_from r) = lit "Initializing the backend...".
Proof.
  eexists. split; [reflexivity|].
  destruct (step_message (fun _ => Emits (Demo.exits 1)) [] (lit "c0ffee")
              (lit "/workspace/shop/dev")
              [lit "tofu apply -auto-approve -input=false -no-color"] false _ eq_refl)
    as (Hall & Hout & _).
  split; [exact (Hall Destroy)|]. apply Hout. discriminate.
Defined.

End RunnerMore.

(** ** More on the handlers *)

Section HandlerMore.

Lemma updateOne_unmatched (P : Deployment -> Prop) `{forall d, Decision (P d)} f
    (L : Collection) :
  (updateOne P f L).1 = 0%nat -> (updateOne P f L).2 = L.
Proof. unfold updateOne. by destruct (list_find P L) as [[i d]|]. Qed.

(** Follow every path of a handler that ends in the given reply. *)
Ltac paths := intros Hcall; repeat case_match; simplify_eq.

(** X16. A reply other than 200 is an error reply: for each of the
    five handlers, and whatever the repository does, its status is 400,
    404 or 500 and its body is an object with the single key [error];
    and a reply of 400 or 404 is sent before anything is written, the
    collection being the one the handler was given. *)
Theorem error_replies addStep w req (L : Collection) resp (L' : Collection) :
  status resp <> 200 ->
  (tofuInit w req L = Replied resp L' \/ tofuPlan addStep w req L = Replied resp L' \/
   tofuApply addStep w req L = Replied resp L' \/
   tofuDestroy addStep w req L = Replied resp L' \/
   tofuPlanDeny w req L = Replied resp L') ->
  keys (body resp) = ["error"%string] /\ status resp ∈ [400; 404; 500] /\
  (status resp = 400 \/ status resp = 404 -> L' = L).
Proof.
  intros Hst [Hcall|[Hcall|[Hcall|[Hcall|Hcall]]]]; revert Hcall.
  - unfold tofuInit. paths; cbn [status ok fail] in Hst; try done;
      (split_and!; [done| |done]); cbn [status fail]; rewrite !elem_of_cons; auto.
  - unfold tofuPlan. paths; cbn [status ok fail] in Hst; try done;
      (split_and!; [done| |done]); cbn [status fail]; rewrite !elem_of_cons; auto.
  - unfold tofuApply. paths; cbn [status ok fail] in Hst; try done;
      (split_and!; [done| |done]); cbn [status fail]; rewrite !elem_of_cons; auto.
  - unfold tofuDestroy. paths; cbn [status ok fail] in Hst; try done;
      (split_and!; [done| |done || by intros _; apply updateOne_unmatched]);
      cbn [status fail]; rewrite !elem_of_cons; auto.
  - unfold tofuPlanDeny. cbv zeta. paths; cbn [status ok fail] in Hst; try done;
      (split_and!; [done| |done || by intros _; apply updateOne_unmatched]);
      cbn [status fail]; rewrite !elem_of_cons; auto.
Qed.

(** A cancel for a project that does not exist: 404, and the collection
    of the example as it was. *)
Lemma error_replies_witness :
  exists resp L',
    tofuPlanDeny (Demo.world [])
      {| params_projectId := lit "p9"; body_spaceName := None;
         body_deploymentId := Some (lit "dep-1") |} Demo.ledger
    = Replied resp L' /\
    status resp = 404 /\ keys (body resp) = ["error"%string] /\ L' = Demo.ledger.
Proof.
  eexists _, _. split; [reflexivity|]. split; [reflexivity|].
  destruct (error_replies addDeploymentStep (Demo.world [])
           {| params_projectId := lit "p9"; body_spaceName := None;
              body_deploymentId := Some (lit "dep-1") |} Demo.ledger
           (fail 404 (lit "Project not found")) Demo.ledger) as (Hk & _ & HL).
  - discriminate.
  - do 4 right. reflexivity.
  - split; [exact Hk|]. apply HL. by right.
Defined.

(** X17. The fields of a 200 reply agree with one another.  For
    [tofuInit], [tofuApply] and [tofuDestroy]: [combined] is [stdout]
    followed by [stderr], [summary] is the summary of [stdout], and
    [logFileContent] is the empty string, the handlers never asking for
    the log.  For [tofuPlan]: [rawFormat] and [humanReadable.raw] are the
    same text, [humanReadable.summary] is its summary, and
    [logFileContent] is empty as well. *)
Theorem response_fields addStep w req (L : Collection) resp (L' : Collection) :
  status resp = 200 ->
  (tofuInit w req L = Replied resp L' \/ tofuApply addStep w req L = Replied resp L' \/
   tofuDestroy addStep w req L = Replied resp L' ->
   exists out err,
     field "stdout" (body resp) = Some (JStr out) /\
     field "stderr" (body resp) = Some (JStr err) /\
     field "combined" (body resp) = Some (JStr (out ++ err)) /\
     field "summary" (body resp) = Some (summary_json (parseTofuSummary out)) /\
     field "logFileContent" (body resp) = Some (JStr [])) /\
  (tofuPlan addStep w req L = Replied resp L' ->
   exists out,
     field "rawFormat" (body resp) = Some (JStr out) /\
     field "humanReadable" (body resp)
     = Some (JObj [("raw"%string, JStr out);
                   ("summary"%string, summary_json (parseTofuSummary out))]) /\
     field "logFileContent" (body resp) = Some (JStr [])).
Proof.
  intros Hst. split.
  - intros [Hcall|[Hcall|Hcall]]; revert Hcall.
    + unfold tofuInit. paths; cbn [status ok fail] in Hst; try done;
        match goal with
        | H : runCommands _ _ _ _ _ false = Resolved ?a |- _ =>
            destruct (result_facts _ _ _ _ _ _ H) as (Hc & Hs & Hl);
            exists (stdout a), (stderr a); destruct a; simpl in Hc, Hs, Hl; subst
        end; split_and!; reflexivity.
    + unfold tofuApply. paths; cbn [status ok fail] in Hst; try done;
        match goal with
        | H : runCommands _ _ _ _ _ false = Resolved ?a |- _ =>
            destruct (result_facts _ _ _ _ _ _ H) as (Hc & Hs & Hl);
            exists (stdout a), (stderr a); destruct a; simpl in Hc, Hs, Hl; subst
        end; split_and!; reflexivity.
    + unfold tofuDestroy. paths; cbn [status ok fail] in Hst; try done;
        match goal with
        | H : runCommands _ _ _ _ _ false = Resolved ?a |- _ =>
            destruct (result_facts _ _ _ _ _ _ H) as (Hc & Hs & Hl);
            exists (stdout a), (stderr a); destruct a; simpl in Hc, Hs, Hl; subst
        end; split_and!; reflexivity.
  - unfold tofuPlan. paths; cbn [status ok fail] in Hst; try done;
      match goal with
      | H : runCommands _ _ _ _ _ false = Resolved ?a |- _ =>
          destruct (result_facts _ _ _ _ _ _ H) as (Hc & Hs & Hl);
          exists (stdout a); destruct a; simpl in Hc, Hs, Hl; subst
      end; split_and!; reflexivity.
Qed.

Lemma response_fields_witness :
  exists resp L',
    tofuApply addDeploymentStep (Demo.world (Demo.exits 0)) Demo.request Demo.ledger
    = Replied resp L' /\
    field "combined" (body resp) = Some (JStr (lit "Initializing the backend...Warning: slow")) /\
    field "logFileContent" (body resp) = Some (JStr []).
Proof.
  eexists _, _. split; [vm_compute; reflexivity|].
  match goal with
  | |- field _ (body ?r) = _ /\ _ =>
      destruct (proj1 (response_fields addDeploymentStep (Demo.world (Demo.exits 0))
                         Demo.request Demo.ledger r _ eq_refl)
                  (or_intror (or_introl eq_refl)))
        as (out & err & Ho & He & Hc & _ & Hl)
  end.
  split; [|exact Hl]. rewrite Hc. vm_compute in Ho, He.
  injection Ho as <-. injection He as <-. reflexivity.
Defined.

(** X18. [tofuInit] without a deployment id (not sent, or empty) creates
    a deployment: once the checks have passed and the runner has
    resolved, the collection is the old one followed by one new
    document, which carries the generated id and name, the project id
    of the request, the space name, the current time as start, and
    exactly one step, the init step derived from the result; the reply
    is a 200 that carries the generated id and name. *)
Theorem tofuInit_creates w req (L : Collection) r project :
  findProject (params_projectId req) (projects w) = Some project ->
  runs w req (lit "tofu init -input=false -no-color") r ->
  present (body_deploymentId req) = false ->
  let ids := generateDeploymentIdentifiers w (projectName project)
               (value (body_spaceName req)) in
  exists resp,
    tofuInit w req L
    = Replied resp
        (L ++ [{| deploymentId := ids.1; projectId := params_projectId req;
                  spaceId := value (body_spaceName req); deploymentName := ids.2;
                  steps := [step_from Init r]; startedAt := now w |}]) /\
    status resp = 200 /\
    field "deploymentId" (body resp) = Some (JStr ids.1) /\
    field "deploymentName" (body resp) = Some (JStr ids.2).
Proof.
  intros Hproj (project' & cid & Hsp & Hp & Him & Hc & Hr) Hno ids. subst ids.
  rewrite Hproj in Hp. injection Hp as <-.
  unfold tofuInit. rewrite Hsp, Hproj, Him. simpl negb. cbv iota.
  destruct (getContainerIdsByImage w _) as [|c cs]; [done|]. injection Hc as ->.
  rewrite Hr, Hno.
  eexists. split; [reflexivity|]. split_and!; reflexivity.
Qed.

Lemma tofuInit_creates_witness :
  exists resp d,
    tofuInit (Demo.world (Demo.exits 0))
      {| params_projectId := lit "p1"; body_spaceName := Some (lit "dev");
         body_deploymentId := None |} Demo.ledger
    = Replied resp [Demo.dep1; d] /\
    deploymentId d = lit "dep-2" /\ (stepStatus <$> steps d) = [Successful].
Proof.
  destruct (tofuInit_creates (Demo.world (Demo.exits 0))
              {| params_projectId := lit "p1"; body_spaceName := Some (lit "dev");
                 body_deploymentId := None |} Demo.ledger _ Demo.shop eq_refl
              ltac:(exists Demo.shop, (lit "c0ffee"); split_and!; reflexivity) eq_refl)
    as (resp & Hcall & _).
  eexists resp, _. split; [exact Hcall|]. split; reflexivity.
Defined.

(** X19. A process that cannot be spawned is a server error, and nothing
    is recorded: when the checks of the request have passed and the
    runner rejects with an error, each of the four step handlers answers
    500 with the message of that error, and the collection is unchanged,
    whatever the repository would have done. *)
Theorem spawn_failure_is_500 addStep w req (L : Collection) e :
  (reaches w req (lit "tofu init -input=false -no-color") (Rejected e) ->
   tofuInit w req L = Replied (fail 500 e) L) /\
  (present (body_deploymentId req) = true ->
   (reaches w req (lit "tofu plan -input=false -no-color") (Rejected e) ->
    tofuPlan addStep w req L = Replied (fail 500 e) L) /\
   (reaches w req (lit "tofu apply -auto-approve -input=false -no-color") (Rejected e) ->
    tofuApply addStep w req L = Replied (fail 500 e) L) /\
   (reaches w req (lit "tofu destroy -auto-approve -input=false -no-color") (Rejected e) ->
    tofuDestroy addStep w req L = Replied (fail 500 e) L)).
Proof.
  split; [|intros Hid; split_and!];
    intros (project & cid & Hsp & Hp & Him & Hc & Hr);
    [unfold tofuInit|unfold tofuPlan|unfold tofuApply|unfold tofuDestroy];
    rewrite Hsp, Hp, Him, ?Hid; simpl negb; cbv iota;
    (destruct (getContainerIdsByImage w _) as [|c cs]; [done|]); injection Hc as ->;
    by rewrite Hr.
Qed.

Lemma spawn_failure_is_500_witness :
  tofuInit (Demo.world [Error (lit "spawn docker ENOENT")]) Demo.request Demo.ledger
  = Replied (fail 500 (lit "spawn docker ENOENT")) Demo.ledger.
Proof.
  apply (proj1 (spawn_failure_is_500 addDeploymentStep
                  (Demo.world [Error (lit "spawn docker ENOENT")]) Demo.request
                  Demo.ledger (lit "spawn docker ENOENT"))).
  exists Demo.shop, (lit "c0ffee"). split_and!; reflexivity.
Defined.

End HandlerMore.

(** ** Invariants of the collection *)

Section LedgerMore.

Ltac paths := intros Hcall; repeat case_match; simplify_eq.

Lemma skeleton_set_positional k st t d : skeleton (set_positional k st t d) = skeleton d.
Proof.
  unfold set_positional. destruct (list_find _ (steps d)) as [[j s]|] eqn:Hj; [|done].
  apply list_find_Some in Hj as (Hj & _ & _). unfold skeleton. simpl. f_equal.
  rewrite list_fmap_insert. simpl. apply list_insert_id. by rewrite list_lookup_fmap, Hj.
Qed.

Lemma skeleton_updateOne (P : Deployment -> Prop) `{forall d, Decision (P d)} f
    (L : Collection) :
  (forall d, skeleton (f d) = skeleton d) ->
  skeleton <$> (updateOne P f L).2 = skeleton <$> L.
Proof.
  intros Hf. unfold updateOne. destruct (list_find P L) as [[i d]|] eqn:Hi; [|done].
  apply list_find_Some in Hi as (Hi & _ & _). simpl.
  rewrite list_fmap_insert, Hf. apply list_insert_id. by rewrite list_lookup_fmap, Hi.
Qed.

(** X21. Whatever it answers, [tofuPlanDeny] keeps the collection in
    shape: the same documents in the same order, each with its id, its
    project, space, name and start, and the same steps with their kinds,
    messages and logs in the same order.  Only the status and the
    timestamp of a step can differ afterwards. *)
Theorem tofuPlanDeny_keeps_skeleton w req (L : Collection) resp (L' : Collection) :
  tofuPlanDeny w req L = Replied resp L' -> skeleton <$> L' = skeleton <$> L.
Proof.
  unfold tofuPlanDeny. cbv zeta. paths; try done;
    apply skeleton_updateOne, skeleton_set_positional.
Qed.

Lemma tofuPlanDeny_keeps_skeleton_witness :
  exists resp L',
    tofuPlanDeny (Demo.world []) Demo.request Demo.ledger = Replied resp L' /\
    skeleton <$> L' = skeleton <$> Demo.ledger.
Proof.
  eexists _, _. split; [reflexivity|].
  apply (tofuPlanDeny_keeps_skeleton (Demo.world []) Demo.request Demo.ledger _ _ eq_refl).
Defined.

Lemma set_positional_keeps_filter k st t d :
  has_id_and_step (deploymentId d) k d -> has_id_and_step (deploymentId d) k (set_positional k st t d).
Proof.
  intros [_ Hex]. split.
  - pose proof (skeleton_set_positional k st t d) as Hsk. by injection Hsk.
  - apply Exists_exists in Hex as (s & Hs & Hk).
    pose proof (skeleton_set_positional k st t d) as Hsk. injection Hsk as _ _ _ _ _ Hsteps.
    apply list_elem_of_fmap_2 with (f := fun s => (step s, message s, stepLogFileContent s))
      in Hs. rewrite <- Hsteps in Hs.
    apply list_elem_of_fmap in Hs as (s' & Heq & Hs'). apply Exists_exists. exists s'.
    split; [done|]. injection Heq as <- _ _. done.
Qed.

Lemma set_positional_twice k st t1 t2 d :
  set_positional k st t2 (set_positional k st t1 d) = set_positional k st t2 d.
Proof.
  unfold set_positional at 2 3.
  destruct (list_find _ (steps d)) as [[j s]|] eqn:Hj; [|by unfold set_positional; rewrite Hj].
  unfold set_positional. cbn [steps with_steps].
  rewrite (list_find_insert_same (fun s => step s = k) _ _ _ _ Hj).
  - unfold with_steps. cbn. by rewrite list_insert_insert_eq.
  - apply list_find_Some in Hj as (_ & Hk & _). done.
Qed.

(** X22. Cancelling twice is cancelling once, at the later time: when a
    cancel has answered 200 and a second cancel of the same request
    answers 200 as well, the collection is the one that a single cancel
    at the time of the second would have given.  The second call lands
    on the entry the first one cancelled, not on the next plan entry. *)
Theorem tofuPlanDeny_twice w1 w2 req (L L1 L2 : Collection) resp1 resp2 :
  tofuPlanDeny w1 req L = Replied resp1 L1 -> status resp1 = 200 ->
  tofuPlanDeny w2 req L1 = Replied resp2 L2 -> status resp2 = 200 ->
  tofuPlanDeny w2 req L = Replied resp2 L2.
Proof.
  intros H1 Hs1 H2 Hs2.
  destruct (body_deploymentId req) as [[|c id]|] eqn:Hid;
    [unfold tofuPlanDeny in H1; rewrite Hid in H1; simpl in H1;
     injection H1 as <- <-; done| |
     unfold tofuPlanDeny in H1; rewrite Hid in H1; simpl in H1;
     injection H1 as <- <-; done].
  rewrite (tofuPlanDeny_sent w1 req L (c :: id) Hid ltac:(done)) in H1.
  rewrite (tofuPlanDeny_sent w2 req L1 (c :: id) Hid ltac:(done)) in H2.
  rewrite (tofuPlanDeny_sent w2 req L (c :: id) Hid ltac:(done)).
  destruct (findProject _ (projects w1)); [|by injection H1 as <- <-].
  destruct (findProject _ (projects w2)); [|by injection H2 as <- <-].
  destruct (list_find _ L) as [[i d]|] eqn:Hfind; [|by injection H1 as <- <-].
  injection H1 as <- <-.
  pose proof Hfind as (_ & [Hdid Hex] & _)%list_find_Some.
  assert (Hfind1 : list_find (has_id_and_step (c :: id) Plan)
                     (<[i := set_positional Plan Cancelled (now w1) d]> L)
                   = Some (i, set_positional Plan Cancelled (now w1) d)).
  { apply (list_find_insert_same _ _ _ _ _ Hfind). rewrite <- Hdid.
    apply set_positional_keeps_filter. by rewrite Hdid. }
  rewrite Hfind1 in H2. rewrite list_insert_insert_eq, set_positional_twice in H2. done.
Qed.

Lemma tofuPlanDeny_twice_witness :
  exists resp1 resp2 L1 L2,
    tofuPlanDeny (Demo.world []) Demo.request Demo.ledger = Replied resp1 L1 /\
    tofuPlanDeny (Demo.world [Elapsed3s]) Demo.request L1 = Replied resp2 L2 /\
    tofuPlanDeny (Demo.world [Elapsed3s]) Demo.request Demo.ledger = Replied resp2 L2 /\
    (fun d => stepStatus <$> steps d) <$> L2 = [[Failed; Cancelled; Failed]].
Proof.
  eexists _, _, _, _. split; [reflexivity|]. split; [reflexivity|]. split; [|reflexivity].
  apply (tofuPlanDeny_twice (Demo.world []) (Demo.world [Elapsed3s]) Demo.request
           Demo.ledger _ _ _ _ eq_refl eq_refl eq_refl eq_refl).
Defined.

(** The three ways [tofuInit] can leave the collection. *)
Lemma tofuInit_cases w req (L : Collection) resp (L' : Collection) :
  tofuInit w req L = Replied resp L' ->
  L' = L \/
  (exists i d s, L !! i = Some d /\ step s = Init /\
     L' = <[i := with_steps d (history d ++ [s])]> L) \/
  (exists doc s, step s = Init /\ steps doc = [s] /\ L' = L ++ [doc]).
Proof.
  unfold tofuInit. paths; try (by left).
  - right. left. unfold findOne in *.
    destruct (list_find _ L) as [[i d0]|] eqn:Hfind; [|done].
    rewrite (updateOne_found _ _ _ _ _ Hfind). simpl.
    assert (Hfind1 : list_find (has_id (value (body_deploymentId req)))
                       (<[i := pull_steps Init d0]> L) = Some (i, pull_steps Init d0)).
    { apply (list_find_insert_same _ _ _ _ _ Hfind).
      apply list_find_Some in Hfind as (_ & Hd & _). exact Hd. }
    rewrite (updateOne_found _ _ _ _ _ Hfind1). simpl. rewrite list_insert_insert_eq.
    apply list_find_Some in Hfind as (Hi & _ & _).
    eexists i, d0, _. split; [done|]. split; [|reflexivity]. done.
  - right. right. eexists _, _. split; [|split; [|reflexivity]]; [|reflexivity]. done.
Qed.

Lemma history_with_init d s :
  step s = Init -> history (with_steps d (history d ++ [s])) = history d.
Proof.
  intros Hs. unfold history. simpl. rewrite filter_app, list_filter_filter.
  rewrite filter_cons. case_decide as Hx; [done|]. rewrite filter_nil, app_nil_r.
  apply list_filter_iff. intros x. tauto.
Qed.

(** X23. [tofuInit] never deletes a deployment and never touches the
    history: whatever it answers, every document of the collection is
    still there afterwards, at the same place, with the same id, project,
    space, name and start, and with the same steps other than init, in
    the same order; and the collection grows by one document at most. *)
Theorem tofuInit_keeps_history w req (L : Collection) resp (L' : Collection) :
  tofuInit w req L = Replied resp L' ->
  (length L <= length L' <= S (length L))%nat /\
  (forall i d, L !! i = Some d ->
     exists d', L' !! i = Some d' /\
       deploymentId d' = deploymentId d /\ projectId d' = projectId d /\
       spaceId d' = spaceId d /\ deploymentName d' = deploymentName d /\
       startedAt d' = startedAt d /\ history d' = history d).
Proof.
  intros [->|[(i & d & s & Hi & Hs & ->)|(doc & s & _ & _ & ->)]]%tofuInit_cases.
  - split; [lia|]. intros i d Hi. by exists d.
  - rewrite length_insert. split; [lia|]. intros j d0 Hj.
    destruct (decide (i = j)) as [<-|Hne].
    + rewrite list_lookup_insert_eq by (by eapply lookup_lt_Some). simplify_eq.
      eexists. split; [done|]. split_and!; try done. by apply history_with_init.
    + rewrite list_lookup_insert_ne by done. by exists d0.
  - rewrite length_app. simpl. split; [lia|]. intros i d Hi. exists d.
    split; [|done]. rewrite lookup_app_l; [done|]. by eapply lookup_lt_Some.
Qed.

Lemma tofuInit_keeps_history_witness :
  exists resp L' d',
    tofuInit (Demo.world (Demo.exits 0)) Demo.request Demo.ledger = Replied resp L' /\
    L' !! 0%nat = Some d' /\ history d' = [Demo.plan1; Demo.plan2].
Proof.
  eexists _, _. 
  destruct (proj2 (tofuInit_keeps_history (Demo.world (Demo.exits 0)) Demo.request
                     Demo.ledger _ _ eq_refl) 0%nat Demo.dep1 eq_refl)
    as (d' & Hd' & _ & _ & _ & _ & _ & Hh).
  exists d'. split; [reflexivity|]. split; [exact Hd'|]. rewrite Hh. reflexivity.
Defined.

Lemma init_count_skeleton d d' : skeleton d = skeleton d' -> init_count d = init_count d'.
Proof.
  intros Hsk. injection Hsk as _ _ _ _ _ Hsteps. unfold init_count.
  apply (f_equal (fmap (fun x : StepKind * jsstring * jsstring => x.1.1))) in Hsteps.
  rewrite <- !list_fmap_compose in Hsteps.
  assert (Hk : forall ss : list Step,
             length (filter (fun s => step s = Init) ss)
             = length (filter (fun k => k = Init) (step <$> ss))).
  { intros ss. induction ss as [|s ss IH]; [done|]. rewrite fmap_cons, !filter_cons.
    repeat case_decide; simpl; try done; by f_equal. }
  assert (Hst : step <$> steps d = step <$> steps d') by exact Hsteps.
  by rewrite !Hk, Hst.
Qed.

Lemma tofuPlanDeny_keeps_skeleton_pointwise w req (L : Collection) resp (L' : Collection) :
  tofuPlanDeny w req L = Replied resp L' ->
  forall i d', L' !! i = Some d' -> exists d, L !! i = Some d /\ skeleton d' = skeleton d.
Proof.
  intros Hcall i d' Hd'.
  assert (Hsk : skeleton <$> L' = skeleton <$> L).
  { revert Hcall. unfold tofuPlanDeny. cbv zeta. paths; try done;
      apply skeleton_updateOne, skeleton_set_positional. }
  apply (f_equal (fun l => l !! i)) in Hsk. rewrite !list_lookup_fmap, Hd' in Hsk.
  destruct (L !! i) as [d|]; [|done]. exists d. split; [done|].
  simpl in Hsk. congruence.
Qed.

(** X24. At most one init step for each deployment, as an invariant:
    when it holds of every document of the collection, it holds again of
    every document after [tofuInit] and after [tofuPlanDeny], whatever
    they answer. *)
Theorem one_init_invariant w req (L : Collection) resp (L' : Collection) :
  Forall (fun d => (init_count d <= 1)%nat) L ->
  tofuInit w req L = Replied resp L' \/ tofuPlanDeny w req L = Replied resp L' ->
  Forall (fun d => (init_count d <= 1)%nat) L'.
Proof.
  intros Hinv [Hcall|Hcall].
  - apply tofuInit_cases in Hcall
      as [->|[(i & d & s & Hi & Hs & ->)|(doc & s & Hs & Hdoc & ->)]]; [done| |].
    + apply Forall_insert; [done|]. unfold init_count. simpl.
      rewrite filter_app. unfold history. rewrite filter_pulled, filter_cons.
      by case_decide.
    + apply Forall_app. split; [done|]. apply Forall_singleton.
      unfold init_count. rewrite Hdoc, filter_cons, filter_nil. case_decide; simpl; lia.
  - pose proof (tofuPlanDeny_keeps_skeleton_pointwise _ _ _ _ _ Hcall) as Hpt.
    apply Forall_lookup. intros i d' Hd'. destruct (Hpt i d' Hd') as (d & Hd & Hsk).
    rewrite (init_count_skeleton _ _ Hsk). rewrite Forall_lookup in Hinv. eauto.
Qed.

Lemma one_init_invariant_witness :
  exists resp L',
    tofuInit (Demo.world (Demo.exits 1)) Demo.request Demo.ledger = Replied resp L' /\
    Forall (fun d => (init_count d <= 1)%nat) L'.
Proof.
  eexists _, _. split; [reflexivity|].
  eapply (one_init_invariant (Demo.world (Demo.exits 1)) Demo.request Demo.ledger).
  - apply Forall_singleton. vm_compute. lia.
  - left. reflexivity.
Defined.

End LedgerMore.
